(** * Bytebot ANE bridge: shared-memory transfer, batching, throttling and
      cache prediction, embedded from the Python sources.

    Python floats are idealised as exact rationals ([Q]); dictionaries are
    [gmap]s when only lookups matter and association lists when the
    insertion order is observable; exceptions are explicit results. *)

From Stdlib Require Import ZArith QArith Qround Qminmax Qabs List Bool Ascii String Lia Sorted.
From Stdlib Require Import DecimalString DecimalFacts DecimalN.
From stdpp Require Import base option list gmap strings pretty.

Open Scope Z_scope.

(** ** Shared vocabulary *)

(** [d.get(k, default)] on a dictionary of floats. *)
Definition dict_get (d : gmap string Q) (k : string) (default_ : Q) : Q :=
  match d !! k with
  | Some v => v
  | None => default_
  end.

(** Strict comparison of two floats, [a > b]. *)
Definition Qgtb (a b : Q) : bool := negb (Qle_bool a b).

(** [a >= b]. *)
Definition Qgeb (a b : Q) : bool := Qle_bool b a.

(** [a < b]. *)
Definition Qltb (a b : Q) : bool := negb (Qle_bool b a).

Lemma Qgtb_lt a b : Qgtb a b = true <-> (b < a)%Q.
Proof.
  unfold Qgtb. rewrite negb_true_iff.
  split; intros H.
  - apply Qnot_le_lt. intros Hle. apply Qle_bool_iff in Hle. congruence.
  - destruct (Qle_bool a b) eqn:E; [|reflexivity].
    apply Qle_bool_iff in E. exfalso. eapply Qlt_not_le; eauto.
Qed.

Lemma Qltb_lt a b : Qltb a b = true <-> (a < b)%Q.
Proof. apply Qgtb_lt. Qed.

Lemma Qgeb_le a b : Qgeb a b = true <-> (b <= a)%Q.
Proof. apply Qle_bool_iff. Qed.

(** ** ane_resource_monitor.py *)

Module ResourceMonitor.

(** [ResourceAllocation] dataclass. *)
Record ResourceAllocation := {
  max_concurrent_requests : Z;
  batch_size_recommendation : Z;
  priority_queue_size : Z;
  memory_limit_mb : Z;
  throttle_threshold : Q
}.

(** The fields of [ANEResourceMonitor] that [should_throttle] reads. *)
Record ANEResourceMonitor := {
  current_allocation : ResourceAllocation;
  adaptive_throttling : bool
}.

(** [ANEResourceMonitor.__init__]: the allocation built from a config
    dictionary left empty, i.e. the defaults of every [config.get]. *)
Definition default_allocation : ResourceAllocation := {|
  max_concurrent_requests := 10;
  batch_size_recommendation := 5;
  priority_queue_size := 50;
  memory_limit_mb := 2048;
  throttle_threshold := 85 # 100
|}.

Definition default_monitor : ANEResourceMonitor := {|
  current_allocation := default_allocation;
  adaptive_throttling := true
|}.

(** [_calculate_ane_utilization] on the process CPU share reported by the
    host: the usage estimate, the simulated throughput and the efficiency
    score, with the two counters the source leaves at zero. *)
Definition _calculate_ane_utilization (process_cpu : Q) : gmap string Q :=
  let estimated_ane_usage := Qmin 100 (process_cpu * 2) in
  let estimated_throughput := Qmax 0 (100 - estimated_ane_usage) in
  let efficiency_score :=
    Qmin 100 ((estimated_throughput / Qmax 1 estimated_ane_usage) * 10) in
  <["ane_usage" := estimated_ane_usage]>
  (<["throughput" := estimated_throughput]>
  (<["efficiency_score" := efficiency_score]>
  (<["active_requests" := 0%Q]>
  (<["queue_depth" := 0%Q]> ∅)))).

(** The three throttle conditions of [should_throttle], evaluated on the
    dictionary returned by [get_current_utilization]. *)
Definition throttle_conditions (m : ANEResourceMonitor)
    (current_utilization : gmap string Q) : list bool :=
  [ Qgtb (dict_get current_utilization "ane_usage" 0)
         (throttle_threshold (current_allocation m));
    Qgtb (dict_get current_utilization "ane_temperature" 0) 80;
    Qgtb (dict_get current_utilization "queue_depth" 0)
         (inject_Z (priority_queue_size (current_allocation m)) * (8 # 10)) ].

(** [should_throttle], given the reading [get_current_utilization]
    produced. *)
Definition should_throttle (m : ANEResourceMonitor)
    (current_utilization : gmap string Q) : bool :=
  if negb (adaptive_throttling m) then false
  else existsb (fun c => c) (throttle_conditions m current_utilization).

End ResourceMonitor.

(** ** Python list helpers *)

(** [range(start, stop, step)]; [None] is the [ValueError] raised for a zero
    step. *)
Definition py_range (start stop step : Z) : option (list Z) :=
  if step =? 0 then None
  else
    let count :=
      if 0 <? step then (stop - start + step - 1) / step
      else (start - stop - step - 1) / (- step) in
    Some (map (fun j => start + Z.of_nat j * step) (seq 0 (Z.to_nat count))).

(** [l[i:j]] for indices that are not negative. *)
Definition py_slice {A} (l : list A) (i j : Z) : list A :=
  take (Z.to_nat j - Z.to_nat i)%nat (drop (Z.to_nat i) l).

(** Python's stable sort, by insertion: [before x y] tells that [x] may stand
    before [y]; an element is placed in front of the first element it may
    stand before, so elements that compare equal keep their order. *)
Fixpoint insert_sorted {A} (before : A -> A -> bool) (x : A) (l : list A)
    : list A :=
  match l with
  | [] => [x]
  | y :: t => if before x y then x :: y :: t
              else y :: insert_sorted before x t
  end.

Definition stable_sort {A} (before : A -> A -> bool) (l : list A) : list A :=
  foldr (insert_sorted before) [] l.

(** [list.sort(key=...)] with integer keys, ascending. *)
Definition sort_by {A} (key : A -> Z) (l : list A) : list A :=
  stable_sort (fun a b => key a <=? key b) l.

(** [list.sort(key=..., reverse=True)] with float keys, descending. *)
Definition sort_by_desc {A} (key : A -> Q) (l : list A) : list A :=
  stable_sort (fun a b => Qle_bool (key b) (key a)) l.

(** [deque(maxlen=n).append(x)]: the oldest entry falls off a full deque. *)
Definition deque_append {A} (maxlen : nat) (x : A) (d : list A) : list A :=
  let d' := d ++ [x] in drop (length d' - maxlen) d'.

(** [sum(xs)] over floats. *)
Definition Qsum (xs : list Q) : Q := foldr Qplus 0%Q xs.

(** ** batch_optimizer.py *)

Module BatchOptimizer.

(** [BatchConfig] dataclass. *)
Record BatchConfig := {
  high_priority_batch_size : Z;
  normal_priority_batch_size : Z;
  max_concurrent : Z;
  adaptive_threshold : Q;
  performance_target_ms : Q
}.

(** A request dictionary, restricted to the keys the optimizer reads (each
    may be absent) and the caller's [request_id]. *)
Record Request := {
  request_id : option string;
  priority : option string;
  recognition_level : option string;
  image_data : option string;
  languages : option (list string)
}.

(** [PrioritizedBatch] dataclass. *)
Record PrioritizedBatch := {
  requests : list Request;
  batch_priority : string;
  estimated_processing_time_ms : Q;
  batch_id : string
}.

(** One entry of [adaptation_history]. *)
Record Adaptation := {
  ad_timestamp : Q;
  ad_system_load : Q;
  ad_high_priority_batch_size : Z;
  ad_normal_priority_batch_size : Z;
  ad_max_concurrent : Z
}.

(** One entry of [performance_history]. *)
Record PerformanceSample := {
  ps_timestamp : Q;
  ps_ane_usage : Q;
  ps_throughput : Q;
  ps_batch_size_high : Z;
  ps_batch_size_normal : Z
}.

(** The mutable state of [DynamicBatchOptimizer]. *)
Record DynamicBatchOptimizer := {
  initial_size : Z;
  adaptive_sizing : bool;
  current_config : BatchConfig;
  performance_history : list PerformanceSample;
  adaptation_history : list Adaptation;
  cpu_utilization_history : list Q;
  memory_utilization_history : list Q
}.

(** [DynamicBatchOptimizer.__init__]. *)
Definition init (initial_size_ : Z) (adaptive_sizing_ : bool)
    : DynamicBatchOptimizer := {|
  initial_size := initial_size_;
  adaptive_sizing := adaptive_sizing_;
  current_config := {|
    high_priority_batch_size := Z.max 2 (initial_size_ / 2);
    normal_priority_batch_size := initial_size_;
    max_concurrent := 8;
    adaptive_threshold := 7 # 10;
    performance_target_ms := 5
  |};
  performance_history := [];
  adaptation_history := [];
  cpu_utilization_history := [];
  memory_utilization_history := []
|}.

Definition with_config (o : DynamicBatchOptimizer) (c : BatchConfig)
    : DynamicBatchOptimizer := {|
  initial_size := initial_size o;
  adaptive_sizing := adaptive_sizing o;
  current_config := c;
  performance_history := performance_history o;
  adaptation_history := adaptation_history o;
  cpu_utilization_history := cpu_utilization_history o;
  memory_utilization_history := memory_utilization_history o
|}.

Definition set_sizes (c : BatchConfig) (high normal conc : Z) : BatchConfig := {|
  high_priority_batch_size := high;
  normal_priority_batch_size := normal;
  max_concurrent := conc;
  adaptive_threshold := adaptive_threshold c;
  performance_target_ms := performance_target_ms c
|}.

(** What the host reports during one [_analyze_system_state]: the two
    [psutil] readings ([None] when the probe raises), the accelerator
    reading of the performance monitor ([None] without a monitor) and the
    clock. *)
Record Host := {
  psutil_reading : option (Q * Q);
  ane_data : option (gmap string Q);
  clock_analyze : Q;
  clock_adapt : Q
}.

(** The [system_state] dictionary. *)
Record SystemState := {
  cpu_utilization : Q;
  memory_utilization : Q;
  ane_utilization : Q;
  system_load : Q;
  timestamp : Q
}.

(** [_analyze_system_state]. *)
Definition _analyze_system_state (o : DynamicBatchOptimizer) (h : Host)
    : DynamicBatchOptimizer * SystemState :=
  match psutil_reading h with
  | Some (cpu_percent, memory_percent) =>
      let cpus := deque_append 20 cpu_percent (cpu_utilization_history o) in
      let mems := deque_append 20 memory_percent (memory_utilization_history o) in
      let avg_cpu := (Qsum cpus / inject_Z (Z.of_nat (length cpus)))%Q in
      let avg_memory := (Qsum mems / inject_Z (Z.of_nat (length mems)))%Q in
      let ane := match ane_data h with
                 | Some d => dict_get d "ane_usage" 0
                 | None => 0%Q
                 end in
      ({| initial_size := initial_size o;
          adaptive_sizing := adaptive_sizing o;
          current_config := current_config o;
          performance_history := performance_history o;
          adaptation_history := adaptation_history o;
          cpu_utilization_history := cpus;
          memory_utilization_history := mems |},
       {| cpu_utilization := avg_cpu;
          memory_utilization := avg_memory;
          ane_utilization := ane;
          system_load := ((avg_cpu + avg_memory + ane) / 3)%Q;
          timestamp := clock_analyze h |})
  | None =>
      (o, {| cpu_utilization := 50; memory_utilization := 50;
             ane_utilization := 50; system_load := 50;
             timestamp := clock_analyze h |})
  end.

(** The size update of [_adapt_batch_sizes] for a given [system_load]. *)
Definition adapt_config (c : BatchConfig) (load : Q) : BatchConfig :=
  if Qltb load 30 then
    set_sizes c (Z.min 10 (high_priority_batch_size c + 1))
                (Z.min 20 (normal_priority_batch_size c + 2))
                (Z.min 12 (max_concurrent c + 1))
  else if Qgtb load 80 then
    set_sizes c (Z.max 1 (high_priority_batch_size c - 1))
                (Z.max 2 (normal_priority_batch_size c - 2))
                (Z.max 4 (max_concurrent c - 1))
  else c.

(** [_adapt_batch_sizes]: the update, then the entry appended to
    [adaptation_history] (a deque of at most 50). *)
Definition _adapt_batch_sizes (o : DynamicBatchOptimizer) (load now : Q)
    : DynamicBatchOptimizer :=
  let c := adapt_config (current_config o) load in
  {| initial_size := initial_size o;
     adaptive_sizing := adaptive_sizing o;
     current_config := c;
     performance_history := performance_history o;
     adaptation_history :=
       deque_append 50
         {| ad_timestamp := now; ad_system_load := load;
            ad_high_priority_batch_size := high_priority_batch_size c;
            ad_normal_priority_batch_size := normal_priority_batch_size c;
            ad_max_concurrent := max_concurrent c |}
         (adaptation_history o);
     cpu_utilization_history := cpu_utilization_history o;
     memory_utilization_history := memory_utilization_history o |}.

(** [_increase_batch_sizes]. *)
Definition _increase_batch_sizes (c : BatchConfig) : BatchConfig :=
  set_sizes c (Z.min 10 (high_priority_batch_size c + 1))
              (Z.min 20 (normal_priority_batch_size c + 1))
              (max_concurrent c).

(** [_decrease_batch_sizes]. *)
Definition _decrease_batch_sizes (c : BatchConfig) : BatchConfig :=
  set_sizes c (Z.max 1 (high_priority_batch_size c - 1))
              (Z.max 2 (normal_priority_batch_size c - 1))
              (max_concurrent c).

(** [adjust_for_utilization] on a utilisation dictionary. *)
Definition adjust_for_utilization (o : DynamicBatchOptimizer)
    (utilization : gmap string Q) (now : Q) : DynamicBatchOptimizer :=
  let ane_usage := dict_get utilization "ane_usage" 0 in
  let throughput := dict_get utilization "throughput" 0 in
  let c := current_config o in
  let sample := {| ps_timestamp := now; ps_ane_usage := ane_usage;
                   ps_throughput := throughput;
                   ps_batch_size_high := high_priority_batch_size c;
                   ps_batch_size_normal := normal_priority_batch_size c |} in
  let c' := if Qltb ane_usage (5 # 10) then _increase_batch_sizes c
            else if Qgtb ane_usage (8 # 10) then _decrease_batch_sizes c
            else c in
  {| initial_size := initial_size o;
     adaptive_sizing := adaptive_sizing o;
     current_config := c';
     performance_history := deque_append 100 sample (performance_history o);
     adaptation_history := adaptation_history o;
     cpu_utilization_history := cpu_utilization_history o;
     memory_utilization_history := memory_utilization_history o |}.

(** [r.get("priority", "normal")]. *)
Definition get_priority (r : Request) : string :=
  default "normal" (priority r).

(** One of the three batching loops of [_create_prioritized_batches]:
    [for i in range(0, len(rs), size)] building a batch from
    [rs[i : i + size]]. [None] is the exception of a zero step. *)
Definition chunk_batches (label : string) (rs : list Request) (size : Z)
    (target_ms : Q) : option (list PrioritizedBatch) :=
  idxs ← py_range 0 (Z.of_nat (length rs)) size;
  Some (map (fun i =>
    let batch_requests := py_slice rs i (i + size) in
    {| requests := batch_requests;
       batch_priority := label;
       estimated_processing_time_ms :=
         (inject_Z (Z.of_nat (length batch_requests)) * target_ms)%Q;
       batch_id := label +:+ "_priority_" +:+ pretty (i / size) |}) idxs).

(** [priority_order.get(b.priority, 1)]. *)
Definition priority_order (p : string) : Z :=
  if String.eqb p "high" then 0
  else if String.eqb p "normal" then 1
  else if String.eqb p "low" then 2
  else 1.

(** The single batch returned from the [except] branch. *)
Definition fallback_batch (c : BatchConfig) (rs : list Request)
    : PrioritizedBatch := {|
  requests := rs;
  batch_priority := "normal";
  estimated_processing_time_ms :=
    (inject_Z (Z.of_nat (length rs)) * performance_target_ms c)%Q;
  batch_id := "fallback_batch"
|}.

(** [_create_prioritized_batches]. *)
Definition _create_prioritized_batches (c : BatchConfig) (rs : list Request)
    : list PrioritizedBatch :=
  let high_priority_requests :=
    filter (fun r => get_priority r = "high") rs in
  let normal_priority_requests :=
    filter (fun r => get_priority r = "normal") rs in
  let low_priority_requests :=
    filter (fun r => get_priority r = "low") rs in
  let low_priority_batch_size := Z.max (normal_priority_batch_size c) 10 in
  let attempt :=
    hs ← chunk_batches "high" high_priority_requests
           (high_priority_batch_size c) (performance_target_ms c);
    ns ← chunk_batches "normal" normal_priority_requests
           (normal_priority_batch_size c) (performance_target_ms c);
    ls ← chunk_batches "low" low_priority_requests
           low_priority_batch_size (performance_target_ms c);
    Some (sort_by (fun b => priority_order (batch_priority b))
                  (hs ++ ns ++ ls)) in
  match attempt with
  | Some batches => batches
  | None => [fallback_batch c rs]
  end.

(** [_get_image_size_category]. *)
Definition _get_image_size_category (image_size : Z) : string :=
  if image_size <? 50 * 1024 then "small"
  else if image_size <? 200 * 1024 then "medium"
  else if image_size <? 500 * 1024 then "large"
  else "xlarge".

(** [len(r.get("image_data", ""))]: the length of the encoded text. *)
Definition image_len (r : Request) : Z :=
  Z.of_nat (String.length (default "" (image_data r))).

Definition get_level (r : Request) : string :=
  default "accurate" (recognition_level r).

(** [level_groups[level].append(request)] on the insertion-ordered
    dictionary [level_groups]. *)
Fixpoint level_append (level : string) (r : Request)
    (groups : list (string * list Request)) : list (string * list Request) :=
  match groups with
  | [] => [(level, [r])]
  | (l, members) :: rest =>
      if String.eqb l level then (l, members ++ [r]) :: rest
      else (l, members) :: level_append level r rest
  end.

(** The state of the inner loop of [_group_similar_requests]:
    [final_groups], [current_group] and [current_size_category]. *)
Definition size_step (st : list (list Request) * list Request * option string)
    (r : Request) : list (list Request) * list Request * option string :=
  let '(final_groups, current_group, current_size_category) := st in
  let size_category := _get_image_size_category (image_len r) in
  match current_size_category with
  | None => (final_groups, current_group ++ [r], Some size_category)
  | Some cat =>
      if String.eqb cat size_category
      then (final_groups, current_group ++ [r], Some size_category)
      else
        (match current_group with
         | [] => final_groups
         | _ => final_groups ++ [current_group]
         end, [r], Some size_category)
  end.

(** The body of the loop over [level_groups.items()]. *)
Definition group_level (final_groups : list (list Request))
    (level_requests : list Request) : list (list Request) :=
  let size_sorted := sort_by image_len level_requests in
  let '(final_groups', current_group, _) :=
    foldl size_step (final_groups, [], None) size_sorted in
  match current_group with
  | [] => final_groups'
  | _ => final_groups' ++ [current_group]
  end.

(** [_group_similar_requests]; the [characteristics] argument is not read
    by the source. *)
Definition _group_similar_requests (rs : list Request)
    : list (list Request) :=
  let level_groups :=
    foldl (fun g r => level_append (get_level r) r g) [] rs in
  let final_groups :=
    foldl (fun acc lg => group_level acc (snd lg)) [] level_groups in
  match final_groups with
  | [] => [rs]
  | _ => final_groups
  end.

Section Optimize.

(** [base64.b64decode] as far as the optimizer depends on it: the length
    of the decoded data, or [None] when decoding raises. *)
Variable b64decode_len : string -> option Z.

(** The analysis loop of [_optimize_single_batch]: it only gathers
    statistics, and fails when some non-empty [image_data] does not
    decode. *)
Definition analysis_succeeds (rs : list Request) : bool :=
  forallb (fun r =>
    match default "" (image_data r) with
    | EmptyString => true
    | s => match b64decode_len s with Some _ => true | None => false end
    end) rs.

(** [_optimize_single_batch]. *)
Definition _optimize_single_batch (c : BatchConfig) (batch : PrioritizedBatch)
    : list PrioritizedBatch :=
  if (length (requests batch) <=? 2)%nat then [batch]
  else if negb (analysis_succeeds (requests batch)) then [batch]
  else
    imap (fun i sub_requests =>
      {| requests := sub_requests;
         batch_priority := batch_priority batch;
         estimated_processing_time_ms :=
           (inject_Z (Z.of_nat (length sub_requests))
            * performance_target_ms c)%Q;
         batch_id := batch_id batch +:+ "_optimized_" +:+ pretty (Z.of_nat i) |})
      (_group_similar_requests (requests batch)).

(** The batches of [optimize_batch] before their requests are
    extracted. *)
Definition optimized_batches (c : BatchConfig) (rs : list Request)
    : list PrioritizedBatch :=
  concat (map (_optimize_single_batch c) (_create_prioritized_batches c rs)).

(** [optimize_batch]: the new optimizer state and the returned lists of
    requests. *)
Definition optimize_batch (o : DynamicBatchOptimizer) (h : Host)
    (rs : list Request) : DynamicBatchOptimizer * list (list Request) :=
  match rs with
  | [] => (o, [])
  | _ =>
      let '(o1, system_state) := _analyze_system_state o h in
      let o2 := if adaptive_sizing o1
                then _adapt_batch_sizes o1 (system_load system_state)
                       (clock_adapt h)
                else o1 in
      (o2, map requests (optimized_batches (current_config o2) rs))
  end.

End Optimize.

End BatchOptimizer.

(** ** The [json] module on the values the bridge serialises *)

Module Json.

(** JSON values: [None], booleans, integers, strings, lists, and dictionaries
    with string keys in insertion order.  Floats are left out. *)
#[local] Unset Elimination Schemes.
Inductive json :=
| JNull
| JBool (b : bool)
| JInt (n : Z)
| JStr (s : string)
| JList (l : list json)
| JDict (l : list (string * json)).
#[local] Set Elimination Schemes.

Definition dquote : ascii := "034"%char.
Definition backslash : ascii := "092"%char.

Definition hex_digit (n : N) : ascii :=
  match n with
  | 0 => "0" | 1 => "1" | 2 => "2" | 3 => "3" | 4 => "4" | 5 => "5"
  | 6 => "6" | 7 => "7" | 8 => "8" | 9 => "9" | 10 => "a" | 11 => "b"
  | 12 => "c" | 13 => "d" | 14 => "e" | _ => "f"
  end%char%N.

(** The escape [json.dumps] writes for one character ([ensure_ascii] is on):
    the short escapes, a [\u00XX] escape for the other control characters and
    for the characters above 126, and the character itself otherwise. *)
Definition escape_char (c : ascii) : string :=
  let n := N_of_ascii c in
  if Ascii.eqb c dquote then String backslash (String dquote "")
  else if Ascii.eqb c backslash then String backslash (String backslash "")
  else if (n =? 10)%N then String backslash "n"
  else if (n =? 13)%N then String backslash "r"
  else if (n =? 9)%N then String backslash "t"
  else if (n =? 8)%N then String backslash "b"
  else if (n =? 12)%N then String backslash "f"
  else if ((n <? 32) || (126 <? n))%N then
    String backslash
      (String "u" (String "0" (String "0"
         (String (hex_digit (n / 16)) (String (hex_digit (n mod 16)) "")))))
  else String c "".

Fixpoint escape (s : string) : string :=
  match s with
  | EmptyString => EmptyString
  | String c r => escape_char c +:+ escape r
  end.

Definition quoted (s : string) : string :=
  String dquote (escape s +:+ String dquote "").

(** [str(n)] for an integer that is not negative, and for any integer. *)
Definition print_nat (n : N) : string :=
  NilEmpty.string_of_uint (N.to_uint n).

Definition print_int (z : Z) : string :=
  match z with
  | Zneg p => String "-" (print_nat (Npos p))
  | _ => print_nat (Z.to_N z)
  end.

(** [", ".join(parts)]. *)
Fixpoint join_comma (parts : list string) : string :=
  match parts with
  | [] => ""
  | [p] => p
  | p :: rest => p +:+ ", " +:+ join_comma rest
  end.

(** [json.dumps] with its default separators. *)
Fixpoint dumps (v : json) : string :=
  match v with
  | JNull => "null"
  | JBool true => "true"
  | JBool false => "false"
  | JInt n => print_int n
  | JStr s => quoted s
  | JList l => "[" +:+ join_comma (map dumps l) +:+ "]"
  | JDict l =>
      "{" +:+ join_comma (map (fun kv => quoted kv.1 +:+ ": " +:+ dumps kv.2) l)
      +:+ "}"
  end.

Definition is_ws (c : ascii) : bool :=
  let n := N_of_ascii c in
  ((n =? 32) || (n =? 9) || (n =? 10) || (n =? 13))%N.

Fixpoint skip_ws (s : string) : string :=
  match s with
  | String c r => if is_ws c then skip_ws r else s
  | EmptyString => s
  end.

Definition digit_value (c : ascii) : option N :=
  let n := N_of_ascii c in
  if ((48 <=? n) && (n <=? 57))%N then Some (n - 48)%N else None.

Definition hex_value (c : ascii) : option N :=
  let n := N_of_ascii c in
  if ((48 <=? n) && (n <=? 57))%N then Some (n - 48)%N
  else if ((97 <=? n) && (n <=? 102))%N then Some (n - 87)%N
  else if ((65 <=? n) && (n <=? 70))%N then Some (n - 55)%N
  else None.

(** The constructor of [Decimal.uint] a digit stands for. *)
Definition digit_ctor (c : ascii) : option (Decimal.uint -> Decimal.uint) :=
  match digit_value c with
  | Some 0%N => Some Decimal.D0
  | Some 1%N => Some Decimal.D1
  | Some 2%N => Some Decimal.D2
  | Some 3%N => Some Decimal.D3
  | Some 4%N => Some Decimal.D4
  | Some 5%N => Some Decimal.D5
  | Some 6%N => Some Decimal.D6
  | Some 7%N => Some Decimal.D7
  | Some 8%N => Some Decimal.D8
  | Some _ => Some Decimal.D9
  | None => None
  end.

(** The digits at the head of [s], and what follows them. *)
Fixpoint read_digits (s : string) : Decimal.uint * string :=
  match s with
  | String c r =>
      match digit_ctor c with
      | Some D => let '(d, rest) := read_digits r in (D d, rest)
      | None => (Decimal.Nil, s)
      end
  | EmptyString => (Decimal.Nil, s)
  end.

(** A fraction or an exponent follows: the literal is a float. *)
Definition float_tail (s : string) : bool :=
  match s with
  | String c _ => Ascii.eqb c "." || Ascii.eqb c "e" || Ascii.eqb c "E"
  | EmptyString => false
  end.

(** An unsigned integer literal: one digit at least, no leading zero, and no
    fraction or exponent behind it. *)
Definition parse_nat (s : string) : option (N * string) :=
  let '(d, rest) := read_digits s in
  match d with
  | Decimal.Nil => None
  | Decimal.D0 (Decimal.D0 _ | Decimal.D1 _ | Decimal.D2 _ | Decimal.D3 _
               | Decimal.D4 _ | Decimal.D5 _ | Decimal.D6 _ | Decimal.D7 _
               | Decimal.D8 _ | Decimal.D9 _) => None
  | _ => if float_tail rest then None else Some (N.of_uint d, rest)
  end.

Definition parse_int (s : string) : option (Z * string) :=
  match s with
  | String c r =>
      if Ascii.eqb c "-"
      then '(n, rest) ← parse_nat r; Some (- Z.of_N n, rest)
      else '(n, rest) ← parse_nat s; Some (Z.of_N n, rest)
  | EmptyString => None
  end.

(** The body of a string literal, behind its opening quote: the decoded text
    and what follows the closing quote.  A raw control character is refused,
    as is a [\u] escape above 255. *)
Fixpoint parse_string_body (s : string) : option (string * string) :=
  match s with
  | EmptyString => None
  | String c r =>
      if Ascii.eqb c dquote then Some (EmptyString, r)
      else if Ascii.eqb c backslash then
        match r with
        | String e r1 =>
            let continue (x : ascii) (tail : string) :=
              match parse_string_body tail with
              | Some (body, rest) => Some (String x body, rest)
              | None => None
              end in
            if Ascii.eqb e dquote then continue dquote r1
            else if Ascii.eqb e backslash then continue backslash r1
            else if Ascii.eqb e "/" then continue "/"%char r1
            else if Ascii.eqb e "n" then continue "010"%char r1
            else if Ascii.eqb e "r" then continue "013"%char r1
            else if Ascii.eqb e "t" then continue "009"%char r1
            else if Ascii.eqb e "b" then continue "008"%char r1
            else if Ascii.eqb e "f" then continue "012"%char r1
            else if Ascii.eqb e "u" then
              match r1 with
              | String h1 (String h2 (String h3 (String h4 r2))) =>
                  match hex_value h1, hex_value h2, hex_value h3, hex_value h4 with
                  | Some a, Some b, Some c', Some d =>
                      let code := (((a * 16 + b) * 16 + c') * 16 + d)%N in
                      if (code <? 256)%N then
                        match parse_string_body r2 with
                        | Some (body, rest) =>
                            Some (String (ascii_of_N code) body, rest)
                        | None => None
                        end
                      else None
                  | _, _, _, _ => None
                  end
              | _ => None
              end
            else None
        | EmptyString => None
        end
      else if (N_of_ascii c <? 32)%N then None
      else
        match parse_string_body r with
        | Some (body, rest) => Some (String c body, rest)
        | None => None
        end
  end.

(** What follows [prefix] at the head of [s], when [s] starts with it. *)
Fixpoint strip_prefix (prefix s : string) : option string :=
  match prefix, s with
  | EmptyString, _ => Some s
  | String a p, String b r => if Ascii.eqb a b then strip_prefix p r else None
  | String _ _, EmptyString => None
  end.

(** [s] starts with the character [c]: what follows it. *)
Definition after_char (c : ascii) (s : string) : option string :=
  match s with
  | String x r => if Ascii.eqb x c then Some r else None
  | EmptyString => None
  end.

(** The recursive-descent decoder; [fuel] bounds the number of values and
    separators still to be read. *)
Fixpoint parse_value (fuel : nat) (s : string) : option (json * string) :=
  match fuel with
  | O => None
  | S fuel =>
      match s with
      | String c r =>
          if Ascii.eqb c dquote then
            '(x, rest) ← parse_string_body r; Some (JStr x, rest)
          else if Ascii.eqb c "[" then
            match after_char "]" (skip_ws r) with
            | Some rest => Some (JList [], rest)
            | None =>
                '(l, rest) ← parse_elements fuel (skip_ws r);
                Some (JList l, rest)
            end
          else if Ascii.eqb c "{" then
            match after_char "}" (skip_ws r) with
            | Some rest => Some (JDict [], rest)
            | None =>
                '(l, rest) ← parse_members fuel (skip_ws r);
                Some (JDict l, rest)
            end
          else if Ascii.eqb c "n" then
            rest ← strip_prefix "ull" r; Some (JNull, rest)
          else if Ascii.eqb c "t" then
            rest ← strip_prefix "rue" r; Some (JBool true, rest)
          else if Ascii.eqb c "f" then
            rest ← strip_prefix "alse" r; Some (JBool false, rest)
          else '(n, rest) ← parse_int s; Some (JInt n, rest)
      | EmptyString => None
      end
  end
with parse_elements (fuel : nat) (s : string) : option (list json * string) :=
  match fuel with
  | O => None
  | S fuel =>
      '(v, rest) ← parse_value fuel s;
      match after_char "," (skip_ws rest) with
      | Some r =>
          '(l, rest') ← parse_elements fuel (skip_ws r); Some (v :: l, rest')
      | None =>
          r ← after_char "]" (skip_ws rest); Some ([v], r)
      end
  end
with parse_members (fuel : nat) (s : string)
    : option (list (string * json) * string) :=
  match fuel with
  | O => None
  | S fuel =>
      r ← after_char dquote s;
      '(k, rest) ← parse_string_body r;
      r1 ← after_char ":" (skip_ws rest);
      '(v, rest1) ← parse_value fuel (skip_ws r1);
      match after_char "," (skip_ws rest1) with
      | Some r2 =>
          '(l, rest2) ← parse_members fuel (skip_ws r2);
          Some ((k, v) :: l, rest2)
      | None =>
          r2 ← after_char "}" (skip_ws rest1); Some ([(k, v)], r2)
      end
  end.

(** [json.loads]: one value, with white space around it and nothing else.
    The decoder covers the texts [dumps] writes for the values above.  A
    text with a float literal, [NaN] or [Infinity], a [\u] escape above
    [\u00ff] or a character beyond ASCII is refused here, where Python
    decodes it to a value this type does not have; and the interpreter's
    limits on the digits of an integer and on the depth of nesting are not
    modelled. *)
Definition loads (s : string) : option json :=
  '(v, rest) ← parse_value (S (String.length s)) (skip_ws s);
  match skip_ws rest with
  | EmptyString => Some v
  | _ => None
  end.

(** [d[key]] on a decoded dictionary: the last entry under the key. *)
Fixpoint dict_lookup (key : string) (l : list (string * json)) : option json :=
  match l with
  | [] => None
  | (k, v) :: rest =>
      match dict_lookup key rest with
      | Some v' => Some v'
      | None => if String.eqb k key then Some v else None
      end
  end.

End Json.

(** ** [hashlib.sha256] *)

Module Sha256.

(** Arithmetic on 32-bit words, kept in [0, 2^32). *)
Definition mask32 : Z := 0xffffffff.

Definition add32 (a b : Z) : Z := (a + b) mod 2 ^ 32.

Definition rotr (n x : Z) : Z :=
  Z.lor (Z.shiftr x n) (Z.land (Z.shiftl x (32 - n)) mask32).

Definition shr (n x : Z) : Z := Z.shiftr x n.

Definition not32 (x : Z) : Z := Z.lxor x mask32.

Definition Ch (x y z : Z) : Z := Z.lxor (Z.land x y) (Z.land (not32 x) z).

Definition Maj (x y z : Z) : Z :=
  Z.lxor (Z.lxor (Z.land x y) (Z.land x z)) (Z.land y z).

Definition Sigma0 (x : Z) : Z :=
  Z.lxor (Z.lxor (rotr 2 x) (rotr 13 x)) (rotr 22 x).

Definition Sigma1 (x : Z) : Z :=
  Z.lxor (Z.lxor (rotr 6 x) (rotr 11 x)) (rotr 25 x).

Definition sigma0 (x : Z) : Z :=
  Z.lxor (Z.lxor (rotr 7 x) (rotr 18 x)) (shr 3 x).

Definition sigma1 (x : Z) : Z :=
  Z.lxor (Z.lxor (rotr 17 x) (rotr 19 x)) (shr 10 x).

(** The first [n] primes, found among the numbers below [bound]. *)
Definition is_prime (p : nat) : bool :=
  forallb (fun d => negb (p mod d =? 0)%nat) (seq 2 (p - 2)).

Definition primes (n bound : nat) : list Z :=
  map Z.of_nat (take n (List.filter is_prime (seq 2 (bound - 2)))).

(** The largest [r] below [2 ^ bits] with [r ^ 3 <= x], one bit at a time. *)
Fixpoint cube_root (bits : nat) (x : Z) : Z :=
  match bits with
  | O => 0
  | S bits =>
      let r := cube_root bits (x / 8) in
      if (2 * r + 1) ^ 3 <=? x then 2 * r + 1 else 2 * r
  end.

(** The round constants: the first 32 bits of the fractional parts of the
    cube roots of the first 64 primes. *)
Definition K : list Z :=
  Eval vm_compute in
    map (fun p => cube_root 36 (p * 2 ^ 96) mod 2 ^ 32) (primes 64 312).

(** The eight working words. *)
Record state := {
  ha : Z; hb : Z; hc : Z; hd : Z; he : Z; hf : Z; hg : Z; hh : Z
}.

(** The first 32 bits of the fractional part of the square root of [p]. *)
Definition root_bits (p : Z) : Z := Z.sqrt (p * 2 ^ 64) mod 2 ^ 32.

(** The initial hash value, from the first eight primes. *)
Definition initial : state :=
  Eval vm_compute in
    {| ha := root_bits 2; hb := root_bits 3; hc := root_bits 5;
       hd := root_bits 7; he := root_bits 11; hf := root_bits 13;
       hg := root_bits 17; hh := root_bits 19 |}.

(** The message followed by the bit [1], zeros up to 56 modulo 64, and the
    bit length on 8 bytes, most significant first. *)
Definition be_bytes (width : nat) (x : Z) : list Z :=
  map (fun i => (x / 2 ^ (8 * Z.of_nat i)) mod 256) (rev (seq 0 width)).

Definition pad (msg : list Z) : list Z :=
  let len := Z.of_nat (length msg) in
  let zeros := Z.to_nat ((55 - len) mod 64) in
  msg ++ [128] ++ repeat 0 zeros ++ be_bytes 8 (8 * len).

(** Big-endian words of a byte sequence. *)
Fixpoint words (bytes : list Z) : list Z :=
  match bytes with
  | a :: b :: c :: d :: rest =>
      (((a * 256 + b) * 256 + c) * 256 + d) :: words rest
  | _ => []
  end.

(** The message schedule, most recent word first: [extend n ws] adds [n]
    words to the reversed schedule [ws]. *)
Fixpoint extend (n : nat) (ws : list Z) : list Z :=
  match n with
  | O => ws
  | S n =>
      let w := add32 (add32 (sigma1 (nth 1 ws 0)) (nth 6 ws 0))
                     (add32 (sigma0 (nth 14 ws 0)) (nth 15 ws 0)) in
      extend n (w :: ws)
  end.

Definition schedule (block : list Z) : list Z :=
  rev (extend 48 (rev block)).

Definition round (s : state) (kw : Z * Z) : state :=
  let '(k, w) := kw in
  let t1 := add32 (add32 (add32 (hh s) (Sigma1 (he s)))
                         (add32 (Ch (he s) (hf s) (hg s)) k)) w in
  let t2 := add32 (Sigma0 (ha s)) (Maj (ha s) (hb s) (hc s)) in
  {| ha := add32 t1 t2; hb := ha s; hc := hb s; hd := hc s;
     he := add32 (hd s) t1; hf := he s; hg := hf s; hh := hg s |}.

Definition compress (s : state) (block : list Z) : state :=
  let r := foldl round s (combine K (schedule block)) in
  {| ha := add32 (ha s) (ha r); hb := add32 (hb s) (hb r);
     hc := add32 (hc s) (hc r); hd := add32 (hd s) (hd r);
     he := add32 (he s) (he r); hf := add32 (hf s) (hf r);
     hg := add32 (hg s) (hg r); hh := add32 (hh s) (hh r) |}.

(** The hash of the 16-word blocks of [ws]; [n] is the number of blocks. *)
Fixpoint blocks (n : nat) (s : state) (ws : list Z) : state :=
  match n with
  | O => s
  | S n => blocks n (compress s (take 16 ws)) (drop 16 ws)
  end.

Definition sha256 (data : list Byte.byte) : state :=
  let ws := words (pad (map (fun b => Z.of_N (Byte.to_N b)) data)) in
  blocks (length ws / 16) initial ws.

(** A word in eight lower-case hexadecimal digits. *)
Definition hex8 (x : Z) (tail : string) : string :=
  let d (i : Z) := Json.hex_digit (Z.to_N ((x / 2 ^ (4 * i)) mod 16)) in
  String (d 7) (String (d 6) (String (d 5) (String (d 4)
    (String (d 3) (String (d 2) (String (d 1) (String (d 0) tail))))))).

(** [hashlib.sha256(data).hexdigest()]. *)
Definition hexdigest (data : list Byte.byte) : string :=
  let s := sha256 data in
  hex8 (ha s) (hex8 (hb s) (hex8 (hc s) (hex8 (hd s)
    (hex8 (he s) (hex8 (hf s) (hex8 (hg s) (hex8 (hh s) ""))))))).

End Sha256.

(** ** apple-silicon-m4/shared-memory-bridge.py *)

Module M4Bridge.

(** A memory map: its bytes, whose number is fixed, and the position of the
    next read or write. *)
Record mmap := {
  mm_buf : list Byte.byte;
  mm_pos : nat
}.

(** [m.seek(0)]. *)
Definition mm_seek0 (m : mmap) : mmap := {| mm_buf := mm_buf m; mm_pos := 0 |}.

(** [m.write(data)]: [None] is the [ValueError] raised when the data does not
    fit between the position and the end of the map. *)
Definition mm_write (data : list Byte.byte) (m : mmap) : option mmap :=
  let size := length (mm_buf m) in
  if (size <? mm_pos m)%nat || (size - mm_pos m <? length data)%nat then None
  else Some {| mm_buf := take (mm_pos m) (mm_buf m) ++ data
                         ++ drop (mm_pos m + length data) (mm_buf m);
               mm_pos := (mm_pos m + length data)%nat |}.

(** [m.read(n)]: at most [n] bytes from the position on, all the remaining
    bytes when [n] is negative. *)
Definition mm_read (n : Z) (m : mmap) : list Byte.byte * mmap :=
  let remaining := drop (mm_pos m) (mm_buf m) in
  let bytes := if n <? 0 then remaining else take (Z.to_nat n) remaining in
  (bytes, {| mm_buf := mm_buf m; mm_pos := (mm_pos m + length bytes)%nat |}).

(** The byte of value [z mod 256]. *)
Definition byte_of_Z (z : Z) : Byte.byte :=
  default Byte.x00 (Byte.of_N (Z.to_N (z mod 256))).

Definition Z_of_byte (b : Byte.byte) : Z := Z.of_N (Byte.to_N b).

(** [struct.pack("<I", n)]; [None] is the [struct.error] raised outside
    [0, 2^32). *)
Definition pack_le32 (n : Z) : option (list Byte.byte) :=
  if (0 <=? n) && (n <? 2 ^ 32)
  then Some [byte_of_Z n; byte_of_Z (n / 2 ^ 8); byte_of_Z (n / 2 ^ 16);
             byte_of_Z (n / 2 ^ 24)]
  else None.

(** [struct.unpack("<I", data)[0]] on four bytes. *)
Definition unpack_le32 (data : list Byte.byte) : option Z :=
  match data with
  | [b0; b1; b2; b3] =>
      Some (Z_of_byte b0 + 2 ^ 8 * Z_of_byte b1 + 2 ^ 16 * Z_of_byte b2
            + 2 ^ 24 * Z_of_byte b3)
  | _ => None
  end.

(** [text.encode("utf-8")] and [data.decode("utf-8")] on ASCII text, which
    is all [json.dumps] writes; other bytes are taken one character each. *)
Definition encode (text : string) : list Byte.byte := list_byte_of_string text.
Definition decode (data : list Byte.byte) : string := string_of_list_byte data.

(** [hashlib.sha256(data).hexdigest()[:16]]. *)
Definition checksum (data : list Byte.byte) : string :=
  String.substring 0 16 (Sha256.hexdigest data).

(** [SharedMemorySegment] dataclass, without the file descriptor and the two
    datetimes. *)
Record SharedMemorySegment := {
  name : string;
  seg_size : Z;
  memory_map : mmap;
  access_count : Z
}.

(** [M4SharedMemoryBridge]: the segments and the counters of
    [performance_metrics]; the wall-clock latency is left out. *)
Record M4SharedMemoryBridge := {
  segments : gmap string SharedMemorySegment;
  operations : Z;
  bytes_transferred : Z;
  zero_copy_operations : Z
}.

Definition new_bridge : M4SharedMemoryBridge := {|
  segments := ∅; operations := 0; bytes_transferred := 0;
  zero_copy_operations := 0
|}.

Definition set_segment (seg : SharedMemorySegment) (b : M4SharedMemoryBridge)
    : M4SharedMemoryBridge := {|
  segments := <[name seg := seg]> (segments b);
  operations := operations b;
  bytes_transferred := bytes_transferred b;
  zero_copy_operations := zero_copy_operations b
|}.

Definition with_map (seg : SharedMemorySegment) (m : mmap) : SharedMemorySegment := {|
  name := name seg; seg_size := seg_size seg; memory_map := m;
  access_count := access_count seg
|}.

(** The subdirectories [_setup_shared_memory_infrastructure] makes under
    the base path. *)
Definition subdirs : list string := ["images"; "metadata"; "performance"; "cache"].

(** [_setup_shared_memory_infrastructure], run by the constructor: the
    directories under the base path afterwards, [present] being those that
    were there before.  A directory is named by its path from the base path. *)
Definition _setup_shared_memory_infrastructure (present : gset string)
    : gset string :=
  present ∪ list_to_set subdirs.

(** [create_shared_segment]: the file is [<base_path>/<data_type>/<name>.shm],
    which [os.open] creates only in a directory that exists; [dirs] are the
    directories under the base path, and [os_ok] tells whether the operating
    system then creates, sizes and maps the file.  A size that is not
    positive cannot be mapped.  [None] is the exception raised. *)
Definition create_shared_segment (dirs : gset string) (os_ok : bool)
    (segment_name : string) (size : Z) (data_type : string)
    (b : M4SharedMemoryBridge) : option M4SharedMemoryBridge :=
  if bool_decide (data_type ∈ dirs) && os_ok && (0 <? size) then
    Some (set_segment
            {| name := segment_name; seg_size := size;
               memory_map := {| mm_buf := repeat Byte.x00 (Z.to_nat size);
                                mm_pos := 0 |};
               access_count := 0 |} b)
  else None.

(** Python's truth value of a JSON value. *)
Definition truthy (v : Json.json) : bool :=
  match v with
  | Json.JNull => false
  | Json.JBool flag => flag
  | Json.JInt n => negb (n =? 0)
  | Json.JStr s => negb (String.eqb s EmptyString)
  | Json.JList [] | Json.JDict [] => false
  | Json.JList (_ :: _) | Json.JDict (_ :: _) => true
  end.

(** [metadata or {}]. *)
Definition or_empty (metadata : option Json.json) : Json.json :=
  match metadata with
  | Some v => if truthy v then v else Json.JDict []
  | None => Json.JDict []
  end.

(** The header dictionary of [write_image_data]. *)
Definition header_data (timestamp : string) (image_data : list Byte.byte)
    (metadata : option Json.json) : Json.json :=
  Json.JDict [("timestamp", Json.JStr timestamp);
              ("size", Json.JInt (Z.of_nat (length image_data)));
              ("checksum", Json.JStr (checksum image_data));
              ("metadata", or_empty metadata)].

(** The three writes of [write_image_data]; the map is returned as far as it
    got, with whether every write went through. *)
Definition write_all (header_json image_data : list Byte.byte) (m : mmap)
    : bool * mmap :=
  let m0 := mm_seek0 m in
  match pack_le32 (Z.of_nat (length header_json)) with
  | None => (false, m0)
  | Some packed =>
      match mm_write packed m0 with
      | None => (false, m0)
      | Some m1 =>
          match mm_write header_json m1 with
          | None => (false, m1)
          | Some m2 =>
              match mm_write image_data m2 with
              | None => (false, m2)
              | Some m3 => (true, m3)
              end
          end
      end
  end.

(** [write_image_data]; [timestamp] is the text of
    [datetime.now().isoformat()], and [metadata] a value of the type [json]
    above: no float in it, and no character beyond U+00FF. *)
Definition write_image_data (dirs : gset string) (os_ok : bool)
    (timestamp : string)
    (segment_name : string) (image_data : list Byte.byte)
    (metadata : option Json.json) (b : M4SharedMemoryBridge)
    : bool * M4SharedMemoryBridge :=
  let created :=
    match segments b !! segment_name with
    | Some _ => Some b
    | None => create_shared_segment dirs os_ok segment_name
                (Z.of_nat (length image_data) + 1024) "image" b
    end in
  match created with
  | None => (false, b)
  | Some b1 =>
      match segments b1 !! segment_name with
      | None => (false, b1)
      | Some segment =>
          let header_json :=
            encode (Json.dumps (header_data timestamp image_data metadata)) in
          let '(ok, m) := write_all header_json image_data (memory_map segment) in
          if ok then
            (true,
             {| segments :=
                  <[segment_name :=
                      {| name := name segment; seg_size := seg_size segment;
                         memory_map := m;
                         access_count := access_count segment + 1 |}]>
                    (segments b1);
                operations := operations b1 + 1;
                bytes_transferred :=
                  bytes_transferred b1 + Z.of_nat (length image_data);
                zero_copy_operations := zero_copy_operations b1 + 1 |})
          else
            (false,
             {| segments := <[segment_name := with_map segment m]> (segments b1);
                operations := operations b1;
                bytes_transferred := bytes_transferred b1;
                zero_copy_operations := zero_copy_operations b1 |})
      end
  end.

(** [segment.memory_map.read(header_data["size"])]: [None] when the key is
    missing or its value is no integer ([None] reads to the end, a boolean
    counts as 0 or 1). *)
Definition read_sized (size_field : option Json.json) (m : mmap)
    : option (list Byte.byte * mmap) :=
  match size_field with
  | Some (Json.JInt n) => Some (mm_read n m)
  | Some Json.JNull => Some (mm_read (-1) m)
  | Some (Json.JBool flag) => Some (mm_read (if flag then 1 else 0) m)
  | _ => None
  end.

(** [read_image_data]: the data and the metadata, or [(None, None)], and the
    bridge with the map positioned where the reading stopped.  The header is
    decoded by [Json.loads], which covers the headers [write_image_data]
    writes for the metadata above. *)
Definition read_image_data (segment_name : string) (b : M4SharedMemoryBridge)
    : (option (list Byte.byte) * option Json.json) * M4SharedMemoryBridge :=
  match segments b !! segment_name with
  | None => ((None, None), b)
  | Some segment =>
      let store m count :=
        {| segments :=
             <[segment_name :=
                 {| name := name segment; seg_size := seg_size segment;
                    memory_map := m;
                    access_count := access_count segment + count |}]>
               (segments b);
           operations := operations b + count;
           bytes_transferred := bytes_transferred b;
           zero_copy_operations := zero_copy_operations b |} in
      let '(header_size_data, m1) := mm_read 4 (mm_seek0 (memory_map segment)) in
      match unpack_le32 header_size_data with
      | None => ((None, None), store m1 0)
      | Some header_size =>
          let '(header_json, m2) := mm_read header_size m1 in
          match Json.loads (decode header_json) with
          | Some (Json.JDict fields) =>
              match read_sized (Json.dict_lookup "size" fields) m2 with
              | None => ((None, None), store m2 0)
              | Some (image_data, m3) =>
                  match Json.dict_lookup "checksum" fields with
                  | Some (Json.JStr stored) =>
                      if String.eqb (checksum image_data) stored then
                        let b' :=
                          {| segments := segments (store m3 1);
                             operations := operations b + 1;
                             bytes_transferred :=
                               bytes_transferred b
                               + Z.of_nat (length image_data);
                             zero_copy_operations := zero_copy_operations b |} in
                        match Json.dict_lookup "metadata" fields with
                        | Some metadata => ((Some image_data, Some metadata), b')
                        | None => ((None, None), b')
                        end
                      else ((None, None), store m3 0)
                  | Some _ => ((None, None), store m3 0)
                  | None => ((None, None), store m3 0)
                  end
              end
          | _ => ((None, None), store m2 0)
          end
      end
  end.

(** [cleanup]: every map and descriptor is closed, an error being logged,
    and the table is emptied; the counters stay. *)
Definition cleanup (b : M4SharedMemoryBridge) : M4SharedMemoryBridge := {|
  segments := ∅;
  operations := operations b;
  bytes_transferred := bytes_transferred b;
  zero_copy_operations := zero_copy_operations b
|}.

(** [sum(segment.size for segment in self.segments.values())]. *)
Definition total_allocated (b : M4SharedMemoryBridge) : Z :=
  map_fold (fun _ segment acc => seg_size segment + acc) 0 (segments b).

(** [_calculate_memory_efficiency]. *)
Definition _calculate_memory_efficiency (b : M4SharedMemoryBridge) : Q :=
  if (size (segments b) =? 0)%nat then 0%Q
  else if 0 <? total_allocated b
       then (inject_Z (bytes_transferred b) / inject_Z (total_allocated b) * 100)%Q
       else 0%Q.


(** The bridge together with the [avg_latency_ms] entry of its metrics. *)
Record Timed := {
  bridge : M4SharedMemoryBridge;
  avg_latency_ms : Q
}.



(** The [targets_achieved] part of [get_performance_report]. *)
Record Targets := {
  target_zero_copy_operations : bool;
  target_avg_latency : bool;
  target_memory_efficiency : bool
}.

Definition targets_achieved (t : Timed) : Targets := {|
  target_zero_copy_operations := 0 <? zero_copy_operations (bridge t);
  target_avg_latency := Qltb (avg_latency_ms t) 1;
  target_memory_efficiency := Qgtb (_calculate_memory_efficiency (bridge t)) 80
|}.

End M4Bridge.

(** ** A state and exception monad for the bridge *)

(** The exceptions the bridge raises or meets. *)
Inductive exn :=
| RuntimeError (msg : string)
| TimeoutError (msg : string)
| OSError (msg : string).

(** [str(e)]. *)
Definition exn_str (e : exn) : string :=
  match e with
  | RuntimeError msg | TimeoutError msg | OSError msg => msg
  end.

Inductive outcome (A : Type) :=
| Return (a : A)
| Raise (e : exn).
Arguments Return {A} a.
Arguments Raise {A} e.

(** A component state together with the number of [time.time()] readings
    taken so far. *)
Record Sys (S : Type) := { st : S; reads : nat }.
Arguments st {S} _.
Arguments reads {S} _.

Definition M (S A : Type) : Type := Sys S -> outcome A * Sys S.

Global Instance M_ret {S} : MRet (M S) := fun A a s => (Return a, s).

Global Instance M_bind {S} : MBind (M S) := fun A B k m s =>
  match m s with
  | (Return a, s') => k a s'
  | (Raise e, s') => (Raise e, s')
  end.

Definition raise {S A} (e : exn) : M S A := fun s => (Raise e, s).

Definition get {S} : M S S := fun s => (Return (st s), s).

Definition modify {S} (f : S -> S) : M S unit :=
  fun s => (Return tt, {| st := f (st s); reads := reads s |}).

(** [try: m except Exception as e: h e]. *)
Definition try_except {S A} (m : M S A) (h : exn -> M S A) : M S A := fun s =>
  match m s with
  | (Raise e, s') => h e s'
  | r => r
  end.

(** [try: m finally: f]; an exception of [f] replaces the outcome of [m]. *)
Definition try_finally {S A} (m : M S A) (f : M S unit) : M S A := fun s =>
  let '(r, s1) := m s in
  match f s1 with
  | (Return _, s2) => (r, s2)
  | (Raise e, s2) => (Raise e, s2)
  end.

(** Runs a computation of a component [T] inside the object [S] holding it. *)
Definition zoom {S T A} (proj : S -> T) (upd : T -> S -> S) (m : M T A)
    : M S A := fun s =>
  let '(r, t') := m {| st := proj (st s); reads := reads s |} in
  (r, {| st := upd (st t') (st s); reads := reads t' |}).

(** Runs [f] on every element, left to right. *)
Fixpoint for_each {S A} (f : A -> M S unit) (l : list A) : M S unit :=
  match l with
  | [] => mret tt
  | x :: t => f x ;; for_each f t
  end.

(** ** shared_memory_bridge.py *)

Module Bridge.

(** What the process observes of the outside while a request runs: the
    successive readings of [time.time()], the identifier [uuid.uuid4()]
    yields, whether the operating system creates a shared-memory object (an
    error message when it refuses), whether closing and unlinking an object
    goes through, and whether the event of a request that is not set when
    [Event.wait(timeout=30.0)] is called gets set by someone else before the
    30 seconds are over ([false] is a timeout). *)
Record World := {
  time_at : nat -> Q;
  uuid4 : string;
  shm_create_error : string -> Z -> option string;
  shm_destroy_ok : string -> bool;
  event_wait : string -> bool
}.

(** [SharedMemorySegment] dataclass; its fields [name], [size] and
    [request_id] carry the prefix [seg_]. *)
Record SharedMemorySegment := {
  seg_name : string;
  seg_size : Z;
  seg_request_id : string;
  created_at : Q;
  status : string;
  image_shape : list Z;
  dtype : string
}.

(** A [shared_memory.SharedMemory] object: its name, its size and the bytes
    written at the start of its buffer. *)
Record SharedMemory := {
  shm_name : string;
  shm_size : Z;
  shm_buf : list Byte.byte
}.

(** [ProcessingRequest] dataclass. *)
Record ProcessingRequest := {
  pr_request_id : string;
  pr_segment_name : string;
  pr_image_shape : list Z;
  pr_recognition_level : string;
  pr_languages : list string;
  pr_custom_words : list string;
  pr_minimum_text_height : Q;
  pr_timestamp : Q
}.

(** [ProcessingResult] dataclass. *)
Record ProcessingResult := {
  result_request_id : string;
  text : string;
  confidence : Q;
  processing_time_ms : Q;
  ane_used : bool;
  bounding_boxes : option (list string);
  language : option string;
  error : option string;
  cache_hit : bool
}.

(** [BridgeMetrics] dataclass. *)
Record BridgeMetrics := {
  total_requests : Z;
  successful_requests : Z;
  failed_requests : Z;
  average_latency_ms : Q;
  memory_segments_active : Z;
  memory_usage_mb : Q;
  zero_copy_transfers : Z;
  fallback_http_requests : Z;
  last_request_time : option Q
}.

(** [SynchronizationManager]: the flag of every event, and the locks. *)
Record SynchronizationManager := {
  max_concurrent : Z;
  active_events : gmap string bool;
  event_locks : gmap string unit
}.

(** [ImageSegmentManager]. *)
Record ImageSegmentManager := {
  default_segment_size : Z;
  max_segments : Z;
  active_segments : gmap string SharedMemorySegment;
  shared_memory_objects : gmap string SharedMemory
}.

(** [SharedMemoryBridge]. *)
Record SharedMemoryBridge := {
  segment_manager : ImageSegmentManager;
  sync_manager : SynchronizationManager;
  metrics : BridgeMetrics;
  active_requests : gmap string ProcessingRequest;
  result_cache : gmap string ProcessingResult;
  http_fallback_enabled : bool
}.

Definition set_segments (f : gmap string SharedMemorySegment -> gmap string SharedMemorySegment)
    (m : ImageSegmentManager) : ImageSegmentManager := {|
  default_segment_size := default_segment_size m;
  max_segments := max_segments m;
  active_segments := f (active_segments m);
  shared_memory_objects := shared_memory_objects m
|}.

Definition set_objects (f : gmap string SharedMemory -> gmap string SharedMemory)
    (m : ImageSegmentManager) : ImageSegmentManager := {|
  default_segment_size := default_segment_size m;
  max_segments := max_segments m;
  active_segments := active_segments m;
  shared_memory_objects := f (shared_memory_objects m)
|}.

Definition set_segment_manager (m : ImageSegmentManager) (b : SharedMemoryBridge)
    : SharedMemoryBridge := {|
  segment_manager := m;
  sync_manager := sync_manager b;
  metrics := metrics b;
  active_requests := active_requests b;
  result_cache := result_cache b;
  http_fallback_enabled := http_fallback_enabled b
|}.

Definition set_sync_manager (m : SynchronizationManager) (b : SharedMemoryBridge)
    : SharedMemoryBridge := {|
  segment_manager := segment_manager b;
  sync_manager := m;
  metrics := metrics b;
  active_requests := active_requests b;
  result_cache := result_cache b;
  http_fallback_enabled := http_fallback_enabled b
|}.

Definition set_metrics (f : BridgeMetrics -> BridgeMetrics) (b : SharedMemoryBridge)
    : SharedMemoryBridge := {|
  segment_manager := segment_manager b;
  sync_manager := sync_manager b;
  metrics := f (metrics b);
  active_requests := active_requests b;
  result_cache := result_cache b;
  http_fallback_enabled := http_fallback_enabled b
|}.

Definition set_active_requests
    (f : gmap string ProcessingRequest -> gmap string ProcessingRequest)
    (b : SharedMemoryBridge) : SharedMemoryBridge := {|
  segment_manager := segment_manager b;
  sync_manager := sync_manager b;
  metrics := metrics b;
  active_requests := f (active_requests b);
  result_cache := result_cache b;
  http_fallback_enabled := http_fallback_enabled b
|}.

(** [ImageSegmentManager.__init__]. *)
Definition new_segment_manager (default_segment_size_mb max_segments_ : Z)
    : ImageSegmentManager := {|
  default_segment_size := default_segment_size_mb * 1024 * 1024;
  max_segments := max_segments_;
  active_segments := ∅;
  shared_memory_objects := ∅
|}.

(** [SharedMemoryBridge.__init__] on the configuration keys it reads. *)
Definition new_bridge (segment_size_mb max_segments_ max_concurrent_ : Z)
    (http_fallback_enabled_ : bool) : SharedMemoryBridge := {|
  segment_manager := new_segment_manager segment_size_mb max_segments_;
  sync_manager := {| max_concurrent := max_concurrent_;
                     active_events := ∅; event_locks := ∅ |};
  metrics := {| total_requests := 0; successful_requests := 0;
                failed_requests := 0; average_latency_ms := 0;
                memory_segments_active := 0; memory_usage_mb := 0;
                zero_copy_transfers := 0; fallback_http_requests := 0;
                last_request_time := None |};
  active_requests := ∅;
  result_cache := ∅;
  http_fallback_enabled := http_fallback_enabled_
|}.


Section WithWorld.
Variable w : World.

(** [time.time()]: the next reading of the clock. *)
Definition time_time {S} : M S Q := fun s =>
  (Return (time_at w (reads s)), {| st := st s; reads := Datatypes.S (reads s) |}).

(** *** SynchronizationManager *)

(** [create_request_event]: a fresh event, not set, and a fresh lock. *)
Definition create_request_event (request_id : string) : M SynchronizationManager unit :=
  modify (fun m => {| max_concurrent := max_concurrent m;
                      active_events := <[request_id := false]> (active_events m);
                      event_locks := <[request_id := tt]> (event_locks m) |}).

(** [signal_processing_ready]. *)
Definition signal_processing_ready (request_id : string)
    : M SynchronizationManager unit :=
  modify (fun m =>
    match active_events m !! request_id with
    | Some _ => {| max_concurrent := max_concurrent m;
                   active_events := <[request_id := true]> (active_events m);
                   event_locks := event_locks m |}
    | None => m
    end).

(** [wait_for_completion]: [Event.wait] returns [True] at once on an event
    that is set; on one that is not, it waits for the outside. *)
Definition wait_for_completion (request_id : string)
    : M SynchronizationManager bool :=
  m ← get;
  match active_events m !! request_id with
  | Some flag => mret (flag || event_wait w request_id)
  | None => mret false
  end.

(** [SynchronizationManager.cleanup_request]; the two deletions cannot
    raise. *)
Definition sync_cleanup_request (request_id : string)
    : M SynchronizationManager unit :=
  modify (fun m => {| max_concurrent := max_concurrent m;
                      active_events := delete request_id (active_events m);
                      event_locks := delete request_id (event_locks m) |}).

(** *** ImageSegmentManager *)

(** The value an [np.int64] takes for the integer [z]: its representative
    modulo [2^64] between [-2^63] and [2^63 - 1].  NumPy's integer arithmetic
    overflows this way, without an exception. *)
Definition wrap64 (z : Z) : Z := (z + 2 ^ 63) mod 2 ^ 64 - 2 ^ 63.

(** [np.prod(image_shape)] on a tuple that is not empty and whose entries fit
    64 bits: NumPy holds such a tuple as [int64] and multiplies in [int64].
    (The product of the empty tuple is the float [1.0], and an entry beyond
    64 bits changes the element type; the model does not cover them.) *)
Definition shape_prod (image_shape : list Z) : Z :=
  foldl (fun acc d => wrap64 (acc * d)) 1 image_shape.

(** [calculate_segment_size]: the product being an [np.int64], so is every
    value computed from it. *)
Definition calculate_segment_size (image_shape_ : list Z) (dtype_ : string) : Z :=
  let bytes_per_pixel :=
    if String.eqb dtype_ "uint8" then 1
    else if String.eqb dtype_ "float32" then 4
    else 1 in
  let image_size := wrap64 (shape_prod image_shape_ * bytes_per_pixel) in
  let metadata_size := 4096 in
  let padding := 1024 in
  let total_size := wrap64 (wrap64 (image_size + metadata_size) + padding) in
  wrap64 (wrap64 (wrap64 (total_size + 1024 * 1024) - 1) / (1024 * 1024)
          * (1024 * 1024)).

(** [shm.close(); shm.unlink()]. *)
Definition close_and_unlink (shm : SharedMemory) : M ImageSegmentManager unit :=
  if shm_destroy_ok w (shm_name shm) then mret tt
  else raise (OSError ("cannot unlink " +:+ shm_name shm)).

(** [deallocate_segment]: an exception while the object is closed and
    unlinked is logged, and leaves both dictionaries as they are. *)
Definition deallocate_segment (request_id : string) : M ImageSegmentManager unit :=
  try_except
    (m ← get;
     match shared_memory_objects m !! request_id with
     | Some shm =>
         close_and_unlink shm ;;
         modify (set_objects (delete request_id))
     | None => mret tt
     end ;;
     modify (set_segments (delete request_id)))
    (fun _ => mret tt).

(** [_cleanup_expired_segments]. *)
Definition _cleanup_expired_segments : M ImageSegmentManager unit :=
  current_time ← time_time;
  m ← get;
  let expired_requests :=
    (map_to_list
       (filter (fun kv => Qgtb (current_time - created_at kv.2) 300 = true)
               (active_segments m))).*1 in
  for_each deallocate_segment expired_requests.

(** [SharedMemory(create=True, size=..., name=...)]. *)
Definition shm_create (segment_name : string) (segment_size : Z)
    : M ImageSegmentManager SharedMemory :=
  match shm_create_error w segment_name segment_size with
  | Some msg => raise (OSError msg)
  | None => mret {| shm_name := segment_name; shm_size := segment_size;
                    shm_buf := [] |}
  end.

Definition at_capacity (m : ImageSegmentManager) : bool :=
  max_segments m <=? Z.of_nat (size (active_segments m)).

(** [allocate_segment]. *)
Definition allocate_segment (request_id : string) (image_shape_ : list Z)
    (dtype_ : string) : M ImageSegmentManager (string * SharedMemory) :=
  m ← get;
  (if at_capacity m then
     _cleanup_expired_segments ;;
     m' ← get;
     if at_capacity m'
     then raise (RuntimeError "Maximum shared memory segments exceeded")
     else mret tt
   else mret tt) ;;
  let segment_size := calculate_segment_size image_shape_ dtype_ in
  t ← time_time;
  let segment_name :=
    "ane_bridge_" +:+ request_id +:+ "_" +:+ pretty (Qfloor t) in
  try_except
    (shm ← shm_create segment_name segment_size;
     created ← time_time;
     let segment := {| seg_name := segment_name;
                       seg_size := segment_size;
                       seg_request_id := request_id;
                       created_at := created;
                       status := "allocated";
                       image_shape := image_shape_;
                       dtype := dtype_ |} in
     modify (set_segments (insert request_id segment)) ;;
     modify (set_objects (insert request_id shm)) ;;
     mret (segment_name, shm))
    (fun e => raise (RuntimeError
                       ("Shared memory allocation failed: " +:+ exn_str e))).

(** *** SharedMemoryBridge *)

Definition in_segment_manager {A} (m : M ImageSegmentManager A)
    : M SharedMemoryBridge A :=
  zoom segment_manager set_segment_manager m.

Definition in_sync_manager {A} (m : M SynchronizationManager A)
    : M SharedMemoryBridge A :=
  zoom sync_manager set_sync_manager m.

(** [_estimate_image_shape]. *)
Definition _estimate_image_shape (image_data : list Byte.byte) : list Z :=
  let data_size := Z.of_nat (length image_data) in
  if 5 * 1024 * 1024 <? data_size then [2160; 3840; 3]
  else if 2 * 1024 * 1024 <? data_size then [1080; 1920; 3]
  else if 500 * 1024 <? data_size then [720; 1280; 3]
  else [480; 640; 3].

(** [_update_metrics]. *)
Definition _update_metrics (processing_time_ms_ : Q) (success : bool)
    : M SharedMemoryBridge unit :=
  t ← time_time;
  modify (set_metrics (fun m => {|
    total_requests := total_requests m;
    successful_requests := successful_requests m;
    failed_requests := failed_requests m;
    average_latency_ms :=
      if total_requests m =? 1 then processing_time_ms_
      else ((1 # 10) * processing_time_ms_
            + (1 - (1 # 10)) * average_latency_ms m)%Q;
    memory_segments_active := memory_segments_active m;
    memory_usage_mb := memory_usage_mb m;
    zero_copy_transfers := zero_copy_transfers m;
    fallback_http_requests := fallback_http_requests m;
    last_request_time := Some t |})).

(** The counter updates written inline in [process_image_zero_copy] and
    [_fallback_to_http]. *)
Definition count_total (m : BridgeMetrics) : BridgeMetrics := {|
  total_requests := total_requests m + 1;
  successful_requests := successful_requests m;
  failed_requests := failed_requests m;
  average_latency_ms := average_latency_ms m;
  memory_segments_active := memory_segments_active m;
  memory_usage_mb := memory_usage_mb m;
  zero_copy_transfers := zero_copy_transfers m;
  fallback_http_requests := fallback_http_requests m;
  last_request_time := last_request_time m |}.

Definition count_success (m : BridgeMetrics) : BridgeMetrics := {|
  total_requests := total_requests m;
  successful_requests := successful_requests m + 1;
  failed_requests := failed_requests m;
  average_latency_ms := average_latency_ms m;
  memory_segments_active := memory_segments_active m;
  memory_usage_mb := memory_usage_mb m;
  zero_copy_transfers := zero_copy_transfers m + 1;
  fallback_http_requests := fallback_http_requests m;
  last_request_time := last_request_time m |}.

Definition count_failure (m : BridgeMetrics) : BridgeMetrics := {|
  total_requests := total_requests m;
  successful_requests := successful_requests m;
  failed_requests := failed_requests m + 1;
  average_latency_ms := average_latency_ms m;
  memory_segments_active := memory_segments_active m;
  memory_usage_mb := memory_usage_mb m;
  zero_copy_transfers := zero_copy_transfers m;
  fallback_http_requests := fallback_http_requests m;
  last_request_time := last_request_time m |}.

Definition count_fallback (m : BridgeMetrics) : BridgeMetrics := {|
  total_requests := total_requests m;
  successful_requests := successful_requests m;
  failed_requests := failed_requests m;
  average_latency_ms := average_latency_ms m;
  memory_segments_active := memory_segments_active m;
  memory_usage_mb := memory_usage_mb m;
  zero_copy_transfers := zero_copy_transfers m;
  fallback_http_requests := fallback_http_requests m + 1;
  last_request_time := last_request_time m |}.

(** [_fallback_to_http]. *)
Definition _fallback_to_http (request_id : string)
    : M SharedMemoryBridge ProcessingResult :=
  modify (set_metrics count_fallback) ;;
  mret {| result_request_id := request_id;
          text := "HTTP fallback OCR processing";
          confidence := 80 # 100;
          processing_time_ms := 15;
          ane_used := true;
          bounding_boxes := None;
          language := None;
          error := None;
          cache_hit := false |}.

(** [_read_processing_result]. *)
Definition _read_processing_result (request_id : string) (shm : SharedMemory)
    : M SharedMemoryBridge ProcessingResult :=
  mret {| result_request_id := request_id;
          text := "Shared memory OCR processing completed successfully";
          confidence := 95 # 100;
          processing_time_ms := 0;
          ane_used := true;
          bounding_boxes := None;
          language := None;
          error := None;
          cache_hit := false |}.

Definition with_processing_time (r : ProcessingResult) (t : Q) : ProcessingResult := {|
  result_request_id := result_request_id r;
  text := text r;
  confidence := confidence r;
  processing_time_ms := t;
  ane_used := ane_used r;
  bounding_boxes := bounding_boxes r;
  language := language r;
  error := error r;
  cache_hit := cache_hit r |}.

(** [_cleanup_request]; none of its three steps lets an exception out. *)
Definition _cleanup_request (request_id : string) : M SharedMemoryBridge unit :=
  try_except
    (modify (set_active_requests (delete request_id)) ;;
     in_sync_manager (sync_cleanup_request request_id) ;;
     in_segment_manager (deallocate_segment request_id))
    (fun _ => mret tt).

(** [shm.buf[:raw_size] = image_data[:raw_size]] on the object held for the
    request. *)
Definition write_payload (request_id : string) (shm : SharedMemory)
    (image_data : list Byte.byte) : M SharedMemoryBridge unit :=
  let raw_size := Z.min (Z.of_nat (length image_data)) (shm_size shm - 4096) in
  in_segment_manager
    (modify (set_objects (insert request_id
       {| shm_name := shm_name shm; shm_size := shm_size shm;
          shm_buf := take (Z.to_nat raw_size) image_data |}))).

(** [x or default] on an optional list. *)
Definition or_default {A} (x : option (list A)) (d : list A) : list A :=
  match x with
  | Some (y :: t) => y :: t
  | _ => d
  end.

(** [process_image_zero_copy]. *)
Definition process_image_zero_copy (image_data : list Byte.byte)
    (recognition_level : string) (languages custom_words : option (list string))
    (minimum_text_height : Q) (request_id : option string)
    : M SharedMemoryBridge ProcessingResult :=
  let request_id :=
    match request_id with
    | Some (String c r) => String c r
    | _ => uuid4 w
    end in
  start_time ← time_time;
  modify (set_metrics count_total) ;;
  try_finally
    (try_except
       (let image_shape_ := _estimate_image_shape image_data in
        '(segment_name, shm) ← in_segment_manager
            (allocate_segment request_id image_shape_ "uint8");
        write_payload request_id shm image_data ;;
        t ← time_time;
        let processing_request :=
          {| pr_request_id := request_id;
             pr_segment_name := segment_name;
             pr_image_shape := image_shape_;
             pr_recognition_level := recognition_level;
             pr_languages := or_default languages ["en-US"];
             pr_custom_words := or_default custom_words [];
             pr_minimum_text_height := minimum_text_height;
             pr_timestamp := t |} in
        modify (set_active_requests (insert request_id processing_request)) ;;
        in_sync_manager (create_request_event request_id) ;;
        in_sync_manager (signal_processing_ready request_id) ;;
        completed ← in_sync_manager (wait_for_completion request_id);
        if negb completed then
          b ← get;
          if http_fallback_enabled b then _fallback_to_http request_id
          else raise (TimeoutError ("Processing timeout for request "
                                    +:+ request_id))
        else
          result ← _read_processing_result request_id shm;
          t_end ← time_time;
          let processing_time_ms_ := ((t_end - start_time) * 1000)%Q in
          modify (set_metrics count_success) ;;
          _update_metrics processing_time_ms_ true ;;
          mret (with_processing_time result processing_time_ms_))
       (fun e =>
          t_end ← time_time;
          let processing_time_ms_ := ((t_end - start_time) * 1000)%Q in
          modify (set_metrics count_failure) ;;
          _update_metrics processing_time_ms_ false ;;
          b ← get;
          if http_fallback_enabled b then _fallback_to_http request_id
          else mret {| result_request_id := request_id;
                       text := "";
                       confidence := 0;
                       processing_time_ms := processing_time_ms_;
                       ane_used := false;
                       bounding_boxes := None;
                       language := None;
                       error := Some (exn_str e);
                       cache_hit := false |}))
    (_cleanup_request request_id).

(** [get_segment]. *)
Definition get_segment (request_id : string)
    : M ImageSegmentManager (option (SharedMemorySegment * SharedMemory)) :=
  m ← get;
  match active_segments m !! request_id, shared_memory_objects m !! request_id with
  | Some segment, Some shm => mret (Some (segment, shm))
  | _, _ => mret None
  end.



End WithWorld.

End Bridge.

(** ** cache_predictor.py *)

Module CachePredictor.

(** [CachePrediction] dataclass. *)
Record CachePrediction := {
  cache_key : string;
  probability : Q;
  confidence : Q;
  predicted_access_time : Q;
  reasoning : string;
  data_characteristics : gmap string string
}.

(** The [current_pattern] dictionary handed to the three models. *)
Record Pattern := {
  request_size : Z;
  request_type : string;
  pattern_languages : list string;
  pattern_recognition_level : string;
  pattern_timestamp : Q
}.

(** The parts of [CachePredictionModel] that prediction reads.  The three
    models are components of the object; the classes shipped in the source
    all answer with the empty list ([stub_model]). *)
Record CachePredictionModel := {
  is_initialized : bool;
  prediction_threshold : Q;
  frequency_model : Pattern -> list CachePrediction;
  temporal_model : Pattern -> list CachePrediction;
  sequence_model : Pattern -> list CachePrediction
}.

Definition stub_model : Pattern -> list CachePrediction := fun _ => [].

(** [grouped_predictions[prediction.cache_key].append(prediction)] on the
    insertion-ordered [defaultdict(list)]. *)
Fixpoint group_append (p : CachePrediction)
    (groups : list (string * list CachePrediction))
    : list (string * list CachePrediction) :=
  match groups with
  | [] => [(cache_key p, [p])]
  | (k, members) :: rest =>
      if String.eqb k (cache_key p) then (k, members ++ [p]) :: rest
      else (k, members) :: group_append p rest
  end.

Definition group_predictions (predictions : list CachePrediction)
    : list (string * list CachePrediction) :=
  foldl (fun groups p => group_append p groups) [] predictions.

(** [min(xs)] over a sequence of floats known to start with [x]. *)
Definition Qmin_list (x : Q) (xs : list Q) : Q := foldl Qmin x xs.

(** The body of the loop over [grouped_predictions.items()]: the entry for
    one key, or [None] for the [ZeroDivisionError] of a zero divisor. *)
Definition combine_group (cache_key_ : string)
    (key_predictions : list CachePrediction) : option CachePrediction :=
  match key_predictions with
  | [p] => Some p
  | [] => None
  | first :: others =>
      let n := inject_Z (Z.of_nat (length key_predictions)) in
      let combined_confidence :=
        (Qsum (map confidence key_predictions) / n)%Q in
      let total_confidence := Qsum (map confidence key_predictions) in
      if Qeq_bool total_confidence 0 then None
      else
        let weighted_prob :=
          (Qsum (map (fun p => probability p * confidence p) key_predictions)
           / total_confidence)%Q in
        Some {| cache_key := cache_key_;
                probability := weighted_prob;
                confidence := combined_confidence;
                predicted_access_time :=
                  Qmin_list (predicted_access_time first)
                            (map predicted_access_time others);
                reasoning := "Ensemble of "
                             +:+ pretty (Z.of_nat (length key_predictions))
                             +:+ " models";
                data_characteristics := data_characteristics first |}
  end.

(** [_combine_predictions]: on an exception the predictions are returned as
    they came. *)
Definition _combine_predictions (predictions : list CachePrediction)
    : list CachePrediction :=
  match mapM (fun g => combine_group (fst g) (snd g))
             (group_predictions predictions) with
  | Some combined_predictions => combined_predictions
  | None => predictions
  end.

(** [predict_cache_access], given the pattern [_analyze_current_pattern]
    produced for the request. *)
Definition predict_cache_access (m : CachePredictionModel)
    (current_pattern : Pattern) : list CachePrediction :=
  if negb (is_initialized m) then []
  else
    let predictions :=
      frequency_model m current_pattern
      ++ temporal_model m current_pattern
      ++ sequence_model m current_pattern in
    let combined_predictions := _combine_predictions predictions in
    let filtered_predictions :=
      List.filter (fun p => Qgeb (probability p) (prediction_threshold m))
                  combined_predictions in
    take 10 (sort_by_desc probability filtered_predictions).

End CachePredictor.

(** ** ane_resource_monitor.py: readings, history and allocation *)

Module UtilizationMonitor.
Import ResourceMonitor.

(** [ANEUtilization] dataclass. *)
Record ANEUtilization := {
  timestamp : Q;
  ane_usage : Q;
  ane_temperature : option Q;
  throughput : Q;
  active_requests : Q;
  queue_depth : Q;
  efficiency_score : Q
}.

(** What [psutil] reports during one [_collect_system_metrics]: the CPU and
    memory percentages, the available memory and the resident size in
    bytes, the CPU share of the process and the first load average. *)
Record Probe := {
  cpu_percent : Q;
  memory_percent : Q;
  memory_available : Q;
  process_rss : Q;
  process_cpu : Q;
  load_average : Q
}.

(** [_collect_system_metrics]; [None] is a probe that raises, answered with
    the empty dictionary. *)
Definition _collect_system_metrics (probe : option Probe) : gmap string Q :=
  match probe with
  | Some p =>
      <["cpu_usage" := cpu_percent p]>
      (<["memory_usage" := memory_percent p]>
      (<["available_memory_mb" := (memory_available p / (1024 * 1024))%Q]>
      (<["process_memory_mb" := (process_rss p / (1024 * 1024))%Q]>
      (<["process_cpu" := process_cpu p]>
      (<["load_average" := load_average p]> ∅)))))
  | None => ∅
  end.

(** [_get_coreml_direct_metrics]. *)
Definition _get_coreml_direct_metrics : gmap string Q :=
  <["coreml_direct_requests" := 0%Q]>
  (<["coreml_avg_latency_ms" := 0%Q]>
  (<["coreml_cache_hit_rate" := 0%Q]>
  (<["coreml_memory_usage_mb" := 0%Q]>
  (<["ane_direct_utilization" := 0%Q]> ∅)))).

(** [{**a, **b}]: the entries of [b] override those of [a]. *)
Definition dict_merge (a b : gmap string Q) : gmap string Q := b ∪ a.

(** [get_current_utilization]: the system metrics are collected twice, for
    the dictionary itself and inside [_calculate_ane_utilization]; the
    reading is stored in [utilization_history], a deque of [history_size]
    entries. *)
Definition get_current_utilization (first second : option Probe) (now : Q)
    (history_size : nat) (utilization_history : list ANEUtilization)
    : gmap string Q * list ANEUtilization :=
  let system_metrics := _collect_system_metrics first in
  let ane_utilization :=
    _calculate_ane_utilization
      (dict_get (_collect_system_metrics second) "process_cpu" 0) in
  let coreml_metrics := _get_coreml_direct_metrics in
  let utilization_data :=
    <["timestamp" := now]>
      (dict_merge (dict_merge system_metrics ane_utilization) coreml_metrics) in
  (utilization_data,
   deque_append history_size
     {| timestamp := now;
        ane_usage := dict_get utilization_data "ane_usage" 0;
        ane_temperature := utilization_data !! "ane_temperature";
        throughput := dict_get utilization_data "throughput" 0;
        active_requests := dict_get utilization_data "active_requests" 0;
        queue_depth := dict_get utilization_data "queue_depth" 0;
        efficiency_score := dict_get utilization_data "efficiency_score" 0 |}
     utilization_history).

(** [l[-n:]] for a positive [n]. *)
Definition last_n {A} (n : nat) (l : list A) : list A :=
  drop (length l - n) l.

(** [sum(xs) / len(xs)]. *)
Definition mean (xs : list Q) : Q :=
  (Qsum xs / inject_Z (Z.of_nat (length xs)))%Q.

(** The dictionary returned by [_analyze_load_patterns]; [details] holds
    the two trends and the average, absent from the answer given without
    history. *)
Record LoadAnalysis := {
  pattern : string;
  trend : string;
  details : option (Q * Q * Q)
}.

(** [_analyze_load_patterns]; its argument [current_load] is not read. *)
Definition _analyze_load_patterns (utilization_history : list ANEUtilization)
    : LoadAnalysis :=
  match utilization_history with
  | [] => {| pattern := "unknown"; trend := "stable"; details := None |}
  | _ =>
      let recent_data := last_n 10 utilization_history in
      let '(utilization_trend, throughput_trend) :=
        match recent_data, last recent_data with
        | oldest :: _ :: _, Some newest =>
            ((ane_usage newest - ane_usage oldest)%Q,
             (throughput newest - throughput oldest)%Q)
        | _, _ => (0%Q, 0%Q)
        end in
      let avg_utilization := mean (map ane_usage recent_data) in
      {| pattern :=
           if Qltb avg_utilization 30 then "low_utilization"
           else if Qgtb avg_utilization 80 then "high_utilization"
           else "normal_utilization";
         trend :=
           if Qltb (Qabs utilization_trend) 5 then "stable"
           else if Qgtb utilization_trend 5 then "increasing"
           else "decreasing";
         details := Some (utilization_trend, throughput_trend, avg_utilization) |}
  end.

(** [_calculate_optimal_allocation]. *)
Definition _calculate_optimal_allocation (current : ResourceAllocation)
    (load_analysis : LoadAnalysis) : ResourceAllocation :=
  if String.eqb (pattern load_analysis) "low_utilization"
     && negb (String.eqb (trend load_analysis) "increasing") then
    {| max_concurrent_requests := Z.min 15 (max_concurrent_requests current + 1);
       batch_size_recommendation :=
         Z.min 15 (batch_size_recommendation current + 1);
       priority_queue_size := priority_queue_size current;
       memory_limit_mb := memory_limit_mb current;
       throttle_threshold := throttle_threshold current |}
  else if String.eqb (pattern load_analysis) "high_utilization"
          && negb (String.eqb (trend load_analysis) "decreasing") then
    {| max_concurrent_requests := Z.max 4 (max_concurrent_requests current - 1);
       batch_size_recommendation :=
         Z.max 2 (batch_size_recommendation current - 1);
       priority_queue_size := priority_queue_size current;
       memory_limit_mb := memory_limit_mb current;
       throttle_threshold :=
         Qmax (7 # 10) (throttle_threshold current - (5 # 100)) |}
  else current.

(** [optimize_allocation]: the new [current_allocation]. *)
Definition optimize_allocation (utilization_history : list ANEUtilization)
    (current : ResourceAllocation) : ResourceAllocation :=
  _calculate_optimal_allocation current
    (_analyze_load_patterns utilization_history).

(** One turn of [_resource_optimization_loop] with optimization enabled: a
    reading, then the allocation computed from the history. *)
Definition optimization_cycle (history_size : nat)
    (state : list ANEUtilization * ResourceAllocation)
    (host : option Probe * option Probe * Q)
    : list ANEUtilization * ResourceAllocation :=
  let '(first, second, now) := host in
  let utilization_history :=
    snd (get_current_utilization first second now history_size (fst state)) in
  (utilization_history, optimize_allocation utilization_history (snd state)).

(** One entry of the list of recommendations. *)
Record Recommendation := {
  rec_type : string;
  current : Z;
  recommended : Z;
  reason : string
}.

(** The dictionary returned by [get_performance_recommendations];
    [averages] holds [avg_utilization] and [avg_efficiency], absent from the
    answer given without history. *)
Record Recommendations := {
  recommendations : list Recommendation;
  confidence : Q;
  averages : option (Q * Q)
}.

(** [get_performance_recommendations]. *)
Definition get_performance_recommendations
    (utilization_history : list ANEUtilization) (allocation : ResourceAllocation)
    : Recommendations :=
  match utilization_history with
  | [] => {| recommendations := []; confidence := 0; averages := None |}
  | _ =>
      let recent_utilizations := last_n 20 utilization_history in
      let avg_utilization := mean (map ane_usage recent_utilizations) in
      let avg_efficiency := mean (map efficiency_score recent_utilizations) in
      let batch :=
        if Qltb avg_utilization (3 # 10) then
          [{| rec_type := "increase_batch_size";
              current := batch_size_recommendation allocation;
              recommended := Z.min 20 (batch_size_recommendation allocation + 2);
              reason := "Low ANE utilization - can handle larger batches" |}]
        else if Qgtb avg_utilization (8 # 10) then
          [{| rec_type := "decrease_batch_size";
              current := batch_size_recommendation allocation;
              recommended := Z.max 1 (batch_size_recommendation allocation - 1);
              reason := "High ANE utilization - reduce batch sizes for stability" |}]
        else [] in
      let concurrent :=
        if Qltb avg_efficiency (6 # 10) then
          [{| rec_type := "optimize_concurrent_requests";
              current := max_concurrent_requests allocation;
              recommended := Z.max 4 (max_concurrent_requests allocation - 2);
              reason := "Low efficiency - reduce concurrent requests" |}]
        else [] in
      {| recommendations := batch ++ concurrent;
         confidence :=
           Qmin 1 (inject_Z (Z.of_nat (length recent_utilizations)) / 20);
         averages := Some (avg_utilization, avg_efficiency) |}
  end.

End UtilizationMonitor.

(** ** cache_predictor.py: metrics, learning, threshold tuning, eviction *)

Module CacheLearning.

(** [CacheMetrics] dataclass. *)
Record CacheMetrics := {
  hit_rate : Q;
  miss_rate : Q;
  eviction_rate : Q;
  preload_accuracy : Q;
  total_requests : Z;
  cache_size_mb : Q;
  avg_access_time_ms : Q
}.

(** A cache operation dictionary, on the keys the model reads (each may be
    absent). *)
Record CacheOperation := {
  op_type : option string;
  access_time_ms : option Q;
  op_cache_key : option string
}.

(** One entry of [prediction_history]: the time, the operation, and of the
    context its time and its copy of the metrics. *)
Record HistoryEntry := {
  entry_timestamp : Q;
  operation : CacheOperation;
  context_timestamp : Q;
  context_metrics : CacheMetrics
}.

(** The state of [CachePredictionModel] that the metrics, the learning and
    the tuning work on; [frequency_data] belongs to its [FrequencyModel]. *)
Record CachePredictionModel := {
  cache_metrics : CacheMetrics;
  learning_enabled : bool;
  prediction_history : list HistoryEntry;
  frequency_data : gmap string Z;
  prediction_threshold : Q
}.

(** [CachePredictionModel.__init__]. *)
Definition init (prediction_threshold_ : Q) : CachePredictionModel := {|
  cache_metrics := {| hit_rate := 0; miss_rate := 0; eviction_rate := 0;
                      preload_accuracy := 0; total_requests := 0;
                      cache_size_mb := 0; avg_access_time_ms := 0 |};
  learning_enabled := true;
  prediction_history := [];
  frequency_data := ∅;
  prediction_threshold := prediction_threshold_
|}.

(** [_update_rate_metric]. *)
Definition _update_rate_metric (current_rate : Q) (event_occurred : bool)
    (total_requests_ : Z) : Q :=
  let event_value := if event_occurred then 1%Q else 0%Q in
  let alpha := Qmin (1 # 10) (10 / inject_Z (Z.max total_requests_ 10)) in
  (alpha * event_value + (1 - alpha) * current_rate)%Q.

(** [_update_avg_metric]. *)
Definition _update_avg_metric (current_avg new_value : Q) : Q :=
  ((1 # 10) * new_value + (1 - (1 # 10)) * current_avg)%Q.

(** [defaultdict(int)[key]]. *)
Definition frequency (data : gmap string Z) (key : string) : Z :=
  default 0 (data !! key).

(** [FrequencyModel.reinforce] and [FrequencyModel.adjust]. *)
Definition reinforce (key : string) (data : gmap string Z) : gmap string Z :=
  <[key := frequency data key + 1]> data.

Definition adjust (key : string) (data : gmap string Z) : gmap string Z :=
  <[key := Z.max 0 (frequency data key - 1)]> data.

(** The key of an operation when it is present and not empty. *)
Definition truthy_key (op : CacheOperation) : option string :=
  match op_cache_key op with
  | Some (String c s) => Some (String c s)
  | _ => None
  end.

(** [cache_operation.get("type") == t]. *)
Definition op_is (op : CacheOperation) (t : string) : bool :=
  match op_type op with
  | Some s => String.eqb s t
  | None => false
  end.

(** [_learn_from_operation]: the entry appended to the history, a deque of
    1000, then the feedback to the frequency model. *)
Definition _learn_from_operation (op : CacheOperation) (now context_now : Q)
    (m : CachePredictionModel) : CachePredictionModel := {|
  cache_metrics := cache_metrics m;
  learning_enabled := learning_enabled m;
  prediction_history :=
    deque_append 1000
      {| entry_timestamp := now; operation := op;
         context_timestamp := context_now;
         context_metrics := cache_metrics m |}
      (prediction_history m);
  frequency_data :=
    match truthy_key op with
    | Some key =>
        if op_is op "hit" then reinforce key (frequency_data m)
        else if op_is op "miss" then adjust key (frequency_data m)
        else frequency_data m
    | None => frequency_data m
    end;
  prediction_threshold := prediction_threshold m
|}.

(** The metrics after [update_metrics] counted the operation. *)
Definition count_operation (op : CacheOperation) (c : CacheMetrics)
    : CacheMetrics :=
  let total := total_requests c + 1 in
  let of_type := op_is op in
  {| hit_rate := if of_type "hit" then _update_rate_metric (hit_rate c) true total
                 else hit_rate c;
     miss_rate := if of_type "miss"
                  then _update_rate_metric (miss_rate c) true total
                  else miss_rate c;
     eviction_rate := if of_type "eviction"
                      then _update_rate_metric (eviction_rate c) true total
                      else eviction_rate c;
     preload_accuracy := preload_accuracy c;
     total_requests := total;
     cache_size_mb := cache_size_mb c;
     avg_access_time_ms :=
       let t := default 0%Q (access_time_ms op) in
       if Qgtb t 0 then _update_avg_metric (avg_access_time_ms c) t
       else avg_access_time_ms c |}.

(** [update_metrics]; [now] and [context_now] are the two readings of the
    clock taken while learning. *)
Definition update_metrics (op : CacheOperation) (now context_now : Q)
    (m : CachePredictionModel) : CachePredictionModel :=
  let counted := {|
    cache_metrics := count_operation op (cache_metrics m);
    learning_enabled := learning_enabled m;
    prediction_history := prediction_history m;
    frequency_data := frequency_data m;
    prediction_threshold := prediction_threshold m |} in
  if learning_enabled m then _learn_from_operation op now context_now counted
  else counted.

(** [_calculate_accuracy_at_threshold]. *)
Definition _calculate_accuracy_at_threshold (threshold : Q)
    (history : list HistoryEntry) : Q :=
  match history with
  | [] => 0%Q
  | _ =>
      let step (acc : Z * Z) (entry : HistoryEntry) : Z * Z :=
        let '(correct_predictions, total_predictions) := acc in
        if op_is (operation entry) "hit" then
          (if Qle_bool threshold (8 # 10) then correct_predictions + 1
           else correct_predictions, total_predictions + 1)
        else if op_is (operation entry) "miss" then
          (if Qgtb threshold (8 # 10) then correct_predictions + 1
           else correct_predictions, total_predictions + 1)
        else acc in
      let '(correct_predictions, total_predictions) := foldl step (0, 0) history in
      (inject_Z correct_predictions / inject_Z (Z.max total_predictions 1))%Q
  end.

(** [min(xs, key=key)] on a sequence starting with [x]: the first of the
    elements with the least key. *)
Fixpoint min_by {A} (key : A -> Q) (x : A) (xs : list A) : A :=
  match xs with
  | [] => x
  | y :: rest => min_by key (if Qltb (key y) (key x) then y else x) rest
  end.

Definition test_thresholds : list Q :=
  [5 # 10; 6 # 10; 7 # 10; 8 # 10; 9 # 10; 95 # 100].

(** [tune_prediction_threshold]. *)
Definition tune_prediction_threshold (target_accuracy : Q)
    (m : CachePredictionModel) : CachePredictionModel :=
  if (length (prediction_history m) <? 50)%nat then m
  else
    let performance t := _calculate_accuracy_at_threshold t (prediction_history m) in
    let distance t := Qabs (performance t - target_accuracy) in
    let best_threshold := min_by distance (5 # 10) (tail test_thresholds) in
    if Qltb (distance best_threshold) (1 # 10) then
      {| cache_metrics := cache_metrics m;
         learning_enabled := learning_enabled m;
         prediction_history := prediction_history m;
         frequency_data := frequency_data m;
         prediction_threshold := best_threshold |}
    else m.

(** A cache entry dictionary, on the keys the eviction reads. *)
Record CacheEntry := {
  timestamp : option Q;
  access_count : option Q
}.

(** [EvictionOptimizer.get_eviction_candidates]: the score of an entry,
    its accesses per hour of age, the age counting for at least a tenth of
    an hour. *)
Definition eviction_score (current_time : Q) (entry : CacheEntry) : Q :=
  let age := (current_time - default current_time (timestamp entry))%Q in
  (default 0%Q (access_count entry) / Qmax (age / 3600) (1 # 10))%Q.

(** [optimize_eviction] on the cache contents in insertion order;
    [current_time] is the reading the eviction optimizer takes. *)
Definition optimize_eviction (current_time : Q)
    (cache_contents : list (string * CacheEntry)) : list string :=
  map fst
    (stable_sort
       (fun a b => Qle_bool (eviction_score current_time (snd a))
                            (eviction_score current_time (snd b)))
       cache_contents).

End CacheLearning.

(** ** vision_processor.py: the resource monitor loop *)

Module VisionProcessor.

(** What [_resource_monitor_loop] works on: the history of the resource
    monitor, the processor's own history of readings (a deque of 100), the
    two metrics it sets, and the batch optimizer with its switch. *)
Record Monitoring := {
  utilization_history : list UtilizationMonitor.ANEUtilization;
  resource_utilization_history : list (gmap string Q);
  ane_utilization_percent : Q;
  resource_efficiency : Q;
  adaptive_sizing_enabled : bool;
  batch_optimizer : option BatchOptimizer.DynamicBatchOptimizer
}.

(** [_calculate_resource_efficiency]. *)
Definition _calculate_resource_efficiency (history : list (gmap string Q)) : Q :=
  match history with
  | [] => 0%Q
  | _ =>
      let recent_utilizations := UtilizationMonitor.last_n 10 history in
      let avg_ane_usage :=
        UtilizationMonitor.mean
          (map (fun u => dict_get u "ane_usage" 0) recent_utilizations) in
      let avg_throughput :=
        UtilizationMonitor.mean
          (map (fun u => dict_get u "throughput" 0) recent_utilizations) in
      if Qgtb avg_ane_usage 0
      then Qmin (avg_throughput / avg_ane_usage * 100) 100
      else 0%Q
  end.

(** One turn of [_resource_monitor_loop]: a reading of the monitor, the two
    metrics, then the adjustment of the batch sizes when adaptive sizing is
    on and there is an optimizer.  [now] and [adjust_now] are the readings
    of the clock taken by the monitor and by the optimizer. *)
Definition resource_monitor_turn (history_size : nat)
    (first second : option UtilizationMonitor.Probe) (now adjust_now : Q)
    (v : Monitoring) : Monitoring :=
  let '(utilization, monitor_history) :=
    UtilizationMonitor.get_current_utilization first second now history_size
      (utilization_history v) in
  let readings := deque_append 100 utilization (resource_utilization_history v) in
  {| utilization_history := monitor_history;
     resource_utilization_history := readings;
     ane_utilization_percent := dict_get utilization "ane_usage" 0;
     resource_efficiency := _calculate_resource_efficiency readings;
     adaptive_sizing_enabled := adaptive_sizing_enabled v;
     batch_optimizer :=
       match batch_optimizer v with
       | Some o =>
           if adaptive_sizing_enabled v
           then Some (BatchOptimizer.adjust_for_utilization o utilization
                        adjust_now)
           else Some o
       | None => None
       end |}.

End VisionProcessor.

(* ===================================================================== *)
(** * Properties *)
(* ===================================================================== *)

(** ** Throttling decision *)

Module ResourceMonitorSpec.
Import ResourceMonitor.

(** A reading that carries the three inputs of the decision. *)
Definition reading (usage temperature depth : Q) : gmap string Q :=
  <["ane_usage" := usage]>
  (<["ane_temperature" := temperature]>
  (<["queue_depth" := depth]> ∅)).

Lemma existsb_id_three (a b c : bool) :
  existsb (fun x => x) [a; b; c] = true <-> a = true \/ b = true \/ c = true.
Proof. destruct a, b, c; simpl; intuition congruence. Qed.

(** C9. With adaptive throttling on, [should_throttle] answers true exactly
    when the usage exceeds the configured threshold, or the temperature
    exceeds 80, or the queue depth exceeds 80% of the queue capacity.  With
    the default threshold 0.85 it is true at usage 0.90 whatever the
    temperature and depth, and false at usage 0.5, temperature 70 and a
    depth of 10% of a capacity that is not negative. *)
Theorem should_throttle_iff_any_condition (m : ANEResourceMonitor) :
  adaptive_throttling m = true ->
  (forall u : gmap string Q,
     should_throttle m u = true <->
     (throttle_threshold (current_allocation m) < dict_get u "ane_usage" 0
      \/ 80 < dict_get u "ane_temperature" 0
      \/ inject_Z (priority_queue_size (current_allocation m)) * (8 # 10)
         < dict_get u "queue_depth" 0)%Q)
  /\ (throttle_threshold (current_allocation m) == 85 # 100 ->
      (forall temperature depth : Q,
         should_throttle m (reading (90 # 100) temperature depth) = true)
      /\ ((0 <= priority_queue_size (current_allocation m))%Z ->
          should_throttle m
            (reading (5 # 10) 70
               (inject_Z (priority_queue_size (current_allocation m)) / 10))
          = false))%Q.
Proof.
  intros Had.
  assert (Hiff : forall u : gmap string Q,
     should_throttle m u = true <->
     (throttle_threshold (current_allocation m) < dict_get u "ane_usage" 0
      \/ 80 < dict_get u "ane_temperature" 0
      \/ inject_Z (priority_queue_size (current_allocation m)) * (8 # 10)
         < dict_get u "queue_depth" 0)%Q).
  { intros u. unfold should_throttle, throttle_conditions.
    rewrite Had. cbn [negb]. rewrite existsb_id_three, !Qgtb_lt. reflexivity. }
  split; [exact Hiff|].
  intros Hthr. split.
  - intros temperature depth. apply Hiff. left.
    change (dict_get (reading (90 # 100) temperature depth) "ane_usage" 0)
      with (90 # 100)%Q.
    rewrite Hthr. reflexivity.
  - intros Hcap.
    destruct (should_throttle m _) eqn:E; [|reflexivity].
    apply Hiff in E. exfalso.
    change (dict_get (reading (5 # 10) 70 ?d) "ane_usage" 0) with (5 # 10)%Q in E.
    destruct E as [E|[E|E]].
    + rewrite Hthr in E. discriminate E.
    + vm_compute in E. discriminate E.
    + revert E. apply Qle_not_lt.
      set (cap := priority_queue_size (current_allocation m)) in *.
      unfold reading, dict_get. rewrite lookup_insert_ne, lookup_insert_ne, lookup_insert_eq by done.
      unfold Qle, Qdiv, Qmult, Qinv, inject_Z. simpl. lia.
Qed.

Lemma should_throttle_iff_any_condition_witness :
  should_throttle default_monitor (reading (90 # 100) 70 5) = true.
Proof.
  apply (should_throttle_iff_any_condition default_monitor); reflexivity.
Defined.

End ResourceMonitorSpec.

(** ** Stable sorting *)

Lemma StronglySorted_weaken {A} (R S : A -> A -> Prop) (l : list A) :
  (forall a b, R a b -> S a b) -> StronglySorted R l -> StronglySorted S l.
Proof.
  intros HRS. induction 1 as [|x t Hs IH Hall]; constructor; [done|].
  eapply Forall_impl; [exact Hall|]. intros; by apply HRS.
Qed.

Section StableSort.
Context {A : Type} (before : A -> A -> bool).
Hypothesis before_total : forall a b, before a b = false -> before b a = true.
Hypothesis before_trans :
  forall a b c, before a b = true -> before b c = true -> before a c = true.

Lemma insert_sorted_perm (x : A) (l : list A) :
  insert_sorted before x l ≡ₚ x :: l.
Proof.
  induction l as [|y t IH]; simpl; [done|].
  destruct (before x y); [done|].
  rewrite IH. apply Permutation_swap.
Qed.

Lemma stable_sort_perm (l : list A) : stable_sort before l ≡ₚ l.
Proof.
  induction l as [|x t IH]; simpl; [done|].
  rewrite insert_sorted_perm. by f_equiv.
Qed.

Lemma insert_sorted_sorted (x : A) (l : list A) :
  StronglySorted before l -> StronglySorted before (insert_sorted before x l).
Proof.
  induction 1 as [|y t Hs IH Hall]; simpl.
  - repeat constructor.
  - destruct (before x y) eqn:Hxy.
    + constructor; [by constructor|].
      constructor; [by rewrite Hxy|].
      eapply Forall_impl; [exact Hall|].
      simpl. intros z Hz. apply Is_true_true. eapply before_trans; [exact Hxy|].
      by apply Is_true_true.
    + constructor; [exact IH|].
      rewrite insert_sorted_perm. constructor; [|exact Hall].
      apply Is_true_true. by apply before_total.
Qed.

Lemma stable_sort_sorted (l : list A) :
  StronglySorted before (stable_sort before l).
Proof.
  induction l as [|x t IH]; simpl; [constructor|].
  by apply insert_sorted_sorted.
Qed.

End StableSort.

Section SortBy.
Context {A : Type} (key : A -> Z).

Definition key_le (a b : A) : Prop := key a <= key b.

Lemma sort_by_perm (l : list A) : sort_by key l ≡ₚ l.
Proof. apply stable_sort_perm. Qed.

Lemma sort_by_sorted (l : list A) : StronglySorted key_le (sort_by key l).
Proof.
  unfold sort_by.
  eapply StronglySorted_weaken;
    [|apply (stable_sort_sorted (fun a b => key a <=? key b))].
  - intros a b Hab. apply Is_true_true in Hab. unfold key_le. lia.
  - intros a b Hab. apply Z.leb_gt in Hab. apply Z.leb_le. lia.
  - intros a b c Hab Hbc. apply Z.leb_le. apply Z.leb_le in Hab, Hbc. lia.
Qed.

Lemma sorted_app (l1 l2 : list A) :
  StronglySorted key_le l1 -> StronglySorted key_le l2 ->
  (forall a b, a ∈ l1 -> b ∈ l2 -> key_le a b) ->
  StronglySorted key_le (l1 ++ l2).
Proof.
  induction 1 as [|y t Hs IH Hall]; simpl; intros H2 Hx; [done|].
  constructor.
  - apply IH; [done|]. intros a b Ha Hb. apply Hx; [by right|done].
  - apply Forall_app. split; [done|].
    apply Forall_forall. intros b Hb. apply Hx; [by left|done].
Qed.

Lemma same_key_sorted (k : Z) (l : list A) :
  Forall (fun a => key a = k) l -> StronglySorted key_le l.
Proof.
  induction 1 as [|x t Hx Ht IH]; constructor; [done|].
  eapply Forall_impl; [exact Ht|]. unfold key_le; simpl; intros; lia.
Qed.

(** Replacing every element of a sorted list by elements of the same key
    keeps it sorted. *)
Lemma sorted_expand (f : A -> list A) (l : list A) :
  (forall a b, b ∈ f a -> key b = key a) ->
  StronglySorted key_le l -> StronglySorted key_le (concat (map f l)).
Proof.
  intros Hf. induction 1 as [|y t Hs IH Hall]; simpl; [constructor|].
  apply sorted_app; [|done|].
  - apply (same_key_sorted (key y)). apply Forall_forall. intros; by apply Hf.
  - intros a b Ha Hb.
    apply list_elem_of_In, in_concat in Hb as (bs & Hbs & Hb).
    apply in_map_iff in Hbs as (z & <- & Hz).
    apply list_elem_of_In in Hb, Hz.
    rewrite Forall_forall in Hall. specialize (Hall z Hz).
    unfold key_le in *. rewrite (Hf _ _ Ha), (Hf _ _ Hb). exact Hall.
Qed.

End SortBy.

(** ** Batch optimizer *)

Module BatchOptimizerSpec.
Import BatchOptimizer.

(** Batches in the order high, normal, low. *)
Definition priority_sorted (bs : list PrioritizedBatch) : Prop :=
  StronglySorted (key_le (fun b => priority_order (batch_priority b))) bs.

Lemma create_prioritized_sorted (c : BatchConfig) (rs : list Request) :
  priority_sorted (_create_prioritized_batches c rs).
Proof.
  unfold priority_sorted, _create_prioritized_batches.
  destruct (chunk_batches "high" _ _ _) as [hs|]; simpl;
    [|repeat constructor].
  destruct (chunk_batches "normal" _ _ _) as [ns|]; simpl;
    [|repeat constructor].
  destruct (chunk_batches "low" _ _ _) as [ls|]; simpl;
    [|repeat constructor].
  apply sort_by_sorted.
Qed.

Lemma optimize_single_same_priority (b64 : string -> option Z)
    (c : BatchConfig) (b b' : PrioritizedBatch) :
  b' ∈ _optimize_single_batch b64 c b -> batch_priority b' = batch_priority b.
Proof.
  unfold _optimize_single_batch.
  destruct (_ <=? _)%nat; [intros ->%list_elem_of_singleton; done|].
  destruct (negb _); [intros ->%list_elem_of_singleton; done|].
  intros Hin. apply list_elem_of_lookup in Hin as [i Hi].
  rewrite list_lookup_imap in Hi.
  destruct (_ !! i); simpl in Hi; [|done].
  by injection Hi as <-.
Qed.

(** C7. With batch sizes 2 and 2, three requests of priority high, normal,
    normal give exactly two batches: the high batch holding the one high
    request, then the normal batch holding the two normal requests, and the
    later optimisation step leaves both batches as they are.  For every
    configuration and input the batches come out in the order high, normal,
    low, before and after the optimisation step. *)
Theorem prioritized_batches_scenario_and_order :
  (forall (c : BatchConfig) (r1 r2 r3 : Request),
     high_priority_batch_size c = 2 ->
     normal_priority_batch_size c = 2 ->
     get_priority r1 = "high" ->
     get_priority r2 = "normal" ->
     get_priority r3 = "normal" ->
     map (fun b => (batch_priority b, requests b))
         (_create_prioritized_batches c [r1; r2; r3])
     = [("high", [r1]); ("normal", [r2; r3])]
     /\ forall b64, optimized_batches b64 c [r1; r2; r3]
                    = _create_prioritized_batches c [r1; r2; r3])
  /\ (forall c rs, priority_sorted (_create_prioritized_batches c rs))
  /\ (forall b64 c rs, priority_sorted (optimized_batches b64 c rs)).
Proof.
  split; [|split].
  - intros c r1 r2 r3 Hh Hn H1 H2 H3.
    assert (Hc : exists b1 b2, _create_prioritized_batches c [r1; r2; r3] = [b1; b2]
              /\ (batch_priority b1, requests b1) = ("high", [r1])
              /\ (batch_priority b2, requests b2) = ("normal", [r2; r3])).
    { unfold _create_prioritized_batches.
      rewrite !filter_cons, !filter_nil, H1, H2, H3, Hh, Hn.
      repeat case_decide; try congruence.
      eexists _, _. split; [vm_compute; reflexivity|]. split; reflexivity. }
    destruct Hc as (b1 & b2 & Hc & Hb1 & Hb2).
    split.
    + rewrite Hc. simpl. by rewrite Hb1, Hb2.
    + intros b64. unfold optimized_batches. rewrite Hc. simpl.
      unfold _optimize_single_batch.
      injection Hb1 as _ ->. injection Hb2 as _ ->. reflexivity.
  - apply create_prioritized_sorted.
  - intros b64 c rs. unfold optimized_batches, priority_sorted.
    apply sorted_expand; [|apply create_prioritized_sorted].
    intros a b Hb. f_equal. by eapply optimize_single_same_priority.
Qed.

Definition scenario_config : BatchConfig :=
  current_config (init 2 false).

Definition scenario_request (p : string) (img : string) : Request := {|
  request_id := None;
  priority := Some p;
  recognition_level := Some "accurate";
  image_data := Some img;
  languages := Some ["en-US"]
|}.

Lemma prioritized_batches_scenario_and_order_witness :
  map (fun b => (batch_priority b, requests b))
      (_create_prioritized_batches scenario_config
         [scenario_request "high" "aGlnaA==";
          scenario_request "normal" "bm9ybWFs";
          scenario_request "normal" "b3RoZXI="])
  = [("high", [scenario_request "high" "aGlnaA=="]);
     ("normal", [scenario_request "normal" "bm9ybWFs";
                 scenario_request "normal" "b3RoZXI="])].
Proof.
  apply (proj1 prioritized_batches_scenario_and_order); reflexivity.
Defined.

(** The priorities that one of the three partitions accepts. *)
Definition known_priority (p : string) : Prop :=
  p = "high" \/ p = "normal" \/ p = "low".

Lemma unknown_priority_no_batches (b64 : string -> option Z)
    (c : BatchConfig) (r : Request) :
  ~ known_priority (get_priority r) ->
  high_priority_batch_size c <> 0 ->
  normal_priority_batch_size c <> 0 ->
  optimized_batches b64 c [r] = [].
Proof.
  intros Hp Hh Hn. unfold optimized_batches, _create_prioritized_batches.
  unfold known_priority in Hp.
  rewrite !filter_cons, !filter_nil.
  repeat case_decide; try tauto.
  unfold chunk_batches, py_range. simpl.
  destruct (Z.eqb_spec (high_priority_batch_size c) 0) as [|_]; [done|].
  destruct (Z.eqb_spec (normal_priority_batch_size c) 0) as [|_]; [done|].
  destruct (Z.eqb_spec (Z.max (normal_priority_batch_size c) 10) 0) as [|_];
    [lia|].
  assert (Hcount : forall s, s <> 0 ->
            Z.to_nat (if 0 <? s then (0 - 0 + s - 1) / s
                      else (0 - 0 - s - 1) / - s) = 0%nat).
  { intros s Hs. destruct (Z.ltb_spec 0 s).
    - rewrite Z.div_small by lia. reflexivity.
    - rewrite Z.div_small by lia. reflexivity. }
  rewrite !Hcount by lia. reflexivity.
Qed.

(** C6. A request whose priority is none of high, normal and low belongs to
    none of the three partitions: with batch sizes that are not zero,
    [optimize_batch] returns no batch for it, so the request is dropped. *)
Theorem optimize_batch_drops_unknown_priority
    (b64 : string -> option Z) (o : DynamicBatchOptimizer) (h : Host)
    (r : Request) :
  ~ known_priority (get_priority r) ->
  high_priority_batch_size (current_config (fst (optimize_batch b64 o h [r]))) <> 0 ->
  normal_priority_batch_size (current_config (fst (optimize_batch b64 o h [r]))) <> 0 ->
  snd (optimize_batch b64 o h [r]) = [].
Proof.
  intros Hp. unfold optimize_batch.
  destruct (_analyze_system_state o h) as [o1 st].
  simpl. intros Hh Hn.
  by rewrite unknown_priority_no_batches.
Qed.

Definition urgent_request : Request := {|
  request_id := Some "req-1";
  priority := Some "urgent";
  recognition_level := None;
  image_data := Some "aGVsbG8=";
  languages := None
|}.

Definition quiet_host : Host := {|
  psutil_reading := Some (50, 50)%Q;
  ane_data := None;
  clock_analyze := 0;
  clock_adapt := 0
|}.

Lemma optimize_batch_drops_unknown_priority_witness :
  snd (optimize_batch (fun _ => Some 5) (init 5 true) quiet_host [urgent_request])
  = [].
Proof.
  apply optimize_batch_drops_unknown_priority.
  - unfold known_priority. vm_compute. intuition discriminate.
  - vm_compute. discriminate.
  - vm_compute. discriminate.
Defined.

(** One adaptive adjustment call: [_adapt_batch_sizes] on a system load, or
    [adjust_for_utilization] on a utilisation reading. *)
Inductive Adjustment :=
| AdaptToLoad (load now : Q)
| AdjustForUtilization (utilization : gmap string Q) (now : Q).

Definition apply_adjustment (o : DynamicBatchOptimizer) (a : Adjustment)
    : DynamicBatchOptimizer :=
  match a with
  | AdaptToLoad load now => _adapt_batch_sizes o load now
  | AdjustForUtilization u now => adjust_for_utilization o u now
  end.

Definition run_adjustments (o : DynamicBatchOptimizer) (adjs : list Adjustment)
    : DynamicBatchOptimizer :=
  foldl apply_adjustment o adjs.

(** The call happens under low load: a system load below 30, or an
    accelerator usage below 0.5. *)
Definition low_load (a : Adjustment) : Prop :=
  match a with
  | AdaptToLoad load _ => (load < 30)%Q
  | AdjustForUtilization u _ => (dict_get u "ane_usage" 0 < 5 # 10)%Q
  end.

(** The limits the adjustments clamp to. *)
Definition within_limits (c : BatchConfig) : Prop :=
  1 <= high_priority_batch_size c <= 10 /\ normal_priority_batch_size c <= 20.

(** From the optimizer [o], whatever adjustments follow: the sizes stay within
    the limits, and a further call under low load does not decrease the
    normal batch size. *)
Definition monotone_and_bounded_from (o : DynamicBatchOptimizer) : Prop :=
  forall adjs : list Adjustment,
    let o' := run_adjustments o adjs in
    within_limits (current_config o')
    /\ forall a, low_load a ->
         normal_priority_batch_size (current_config o')
         <= normal_priority_batch_size (current_config (apply_adjustment o' a)).

Lemma adapt_config_limits (c : BatchConfig) (load : Q) :
  within_limits c -> within_limits (adapt_config c load).
Proof.
  unfold within_limits, adapt_config.
  destruct (Qltb load 30); [simpl; lia|].
  destruct (Qgtb load 80); simpl; lia.
Qed.

Lemma apply_adjustment_limits (o : DynamicBatchOptimizer) (a : Adjustment) :
  within_limits (current_config o) ->
  within_limits (current_config (apply_adjustment o a)).
Proof.
  destruct a as [load now|u now]; simpl.
  - apply adapt_config_limits.
  - unfold within_limits.
    destruct (Qltb _ _); [simpl; lia|].
    destruct (Qgtb _ _); simpl; lia.
Qed.

Lemma run_adjustments_limits (adjs : list Adjustment) (o : DynamicBatchOptimizer) :
  within_limits (current_config o) ->
  within_limits (current_config (run_adjustments o adjs)).
Proof.
  revert o. induction adjs as [|a adjs IH]; intros o Ho; simpl; [done|].
  apply IH. by apply apply_adjustment_limits.
Qed.

Lemma low_load_never_decreases (o : DynamicBatchOptimizer) (a : Adjustment) :
  normal_priority_batch_size (current_config o) <= 20 ->
  low_load a ->
  normal_priority_batch_size (current_config o)
  <= normal_priority_batch_size (current_config (apply_adjustment o a)).
Proof.
  intros Ho Hlow. destruct a as [load now|u now]; simpl in *.
  - unfold adapt_config. apply Qltb_lt in Hlow. rewrite Hlow. simpl. lia.
  - apply Qltb_lt in Hlow. rewrite Hlow. simpl. lia.
Qed.

(** C8, amended. From a starting configuration within the limits (normal
    size at most 20, high size between 1 and 10), every sequence of adaptive
    adjustments keeps the normal size at most 20 and the high size between 1
    and 10, and an adjustment under low load never decreases the normal
    size. *)
Theorem adjustments_monotone_and_bounded (o : DynamicBatchOptimizer) :
  within_limits (current_config o) -> monotone_and_bounded_from o.
Proof.
  intros Ho adjs o'. subst o'.
  pose proof (run_adjustments_limits adjs o Ho) as Hlim.
  split; [exact Hlim|].
  intros a Ha. apply low_load_never_decreases; [apply Hlim|exact Ha].
Qed.

Lemma adjustments_monotone_and_bounded_witness :
  monotone_and_bounded_from (init 5 true).
Proof.
  apply adjustments_monotone_and_bounded. vm_compute. intuition discriminate.
Defined.

(** C8 as stated fails: an optimizer created with [initial_size = 50] starts
    with a normal size of 50 and a high size of 25, above both limits, and
    its first adjustment under low load cuts the normal size to 20. *)
Lemma adjustments_unbounded_start_counterexample :
  ~ (forall o : DynamicBatchOptimizer, monotone_and_bounded_from o).
Proof.
  intros H. destruct (H (init 50 true) []) as [[_ Hn] _].
  vm_compute in Hn. by apply Hn.
Qed.

Lemma low_load_decrease_counterexample :
  normal_priority_batch_size
    (current_config (_adapt_batch_sizes (init 50 true) 20 0))
  < normal_priority_batch_size (current_config (init 50 true)).
Proof. reflexivity. Qed.

End BatchOptimizerSpec.

(** ** Cache prediction *)

Module CachePredictorSpec.
Import CachePredictor.

(** The predictions of the input that carry the key [k], in input order. *)
Definition group_of (k : string) (ps : list CachePrediction)
    : list CachePrediction :=
  List.filter (fun p => String.eqb k (cache_key p)) ps.

(** Σ(p_i·c_i) / Σ(c_i) over a group. *)
Definition weighted_average (g : list CachePrediction) : Q :=
  (Qsum (map (fun p => probability p * confidence p) g)
   / Qsum (map confidence g))%Q.

(** Every key predicted more than once has a total confidence that is not
    zero. *)
Definition mergeable (ps : list CachePrediction) : Prop :=
  forall k, (2 <= length (group_of k ps))%nat ->
            ~ (Qsum (map confidence (group_of k ps)) == 0)%Q.

(** What the merged entry [e] of a key must be: its key occurs in the input,
    a key predicted once keeps its prediction, and whenever the total
    confidence of the key is not zero the probability of [e] is the weighted
    average of the key's predictions. *)
Definition merged_entry (ps : list CachePrediction) (e : CachePrediction)
    : Prop :=
  let g := group_of (cache_key e) ps in
  g <> []
  /\ (length g = 1%nat -> g = [e])
  /\ (~ (Qsum (map confidence g) == 0)%Q ->
      (probability e == weighted_average g)%Q).

(** One entry per key of the input, each the merged entry of its key. *)
Definition merges_per_key (ps out : list CachePrediction) : Prop :=
  NoDup (map cache_key out)
  /\ (forall p, p ∈ ps -> cache_key p ∈ map cache_key out)
  /\ Forall (merged_entry ps) out.

Definition descending (l : list CachePrediction) : Prop :=
  StronglySorted (fun a b => (probability b <= probability a)%Q) l.

Lemma group_of_app k ps qs : group_of k (ps ++ qs) = group_of k ps ++ group_of k qs.
Proof. apply List.filter_app. Qed.

Lemma group_of_key k ps p : p ∈ group_of k ps -> cache_key p = k.
Proof.
  intros Hp. apply list_elem_of_In, filter_In in Hp as [_ Hp].
  symmetry. by apply String.eqb_eq.
Qed.

Lemma group_append_keys p gs :
  map fst (group_append p gs)
  = if decide (cache_key p ∈ map fst gs) then map fst gs
    else map fst gs ++ [cache_key p].
Proof.
  induction gs as [|[k g] gs IH]; simpl; [done|].
  - destruct (String.eqb_spec k (cache_key p)) as [->|Hne]; simpl.
    + rewrite decide_True; [done|]. left.
    + rewrite IH. destruct (decide (cache_key p ∈ map fst gs)) as [Hin|Hnin].
      * rewrite decide_True; [done|]. by right.
      * rewrite decide_False; [done|].
        intros [?|?]%elem_of_cons; congruence.
Qed.

Lemma group_append_elem p gs k g :
  (k, g) ∈ group_append p gs ->
  ((k, g) ∈ gs)
  \/ (k = cache_key p
      /\ ((exists g0, (k, g0) ∈ gs /\ g = g0 ++ [p])
          \/ ((cache_key p ∉ map fst gs) /\ g = [p]))).
Proof.
  induction gs as [|[k0 g0] gs IH]; simpl.
  - intros Hin%list_elem_of_singleton. injection Hin as -> ->.
    right. split; [done|]. right. split; [apply not_elem_of_nil|done].
  - destruct (String.eqb_spec k0 (cache_key p)) as [->|Hne].
    + intros [Hin|Hin]%elem_of_cons.
      * injection Hin as -> ->. right. split; [done|]. left.
        exists g0. split; [left|done].
      * left. by right.
    + intros [Hin|Hin]%elem_of_cons.
      * left. rewrite Hin. left.
      * destruct (IH Hin) as [H|(-> & [(g1 & Hg1 & ->)|(Hnin & ->)])].
        -- left. by right.
        -- right. split; [done|]. left. exists g1. split; [by right|done].
        -- right. split; [done|]. right. split; [|done].
           intros [?|?]%elem_of_cons; simpl in *; congruence.
Qed.

Lemma group_append_keep p gs k g :
  (k, g) ∈ gs -> k <> cache_key p -> (k, g) ∈ group_append p gs.
Proof.
  induction gs as [|[k0 g0] gs IH]; simpl; [by intros ?%elem_of_nil|].
  intros [Hin|Hin]%elem_of_cons Hne.
  - injection Hin as <- <-.
    destruct (String.eqb_spec k (cache_key p)); [done|]. left.
  - destruct (String.eqb_spec k0 (cache_key p)); right; [done|]. by apply IH.
Qed.

Lemma NoDup_fst_functional {B} (l : list (string * B)) k (x y : B) :
  NoDup (map fst l) -> (k, x) ∈ l -> (k, y) ∈ l -> x = y.
Proof.
  induction l as [|[k0 z] l IH]; simpl; [by intros _ ?%elem_of_nil|].
  intros Hnd. apply NoDup_cons in Hnd as [Hnin Hnd].
  intros [Hx|Hx]%elem_of_cons [Hy|Hy]%elem_of_cons.
  - congruence.
  - injection Hx as -> ->. exfalso. apply Hnin.
    change k0 with (fst (k0, y)). apply list_elem_of_In, in_map.
    by apply list_elem_of_In.
  - injection Hy as -> ->. exfalso. apply Hnin.
    change k0 with (fst (k0, x)). apply list_elem_of_In, in_map.
    by apply list_elem_of_In.
  - by apply IH.
Qed.

Lemma group_append_hit p gs g :
  NoDup (map fst gs) -> (cache_key p, g) ∈ gs ->
  (cache_key p, g ++ [p]) ∈ group_append p gs.
Proof.
  induction gs as [|[k0 g0] gs IH]; simpl; [by intros _ ?%elem_of_nil|].
  intros Hnd Hin.
  destruct (String.eqb_spec k0 (cache_key p)) as [->|Hne].
  - assert (g0 = g) as ->; [|left].
    eapply (NoDup_fst_functional ((cache_key p, g0) :: gs)); [exact Hnd|left|done].
  - right. apply IH; [by apply NoDup_cons in Hnd as [_ ?]|].
    apply elem_of_cons in Hin as [Hin|Hin]; [congruence|done].
Qed.

(** The grouping dictionary: distinct keys, each holding the predictions of
    its key in input order, and no key of the input missing. *)
Lemma group_predictions_spec (ps : list CachePrediction) :
  NoDup (map fst (group_predictions ps))
  /\ (forall k g, (k, g) ∈ group_predictions ps -> g = group_of k ps /\ g <> [])
  /\ (forall p, p ∈ ps -> cache_key p ∈ map fst (group_predictions ps)).
Proof.
  induction ps as [|p ps IH] using rev_ind.
  - split; [constructor|]. split; [by intros k g ?%elem_of_nil|].
    by intros p ?%elem_of_nil.
  - destruct IH as (Hnd & Hgs & Hcov).
    unfold group_predictions in *. rewrite foldl_app. simpl.
    set (gs := foldl _ [] ps) in *.
    assert (Hnd' : NoDup (map fst (group_append p gs))).
    { rewrite group_append_keys. case_decide; [done|].
      apply NoDup_app. split; [done|]. split; [|apply NoDup_singleton].
      intros x Hx ->%list_elem_of_singleton. done. }
    split; [exact Hnd'|]. split.
    + intros k g Hin. rewrite group_of_app.
      assert (Hp : group_of k [p] = if decide (k = cache_key p) then [p] else []).
      { unfold group_of. simpl.
        destruct (String.eqb_spec k (cache_key p)); by case_decide. }
      destruct (decide (k = cache_key p)) as [->|Hne].
      * destruct (group_append_elem _ _ _ _ Hin)
          as [Hold|(_ & [(g0 & Hg0 & ->)|(Hnin & ->)])].
        -- exfalso.
           pose proof (group_append_hit p gs g Hnd Hold) as Hnew.
           pose proof (NoDup_fst_functional _ _ _ _ Hnd' Hin Hnew) as Heq.
           apply (f_equal length) in Heq. rewrite length_app in Heq.
           simpl in Heq. lia.
        -- destruct (Hgs _ _ Hg0) as [-> _]. rewrite Hp.
           split; [done|]. by destruct (group_of (cache_key p) ps).
        -- rewrite Hp. split; [|done].
           assert (Hnil : group_of (cache_key p) ps = []).
           { destruct (group_of (cache_key p) ps) as [|q qs] eqn:E; [done|].
             exfalso.
             assert (Hq : q ∈ group_of (cache_key p) ps) by (rewrite E; left).
             pose proof (group_of_key _ _ _ Hq) as Hk.
             apply list_elem_of_In, filter_In in Hq as [Hq _].
             apply list_elem_of_In in Hq.
             apply Hnin. rewrite <- Hk. by apply Hcov. }
           by rewrite Hnil.
      * destruct (group_append_elem _ _ _ _ Hin) as [Hold|(-> & _)]; [|done].
        destruct (Hgs _ _ Hold) as [-> Hne']. rewrite Hp.
        by rewrite app_nil_r.
    + intros q Hq. rewrite group_append_keys.
      apply elem_of_app in Hq as [Hq|Hq%list_elem_of_singleton].
      * case_decide; [by apply Hcov|]. apply elem_of_app. left. by apply Hcov.
      * subst q. case_decide; [done|]. apply elem_of_app. right. left.
Qed.

Lemma combine_group_spec ps k g e :
  g = group_of k ps -> combine_group k g = Some e ->
  cache_key e = k /\ merged_entry ps e.
Proof.
  intros Hg Hc.
  assert (Hk : cache_key e = k).
  { destruct g as [|p [|q g]]; simpl in Hc; [done| |].
    - injection Hc as <-. apply (group_of_key k ps). rewrite <- Hg. left.
    - destruct (Qeq_bool _ _); [done|]. by injection Hc as <-. }
  split; [exact Hk|].
  unfold merged_entry. rewrite Hk, <- Hg.
  destruct g as [|p [|q g]]; simpl in Hc; [done| |].
  - injection Hc as <-. split; [done|]. split; [done|].
    intros Hnz. unfold weighted_average. simpl in *. field.
    intros Hc. apply Hnz. rewrite Hc. reflexivity.
  - destruct (Qeq_bool _ _) eqn:Hz; [done|]. injection Hc as <-.
    split; [done|]. split; [done|]. intros _. reflexivity.
Qed.

Lemma combine_group_defined ps k g :
  mergeable ps -> g = group_of k ps -> g <> [] -> is_Some (combine_group k g).
Proof.
  intros Hm Hg Hne. destruct g as [|p [|q g]]; [done|by eexists|].
  simpl. destruct (Qeq_bool _ _) eqn:Hz; [|by eexists].
  exfalso. apply Qeq_bool_iff in Hz.
  apply (Hm k); rewrite <- Hg; [simpl; lia|exact Hz].
Qed.

(** Under [mergeable], [_combine_predictions] merges per key. *)
Lemma combine_predictions_merges (ps : list CachePrediction) :
  mergeable ps -> merges_per_key ps (_combine_predictions ps).
Proof.
  intros Hm. destruct (group_predictions_spec ps) as (Hnd & Hgs & Hcov).
  unfold _combine_predictions.
  destruct (mapM _ (group_predictions ps)) as [out|] eqn:Hout.
  - apply mapM_Some in Hout.
    assert (Hkeys : map cache_key out = map fst (group_predictions ps)
                    /\ Forall (merged_entry ps) out).
    { clear Hnd Hcov. induction Hout as [|[k g] e gs out He Hrest IH];
        [by split|].
      destruct (Hgs k g) as [Hg _]; [left|].
      destruct (combine_group_spec ps k g e Hg He) as [Hk Hme].
      destruct IH as [IH1 IH2].
      { intros k' g' Hin. apply Hgs. by right. }
      simpl. rewrite Hk, IH1. split; [done|]. by constructor. }
    destruct Hkeys as [Hkeys Hall]. unfold merges_per_key.
    rewrite Hkeys. done.
  - exfalso. assert (Hsome : is_Some (mapM (fun g => combine_group (fst g) (snd g))
                                            (group_predictions ps))).
    { apply mapM_is_Some. apply Forall_forall. intros [k g] Hin.
      destruct (Hgs k g Hin) as [Hg Hne]. simpl.
      by eapply combine_group_defined. }
    rewrite Hout in Hsome. by destruct Hsome.
Qed.

Lemma StronglySorted_take {A} (R : A -> A -> Prop) (n : nat) (l : list A) :
  StronglySorted R l -> StronglySorted R (take n l).
Proof.
  intros Hs. revert n. induction Hs as [|x t Hs IH Hall]; intros [|n]; simpl;
    try constructor; [apply IH|].
  apply Forall_forall. intros y Hy. rewrite Forall_forall in Hall.
  apply Hall. eapply subseteq_take. exact Hy.
Qed.

Lemma sort_by_desc_sorted (l : list CachePrediction) :
  descending (sort_by_desc probability l).
Proof.
  unfold descending, sort_by_desc.
  eapply StronglySorted_weaken;
    [|apply (stable_sort_sorted
               (fun a b => Qle_bool (probability b) (probability a)))].
  - intros a b Hab. by apply Is_true_true, Qle_bool_iff in Hab.
  - intros a b Hab. apply Qle_bool_iff.
    destruct (Qlt_le_dec (probability b) (probability a)) as [Hlt|Hle].
    + apply Qlt_le_weak, Qle_bool_iff in Hlt. congruence.
    + exact Hle.
  - intros a b c Hab Hbc. apply Qle_bool_iff.
    apply Qle_bool_iff in Hab, Hbc. by eapply Qle_trans.
Qed.

(** All predictions the three models give for a pattern. *)
Definition model_predictions (m : CachePredictionModel) (pat : Pattern)
    : list CachePrediction :=
  frequency_model m pat ++ temporal_model m pat ++ sequence_model m pat.

Lemma predict_subset (m : CachePredictionModel) (pat : Pattern) e :
  e ∈ predict_cache_access m pat ->
  e ∈ _combine_predictions (model_predictions m pat)
  /\ (prediction_threshold m <= probability e)%Q.
Proof.
  unfold predict_cache_access.
  destruct (negb (is_initialized m)); [by intros ?%elem_of_nil|].
  intros He. apply subseteq_take in He.
  unfold sort_by_desc in He. rewrite stable_sort_perm in He.
  apply list_elem_of_In, filter_In in He as [He Hp].
  split; [by apply list_elem_of_In|]. by apply Qgeb_le.
Qed.

(** C10, amended. The returned predictions all have a probability at or
    above the threshold, are sorted by descending probability, number at most
    10 and are entries of the combined list.  When every key predicted more
    than once has a total confidence that is not zero, the combined list has
    exactly one entry per predicted key: a key predicted once keeps its
    prediction, and the probability of an entry is the confidence-weighted
    average of its key's predictions whenever their total confidence is not
    zero. *)
Theorem predictions_merged_filtered_ranked
    (m : CachePredictionModel) (pat : Pattern) :
  (Forall (fun e => (prediction_threshold m <= probability e)%Q
                    /\ e ∈ _combine_predictions (model_predictions m pat))
          (predict_cache_access m pat)
   /\ descending (predict_cache_access m pat)
   /\ (length (predict_cache_access m pat) <= 10)%nat)
  /\ (mergeable (model_predictions m pat) ->
      merges_per_key (model_predictions m pat)
                     (_combine_predictions (model_predictions m pat))).
Proof.
  split; [split; [|split]|].
  - apply Forall_forall. intros e He.
    destruct (predict_subset m pat e He). by split.
  - unfold predict_cache_access.
    destruct (negb (is_initialized m)); [constructor|].
    apply StronglySorted_take, sort_by_desc_sorted.
  - unfold predict_cache_access.
    destruct (negb (is_initialized m)); [simpl; lia|].
    rewrite length_take. lia.
  - apply combine_predictions_merges.
Qed.

Definition sample_pattern : Pattern := {|
  request_size := 1024;
  request_type := "ocr";
  pattern_languages := ["en-US"];
  pattern_recognition_level := "accurate";
  pattern_timestamp := 0
|}.

Definition prediction (k : string) (p c : Q) : CachePrediction := {|
  cache_key := k;
  probability := p;
  confidence := c;
  predicted_access_time := 1;
  reasoning := "model";
  data_characteristics := ∅
|}.

(** Two models agree on key [a] with confidences 0.5 and 1; a third key [b]
    is predicted once. *)
Definition agreeing_model : CachePredictionModel := {|
  is_initialized := true;
  prediction_threshold := 8 # 10;
  frequency_model := fun _ => [prediction "a" (9 # 10) (5 # 10);
                               prediction "b" (85 # 100) 1];
  temporal_model := fun _ => [prediction "a" (6 # 10) 1];
  sequence_model := stub_model
|}.

Lemma agreeing_model_mergeable :
  mergeable (model_predictions agreeing_model sample_pattern).
Proof.
  intros k Hlen. simpl in *.
  destruct (String.eqb k "a") eqn:Ha; simpl in *;
    destruct (String.eqb k "b") eqn:Hb; simpl in *; try lia;
    discriminate.
Qed.

Lemma predictions_merged_filtered_ranked_witness :
  merges_per_key (model_predictions agreeing_model sample_pattern)
                 (_combine_predictions
                    (model_predictions agreeing_model sample_pattern)).
Proof.
  apply (proj2 (predictions_merged_filtered_ranked agreeing_model sample_pattern)).
  exact agreeing_model_mergeable.
Defined.

(** The merged probability of key [a] is (0.9·0.5 + 0.6·1) / 1.5 = 0.7,
    below the threshold, so only [b] is returned. *)
Example agreeing_model_output :
  map (fun e => (cache_key e, Qred (probability e)))
      (_combine_predictions (model_predictions agreeing_model sample_pattern))
  = [("a", 7 # 10); ("b", 17 # 20)]
  /\ map cache_key (predict_cache_access agreeing_model sample_pattern) = ["b"].
Proof. split; reflexivity. Qed.

(** Two models predict key [a] with confidence 0. *)
Definition unsure_model : CachePredictionModel := {|
  is_initialized := true;
  prediction_threshold := 8 # 10;
  frequency_model := fun _ => [prediction "a" (9 # 10) 0];
  temporal_model := fun _ => [prediction "a" (95 # 100) 0];
  sequence_model := stub_model
|}.

(** C10 as stated fails: with a total confidence of zero the division in
    the merge raises, the predictions come back unmerged, and the returned
    list holds two entries for the same key. *)
Lemma zero_confidence_counterexample :
  map cache_key (predict_cache_access unsure_model sample_pattern) = ["a"; "a"]
  /\ ~ merges_per_key (model_predictions unsure_model sample_pattern)
        (_combine_predictions (model_predictions unsure_model sample_pattern)).
Proof.
  split; [reflexivity|].
  intros [Hnd _]. vm_compute in Hnd.
  apply NoDup_cons in Hnd as [Hnin _]. apply Hnin. left.
Qed.

End CachePredictorSpec.

(** ** Shared-memory bridge *)

Module BridgeSpec.
Import Bridge.

Section WithWorld.
Variable w : World.

(** *** Segment deallocation and the sweep *)

(** The closing and unlinking of the object held for [k] goes through (or
    there is no object to close). *)
Definition destroyable (m : ImageSegmentManager) (k : string) : bool :=
  match shared_memory_objects m !! k with
  | Some shm => shm_destroy_ok w (shm_name shm)
  | None => true
  end.

(** The manager after [deallocate_segment]. *)
Definition dealloc (m : ImageSegmentManager) (k : string) : ImageSegmentManager :=
  if destroyable m k
  then set_segments (delete k) (set_objects (delete k) m)
  else m.

Lemma deallocate_segment_run (k : string) (s : Sys ImageSegmentManager) :
  deallocate_segment w k s
  = (Return tt, {| st := dealloc (st s) k; reads := reads s |}).
Proof.
  destruct s as [m n].
  unfold deallocate_segment, dealloc, destroyable, try_except, close_and_unlink,
    mbind, M_bind, get, modify, mret, M_ret, raise; simpl.
  destruct (shared_memory_objects m !! k) as [shm|] eqn:Hshm; simpl.
  - destruct (shm_destroy_ok w (shm_name shm)); reflexivity.
  - unfold set_segments, set_objects; simpl.
    rewrite (delete_id (shared_memory_objects m)) by done. reflexivity.
Qed.

Lemma for_each_deallocate_run (ks : list string) (s : Sys ImageSegmentManager) :
  for_each (deallocate_segment w) ks s
  = (Return tt, {| st := foldl dealloc (st s) ks; reads := reads s |}).
Proof.
  revert s. induction ks as [|k ks IH]; intros [m n]; simpl; [done|].
  unfold mbind, M_bind. rewrite deallocate_segment_run. simpl.
  by rewrite IH.
Qed.

(** A segment is stale at the reading [now]. *)
Definition stale (now : Q) (seg : SharedMemorySegment) : Prop :=
  (300 < now - created_at seg)%Q.

Definition expired_requests (now : Q) (m : ImageSegmentManager) : list string :=
  (map_to_list
     (filter (fun kv => Qgtb (now - created_at kv.2) 300 = true)
             (active_segments m))).*1.

(** The manager after [_cleanup_expired_segments] read the clock at [now]. *)
Definition sweep (now : Q) (m : ImageSegmentManager) : ImageSegmentManager :=
  foldl dealloc m (expired_requests now m).

Lemma cleanup_expired_run (s : Sys ImageSegmentManager) :
  _cleanup_expired_segments w s
  = (Return tt, {| st := sweep (time_at w (reads s)) (st s);
                   reads := S (reads s) |}).
Proof.
  destruct s as [m n].
  unfold _cleanup_expired_segments, time_time, mbind, M_bind, get; simpl.
  by rewrite for_each_deallocate_run.
Qed.

Lemma elem_of_expired (now : Q) (m : ImageSegmentManager) (k : string) :
  k ∈ expired_requests now m
  <-> exists seg, active_segments m !! k = Some seg /\ stale now seg.
Proof.
  unfold expired_requests, stale. rewrite list_elem_of_fmap. split.
  - intros ([k' seg] & -> & Hin). apply elem_of_map_to_list in Hin.
    apply map_lookup_filter_Some in Hin as [Hk Hs]. simpl in *.
    exists seg. split; [done|]. by apply Qgtb_lt.
  - intros (seg & Hk & Hs). exists (k, seg). split; [done|].
    apply elem_of_map_to_list, map_lookup_filter_Some. split; [done|].
    simpl. by apply Qgtb_lt.
Qed.

Lemma dealloc_lookup (m : ImageSegmentManager) (k k' : string) :
  active_segments (dealloc m k) !! k'
  = (if decide (k = k') then
       if destroyable m k then None else active_segments m !! k'
     else active_segments m !! k')
  /\ shared_memory_objects (dealloc m k) !! k'
     = (if decide (k = k') then
          if destroyable m k then None else shared_memory_objects m !! k'
        else shared_memory_objects m !! k').
Proof.
  unfold dealloc. destruct (destroyable m k); simpl.
  - rewrite !lookup_delete. by case_decide.
  - by case_decide.
Qed.

Lemma dealloc_destroyable (m : ImageSegmentManager) (k k' : string) :
  destroyable (dealloc m k) k' = destroyable m k'.
Proof.
  unfold destroyable at 1.
  rewrite (proj2 (dealloc_lookup m k k')).
  case_decide as Hk; [subst k'|done].
  destruct (destroyable m k) eqn:Hd; [done|].
  unfold destroyable in Hd. by destruct (shared_memory_objects m !! k).
Qed.

(** After deallocating the keys [ks]: a key among them whose object could be
    destroyed is gone from both dictionaries, every other key is as before. *)
Lemma foldl_dealloc_lookup (ks : list string) (m : ImageSegmentManager) (k : string) :
  let gone := bool_decide (k ∈ ks) && destroyable m k in
  active_segments (foldl dealloc m ks) !! k
  = (if gone then None else active_segments m !! k)
  /\ shared_memory_objects (foldl dealloc m ks) !! k
     = (if gone then None else shared_memory_objects m !! k).
Proof.
  revert m. induction ks as [|k0 ks IH]; intros m; simpl; [done|].
  destruct (IH (dealloc m k0)) as [IHa IHo]. rewrite IHa, IHo.
  rewrite dealloc_destroyable.
  destruct (dealloc_lookup m k0 k) as [-> ->].
  destruct (decide (k0 = k)) as [->|Hne].
  - rewrite (bool_decide_eq_true_2 (k ∈ k :: ks)) by left. simpl.
    destruct (destroyable m k), (bool_decide (k ∈ ks)); done.
  - assert (bool_decide (k ∈ k0 :: ks) = bool_decide (k ∈ ks)) as ->.
    { apply bool_decide_ext. rewrite elem_of_cons.
      split; [intros [?|?]; [congruence|done]|by right]. }
    done.
Qed.

Lemma sweep_nothing_stale (now : Q) (m : ImageSegmentManager) :
  (forall k seg, active_segments m !! k = Some seg -> ~ stale now seg) ->
  sweep now m = m.
Proof.
  intros Hfresh. unfold sweep.
  destruct (expired_requests now m) as [|k ks] eqn:E; [done|].
  exfalso. assert (Hk : k ∈ expired_requests now m) by (rewrite E; left).
  apply elem_of_expired in Hk as (seg & Hseg & Hst). by eapply Hfresh.
Qed.

Lemma sweep_lookup (now : Q) (m : ImageSegmentManager) (k : string) :
  let gone := bool_decide (k ∈ expired_requests now m) && destroyable m k in
  active_segments (sweep now m) !! k
  = (if gone then None else active_segments m !! k)
  /\ shared_memory_objects (sweep now m) !! k
     = (if gone then None else shared_memory_objects m !! k).
Proof. apply foldl_dealloc_lookup. Qed.

Lemma sweep_max_segments (now : Q) (m : ImageSegmentManager) :
  max_segments (sweep now m) = max_segments m.
Proof.
  unfold sweep. generalize (expired_requests now m) as ks. intros ks.
  revert m. induction ks as [|k ks IH]; intros m; simpl; [done|].
  rewrite IH. unfold dealloc. by destruct (destroyable m k).
Qed.

Lemma sweep_makes_room (now : Q) (m : ImageSegmentManager) (k0 : string)
    (seg0 : SharedMemorySegment) :
  active_segments m !! k0 = Some seg0 -> stale now seg0 ->
  destroyable m k0 = true ->
  (size (active_segments (sweep now m)) < size (active_segments m))%nat.
Proof.
  intros Hk0 Hst Hd. apply map_subset_size. split.
  - apply map_subseteq_spec. intros k seg.
    rewrite (proj1 (sweep_lookup now m k)).
    by destruct (_ && _).
  - intros Hsub.
    pose proof (proj1 (map_subseteq_spec _ _) Hsub k0 seg0 Hk0) as Hgone.
    rewrite (proj1 (sweep_lookup now m k0)) in Hgone.
    rewrite Hd, andb_true_r, bool_decide_eq_true_2 in Hgone; [done|].
    apply elem_of_expired. by exists seg0.
Qed.

(** The segment and the object [allocate_segment] records for a request. *)
Definition new_segment (request_id : string) (image_shape_ : list Z)
    (dtype_ : string) (t_name t_created : Q) : SharedMemorySegment := {|
  seg_name := "ane_bridge_" +:+ request_id +:+ "_" +:+ pretty (Qfloor t_name);
  seg_size := calculate_segment_size image_shape_ dtype_;
  seg_request_id := request_id;
  created_at := t_created;
  status := "allocated";
  image_shape := image_shape_;
  dtype := dtype_
|}.

Definition new_object (request_id : string) (image_shape_ : list Z)
    (dtype_ : string) (t_name : Q) : SharedMemory := {|
  shm_name := "ane_bridge_" +:+ request_id +:+ "_" +:+ pretty (Qfloor t_name);
  shm_size := calculate_segment_size image_shape_ dtype_;
  shm_buf := []
|}.

(** [allocate_segment] once the capacity check is passed, the manager being
    [m] and [n] readings of the clock taken. *)
Definition create_and_record (request_id : string) (image_shape_ : list Z)
    (dtype_ : string) (m : ImageSegmentManager) (n : nat)
    : outcome (string * SharedMemory) * Sys ImageSegmentManager :=
  let obj := new_object request_id image_shape_ dtype_ (time_at w n) in
  match shm_create_error w (shm_name obj) (shm_size obj) with
  | Some msg =>
      (Raise (RuntimeError ("Shared memory allocation failed: " +:+ msg)),
       {| st := m; reads := S n |})
  | None =>
      (Return (shm_name obj, obj),
       {| st := set_objects (insert request_id obj)
                  (set_segments
                     (insert request_id
                        (new_segment request_id image_shape_ dtype_
                           (time_at w n) (time_at w (S n)))) m);
          reads := S (S n) |})
  end.

Lemma allocate_segment_run (request_id : string) (image_shape_ : list Z)
    (dtype_ : string) (m : ImageSegmentManager) (n : nat) :
  allocate_segment w request_id image_shape_ dtype_ {| st := m; reads := n |}
  = if at_capacity m then
      if at_capacity (sweep (time_at w n) m)
      then (Raise (RuntimeError "Maximum shared memory segments exceeded"),
            {| st := sweep (time_at w n) m; reads := S n |})
      else create_and_record request_id image_shape_ dtype_
             (sweep (time_at w n) m) (S n)
    else create_and_record request_id image_shape_ dtype_ m n.
Proof.
  unfold allocate_segment, create_and_record.
  unfold mbind at 1, M_bind at 1. unfold get at 1. simpl.
  destruct (at_capacity m) eqn:Hcap.
  - unfold mbind at 1, M_bind at 1. unfold mbind at 1, M_bind at 1.
    rewrite cleanup_expired_run. simpl.
    unfold mbind at 1, M_bind at 1. unfold get at 1. simpl.
    destruct (at_capacity (sweep (time_at w n) m)); [reflexivity|].
    unfold mret at 1, M_ret at 1.
    unfold try_except, shm_create, time_time, mbind, M_bind, mret, M_ret,
      modify, raise. simpl.
    destruct (shm_create_error w _ _); reflexivity.
  - unfold mbind at 1, M_bind at 1. unfold mret at 1, M_ret at 1.
    unfold try_except, shm_create, time_time, mbind, M_bind, mret, M_ret,
      modify, raise. simpl.
    destruct (shm_create_error w _ _); reflexivity.
Qed.

(** C2, amended. The manager holds exactly [max_segments] segments.  If none
    of them is older than 300 seconds at the sweep, [allocate_segment] raises
    the capacity error and leaves the manager as it was.  If one of them is
    older than 300 seconds and its shared-memory object can be closed and
    unlinked, and the operating system creates the new object, the sweep
    removes that segment and the allocation returns, with the request
    recorded in both dictionaries and every fresh segment kept. *)
Theorem allocate_at_capacity (request_id : string) (image_shape_ : list Z)
    (dtype_ : string) (m : ImageSegmentManager) (n : nat) :
  Z.of_nat (size (active_segments m)) = max_segments m ->
  let now := time_at w n in
  let result :=
    allocate_segment w request_id image_shape_ dtype_ {| st := m; reads := n |} in
  ((forall k seg, active_segments m !! k = Some seg -> ~ stale now seg) ->
   result = (Raise (RuntimeError "Maximum shared memory segments exceeded"),
             {| st := m; reads := S n |}))
  /\
  (forall k0 seg0,
     active_segments m !! k0 = Some seg0 -> stale now seg0 ->
     destroyable m k0 = true ->
     let obj := new_object request_id image_shape_ dtype_ (time_at w (S n)) in
     shm_create_error w (shm_name obj) (shm_size obj) = None ->
     exists m',
       result = (Return (shm_name obj, obj), {| st := m'; reads := S (S (S n)) |})
       /\ active_segments m' !! request_id
          = Some (new_segment request_id image_shape_ dtype_
                    (time_at w (S n)) (time_at w (S (S n))))
       /\ shared_memory_objects m' !! request_id = Some obj
       /\ (k0 <> request_id ->
           active_segments m' !! k0 = None
           /\ shared_memory_objects m' !! k0 = None)
       /\ (forall k seg, k <> request_id ->
             active_segments m !! k = Some seg -> ~ stale now seg ->
             active_segments m' !! k = Some seg)).
Proof.
  intros Hfull now result.
  assert (Hcap : at_capacity m = true).
  { unfold at_capacity. apply Z.leb_le. lia. }
  subst result. rewrite allocate_segment_run, Hcap. split.
  - intros Hfresh. subst now. rewrite sweep_nothing_stale by done.
    by rewrite Hcap.
  - intros k0 seg0 Hk0 Hst Hd obj Hcreate.
    pose proof (sweep_makes_room now m k0 seg0 Hk0 Hst Hd) as Hroom.
    assert (Hcap' : at_capacity (sweep now m) = false).
    { unfold at_capacity. rewrite sweep_max_segments. apply Z.leb_gt. lia. }
    fold now. rewrite Hcap'. unfold create_and_record. fold obj.
    rewrite Hcreate. eexists. split; [reflexivity|]. simpl.
    split; [by rewrite lookup_insert_eq|].
    split; [by rewrite lookup_insert_eq|]. split.
    + intros Hne. rewrite !lookup_insert_ne by done.
      destruct (sweep_lookup now m k0) as [-> ->].
      rewrite Hd, andb_true_r, bool_decide_eq_true_2; [done|].
      apply elem_of_expired. by exists seg0.
    + intros k seg Hne Hk Hfresh. rewrite lookup_insert_ne by done.
      rewrite (proj1 (sweep_lookup now m k)).
      rewrite bool_decide_eq_false_2; [done|].
      intros (seg' & Hk' & Hst')%elem_of_expired. congruence.
Qed.

(** *** The request state machine *)

(** [request_id or str(uuid.uuid4())]. *)
Definition effective_id (request_id : option string) : string :=
  match request_id with
  | Some (String c r) => String c r
  | _ => uuid4 w
  end.

(** The bridge after [_cleanup_request]. *)
Definition cleanup (b : SharedMemoryBridge) (k : string) : SharedMemoryBridge := {|
  segment_manager := dealloc (segment_manager b) k;
  sync_manager := {| max_concurrent := max_concurrent (sync_manager b);
                     active_events := delete k (active_events (sync_manager b));
                     event_locks := delete k (event_locks (sync_manager b)) |};
  metrics := metrics b;
  active_requests := delete k (active_requests b);
  result_cache := result_cache b;
  http_fallback_enabled := http_fallback_enabled b
|}.

Lemma cleanup_request_run (k : string) (s : Sys SharedMemoryBridge) :
  _cleanup_request w k s
  = (Return tt, {| st := cleanup (st s) k; reads := reads s |}).
Proof.
  destruct s as [b n].
  unfold _cleanup_request, try_except, in_sync_manager, in_segment_manager,
    zoom, sync_cleanup_request.
  unfold mbind, M_bind, modify. simpl.
  rewrite deallocate_segment_run. reflexivity.
Qed.

Definition fallback_result (k : string) : ProcessingResult := {|
  result_request_id := k;
  text := "HTTP fallback OCR processing";
  confidence := 80 # 100;
  processing_time_ms := 15;
  ane_used := true;
  bounding_boxes := None;
  language := None;
  error := None;
  cache_hit := false
|}.

Definition fast_path_result (k : string) (elapsed_ms : Q) : ProcessingResult := {|
  result_request_id := k;
  text := "Shared memory OCR processing completed successfully";
  confidence := 95 # 100;
  processing_time_ms := elapsed_ms;
  ane_used := true;
  bounding_boxes := None;
  language := None;
  error := None;
  cache_hit := false
|}.

Definition error_result (k : string) (elapsed_ms : Q) (e : exn) : ProcessingResult := {|
  result_request_id := k;
  text := "";
  confidence := 0;
  processing_time_ms := elapsed_ms;
  ane_used := false;
  bounding_boxes := None;
  language := None;
  error := Some (exn_str e);
  cache_hit := false
|}.

(** The metrics after [_update_metrics] took the reading [t]. *)
Definition updated (elapsed_ms t : Q) (m : BridgeMetrics) : BridgeMetrics := {|
  total_requests := total_requests m;
  successful_requests := successful_requests m;
  failed_requests := failed_requests m;
  average_latency_ms :=
    if total_requests m =? 1 then elapsed_ms
    else ((1 # 10) * elapsed_ms + (1 - (1 # 10)) * average_latency_ms m)%Q;
  memory_segments_active := memory_segments_active m;
  memory_usage_mb := memory_usage_mb m;
  zero_copy_transfers := zero_copy_transfers m;
  fallback_http_requests := fallback_http_requests m;
  last_request_time := Some t
|}.

(** The part of the [try] block that follows the allocation. *)
Definition transfer (k : string) (image_data : list Byte.byte)
    (recognition_level : string) (languages custom_words : option (list string))
    (minimum_text_height start_time : Q) (a : string * SharedMemory)
    : M SharedMemoryBridge ProcessingResult :=
  let '(segment_name, shm) := a in
  write_payload k shm image_data ;;
  t ← time_time w;
  let processing_request :=
    {| pr_request_id := k;
       pr_segment_name := segment_name;
       pr_image_shape := _estimate_image_shape image_data;
       pr_recognition_level := recognition_level;
       pr_languages := or_default languages ["en-US"];
       pr_custom_words := or_default custom_words [];
       pr_minimum_text_height := minimum_text_height;
       pr_timestamp := t |} in
  modify (set_active_requests (insert k processing_request)) ;;
  in_sync_manager (create_request_event k) ;;
  in_sync_manager (signal_processing_ready k) ;;
  completed ← in_sync_manager (wait_for_completion w k);
  if negb completed then
    b ← get;
    if http_fallback_enabled b then _fallback_to_http k
    else raise (TimeoutError ("Processing timeout for request " +:+ k))
  else
    result ← _read_processing_result k shm;
    t_end ← time_time w;
    let processing_time_ms_ := ((t_end - start_time) * 1000)%Q in
    modify (set_metrics count_success) ;;
    _update_metrics w processing_time_ms_ true ;;
    mret (with_processing_time result processing_time_ms_).

(** The [except] block. *)
Definition on_exception (k : string) (start_time : Q) (e : exn)
    : M SharedMemoryBridge ProcessingResult :=
  t_end ← time_time w;
  let processing_time_ms_ := ((t_end - start_time) * 1000)%Q in
  modify (set_metrics count_failure) ;;
  _update_metrics w processing_time_ms_ false ;;
  b ← get;
  if http_fallback_enabled b then _fallback_to_http k
  else mret (error_result k processing_time_ms_ e).

Lemma process_image_zero_copy_eq (image_data : list Byte.byte)
    (recognition_level : string) (languages custom_words : option (list string))
    (minimum_text_height : Q) (request_id : option string) :
  process_image_zero_copy w image_data recognition_level languages custom_words
    minimum_text_height request_id
  = (let k := effective_id request_id in
     start_time ← time_time w;
     modify (set_metrics count_total) ;;
     try_finally
       (try_except
          (a ← in_segment_manager
                 (allocate_segment w k (_estimate_image_shape image_data) "uint8");
           transfer k image_data recognition_level languages custom_words
             minimum_text_height start_time a)
          (on_exception k start_time))
       (_cleanup_request w k)).
Proof. reflexivity. Qed.

(** The bridge once the payload is written and the request, its event and
    its lock are registered. *)
Definition registered (b : SharedMemoryBridge) (k : string)
    (req : ProcessingRequest) (shm : SharedMemory) (image_data : list Byte.byte)
    : SharedMemoryBridge := {|
  segment_manager :=
    set_objects (insert k
      {| shm_name := shm_name shm; shm_size := shm_size shm;
         shm_buf := take (Z.to_nat (Z.min (Z.of_nat (length image_data))
                                          (shm_size shm - 4096))) image_data |})
      (segment_manager b);
  sync_manager :=
    {| max_concurrent := max_concurrent (sync_manager b);
       active_events := <[k := true]> (<[k := false]> (active_events (sync_manager b)));
       event_locks := <[k := tt]> (event_locks (sync_manager b)) |};
  metrics := metrics b;
  active_requests := <[k := req]> (active_requests b);
  result_cache := result_cache b;
  http_fallback_enabled := http_fallback_enabled b
|}.

(** The wait that follows the signal never times out, whatever the outside
    does: [signal_processing_ready] sets the very event
    [wait_for_completion] then waits on. *)
Lemma wait_after_signal (k : string) (s : Sys SynchronizationManager) :
  fst ((create_request_event k ;; signal_processing_ready k ;;
        wait_for_completion w k) s) = Return true.
Proof.
  destruct s as [m n].
  unfold create_request_event, signal_processing_ready, wait_for_completion,
    mbind, M_bind, mret, M_ret, modify, get.
  simpl. rewrite !lookup_insert_eq. simpl. by rewrite lookup_insert_eq.
Qed.

(** Once the segment is allocated the [try] block runs to its end: the
    timeout branch is not taken. *)
Lemma transfer_run (k : string) (image_data : list Byte.byte)
    (recognition_level : string) (languages custom_words : option (list string))
    (minimum_text_height start_time : Q) (segment_name : string)
    (shm : SharedMemory) (b : SharedMemoryBridge) (n : nat) :
  let req := {| pr_request_id := k;
                pr_segment_name := segment_name;
                pr_image_shape := _estimate_image_shape image_data;
                pr_recognition_level := recognition_level;
                pr_languages := or_default languages ["en-US"];
                pr_custom_words := or_default custom_words [];
                pr_minimum_text_height := minimum_text_height;
                pr_timestamp := time_at w n |} in
  let b1 := registered b k req shm image_data in
  let elapsed := ((time_at w (S n) - start_time) * 1000)%Q in
  transfer k image_data recognition_level languages custom_words
    minimum_text_height start_time (segment_name, shm) {| st := b; reads := n |}
  = (Return (fast_path_result k elapsed),
     {| st := set_metrics (fun m => updated elapsed (time_at w (S (S n)))
                                      (count_success m)) b1;
        reads := S (S (S n)) |}).
Proof.
  intros req b1 elapsed.
  unfold transfer, write_payload, in_segment_manager, in_sync_manager, zoom,
    create_request_event, signal_processing_ready, wait_for_completion,
    _fallback_to_http, _read_processing_result, _update_metrics, time_time,
    mbind, M_bind, mret, M_ret, modify, get, raise.
  simpl. rewrite !lookup_insert_eq. simpl. rewrite !lookup_insert_eq. simpl.
  reflexivity.
Qed.

Lemma on_exception_run (k : string) (start_time : Q) (e : exn)
    (b : SharedMemoryBridge) (n : nat) :
  let elapsed := ((time_at w n - start_time) * 1000)%Q in
  let b1 := set_metrics (fun m => updated elapsed (time_at w (S n))
                                    (count_failure m)) b in
  on_exception k start_time e {| st := b; reads := n |}
  = if http_fallback_enabled b then
      (Return (fallback_result k),
       {| st := set_metrics count_fallback b1; reads := S (S n) |})
    else
      (Return (error_result k elapsed e), {| st := b1; reads := S (S n) |}).
Proof.
  intros elapsed b1.
  unfold on_exception, _fallback_to_http, _update_metrics, time_time,
    mbind, M_bind, mret, M_ret, modify, get.
  simpl. destruct (http_fallback_enabled b); reflexivity.
Qed.

(** The [try] and [except] blocks of a request, run from the bridge [b0]
    (the request already counted) after [n] readings of the clock, the first
    of which was [start_time]. *)
Definition attempt (k : string) (image_data : list Byte.byte)
    (recognition_level : string) (languages custom_words : option (list string))
    (minimum_text_height start_time : Q) (b0 : SharedMemoryBridge) (n : nat)
    : outcome ProcessingResult * Sys SharedMemoryBridge :=
  match allocate_segment w k (_estimate_image_shape image_data) "uint8"
          {| st := segment_manager b0; reads := n |} with
  | (Return a, t) =>
      match transfer k image_data recognition_level languages custom_words
              minimum_text_height start_time a
              {| st := set_segment_manager (st t) b0; reads := reads t |} with
      | (Raise e, s) => on_exception k start_time e s
      | r => r
      end
  | (Raise e, t) =>
      on_exception k start_time e
        {| st := set_segment_manager (st t) b0; reads := reads t |}
  end.

Lemma process_image_zero_copy_run (image_data : list Byte.byte)
    (recognition_level : string) (languages custom_words : option (list string))
    (minimum_text_height : Q) (request_id : option string)
    (b : SharedMemoryBridge) (n : nat) :
  let k := effective_id request_id in
  let r := attempt k image_data recognition_level languages custom_words
             minimum_text_height (time_at w n) (set_metrics count_total b) (S n) in
  process_image_zero_copy w image_data recognition_level languages custom_words
    minimum_text_height request_id {| st := b; reads := n |}
  = (r.1, {| st := cleanup (st r.2) k; reads := reads r.2 |}).
Proof.
  intros k r. subst r. rewrite process_image_zero_copy_eq. fold k.
  unfold attempt, try_finally, try_except, in_segment_manager, zoom.
  unfold mbind at 1, M_bind at 1. unfold time_time at 1. simpl.
  unfold mbind at 1, M_bind at 1. unfold modify at 1. simpl.
  unfold mbind at 1, M_bind at 1.
  destruct (allocate_segment w k _ _ _) as [[a|e] t]; simpl.
  - destruct (transfer _ _ _ _ _ _ _ _ _) as [[res|e] s1]; simpl.
    + by rewrite cleanup_request_run.
    + destruct (on_exception _ _ _ _) as [res s2].
      by rewrite cleanup_request_run.
  - destruct (on_exception _ _ _ _) as [res s2].
    by rewrite cleanup_request_run.
Qed.



Lemma allocate_segment_reads (k : string) (image_shape_ : list Z)
    (dtype_ : string) (m : ImageSegmentManager) (n : nat) :
  (n < reads (allocate_segment w k image_shape_ dtype_
                {| st := m; reads := n |}).2)%nat.
Proof.
  rewrite allocate_segment_run. unfold create_and_record.
  repeat (match goal with
          | |- context [if ?c then _ else _] => destruct c
          | |- context [match ?c with Some _ => _ | None => _ end] => destruct c
          end; cbn [snd reads]); lia.
Qed.

(** The result and the metrics a request leaves behind, by the path it
    took: the fast path when the segment was allocated, the [except] block
    when it was not.  The time reported is measured from [start_time] to a
    later reading [j] of the clock, and [_update_metrics] takes the reading
    after that. *)
Lemma attempt_outcome (k : string) (image_data : list Byte.byte)
    (recognition_level : string) (languages custom_words : option (list string))
    (minimum_text_height start_time : Q) (b0 : SharedMemoryBridge) (n : nat) :
  let run := attempt k image_data recognition_level languages custom_words
               minimum_text_height start_time b0 n in
  let after := metrics (st run.2) in
  exists j, (n < j)%nat /\
    let elapsed := ((time_at w j - start_time) * 1000)%Q in
    let t := time_at w (S j) in
    match (allocate_segment w k (_estimate_image_shape image_data) "uint8"
             {| st := segment_manager b0; reads := n |}).1 with
    | Return _ =>
        run.1 = Return (fast_path_result k elapsed)
        /\ after = updated elapsed t (count_success (metrics b0))
    | Raise e =>
        if http_fallback_enabled b0 then
          run.1 = Return (fallback_result k)
          /\ after = count_fallback (updated elapsed t (count_failure (metrics b0)))
        else
          run.1 = Return (error_result k elapsed e)
          /\ after = updated elapsed t (count_failure (metrics b0))
    end.
Proof.
  cbn zeta. unfold attempt.
  pose proof (allocate_segment_reads k (_estimate_image_shape image_data)
                "uint8" (segment_manager b0) n) as Hreads.
  destruct (allocate_segment w k _ _ _) as [[[nm shm]|e] [m t]];
    cbn [st reads fst snd] in *.
  - exists (S t). split; [lia|]. rewrite transfer_run. by split.
  - exists t. split; [lia|]. rewrite on_exception_run.
    cbn [http_fallback_enabled set_segment_manager].
    destruct (http_fallback_enabled b0); by split.
Qed.


(** C5. Every call of [process_image_zero_copy], whatever the outside does
    and whichever way it ends, updates the metrics exactly once:
    [total_requests] goes up by 1, exactly one of [successful_requests] and
    [failed_requests] goes up by 1, and [_update_metrics] runs once, on the
    time measured from the start of the call: the average latency becomes
    that time for the first request and the smoothed value
    [0.1 * time + 0.9 * average] afterwards, and [last_request_time] is set.
    The only other counters touched are [zero_copy_transfers], on success,
    and [fallback_http_requests], when the fallback answers a failure. *)
Theorem metrics_updated_exactly_once (image_data : list Byte.byte)
    (recognition_level : string) (languages custom_words : option (list string))
    (minimum_text_height : Q) (request_id : option string)
    (b : SharedMemoryBridge) (n : nat) :
  let before := metrics b in
  let after :=
    metrics (st (process_image_zero_copy w image_data recognition_level
                   languages custom_words minimum_text_height request_id
                   {| st := b; reads := n |}).2) in
  total_requests after = total_requests before + 1
  /\ ((successful_requests after = successful_requests before + 1
       /\ failed_requests after = failed_requests before)
      \/ (successful_requests after = successful_requests before
          /\ failed_requests after = failed_requests before + 1))
  /\ exists j, (n < j)%nat /\
       let elapsed := ((time_at w j - time_at w n) * 1000)%Q in
       average_latency_ms after
       = (if total_requests before + 1 =? 1 then elapsed
          else ((1 # 10) * elapsed
                + (1 - (1 # 10)) * average_latency_ms before)%Q)
       /\ last_request_time after = Some (time_at w (S j))
       /\ (after = updated elapsed (time_at w (S j))
                     (count_success (count_total before))
           \/ after = updated elapsed (time_at w (S j))
                        (count_failure (count_total before))
           \/ after = count_fallback
                        (updated elapsed (time_at w (S j))
                           (count_failure (count_total before)))).
Proof.
  intros before after. subst after before.
  rewrite process_image_zero_copy_run.
  set (k := effective_id request_id).
  destruct (attempt_outcome k image_data recognition_level languages
              custom_words minimum_text_height (time_at w n)
              (set_metrics count_total b) (S n)) as (j & Hj & Hrun).
  cbv zeta in Hrun.
  change (metrics (set_metrics count_total b)) with (count_total (metrics b))
    in Hrun.
  change (http_fallback_enabled (set_metrics count_total b))
    with (http_fallback_enabled b) in Hrun.
  cbn [st snd cleanup metrics].
  destruct (allocate_segment w k _ _ _).1 as [a|e];
    [|destruct (http_fallback_enabled b)];
    destruct Hrun as [_ ->];
    (split; [reflexivity|]);
    (split; [(by left) || (by right)|]);
    (exists j; split; [lia|]);
    (split; [reflexivity|]); (split; [reflexivity|]).
  - by left.
  - by right; right.
  - by right; left.
Qed.

End WithWorld.

(** *** Concrete runs *)

(** A cooperative outside: the clock reads [1000 + n] at the [n]-th reading,
    objects are created and destroyed, and the completion signal arrives. *)
Definition calm_world : World := {|
  time_at := fun n => inject_Z (1000 + Z.of_nat n);
  uuid4 := "00000000-0000-4000-8000-000000000000";
  shm_create_error := fun _ _ => None;
  shm_destroy_ok := fun _ => true;
  event_wait := fun _ => true
|}.

(** As [calm_world], but the operating system refuses every shared-memory
    object, and nobody ever sets an event. *)
Definition refusing_world : World := {|
  time_at := time_at calm_world;
  uuid4 := uuid4 calm_world;
  shm_create_error := fun _ _ => Some "No space left on device";
  shm_destroy_ok := fun _ => true;
  event_wait := fun _ => false
|}.

(** As [calm_world], but no shared-memory object can be unlinked. *)
Definition sticky_world : World := {|
  time_at := time_at calm_world;
  uuid4 := uuid4 calm_world;
  shm_create_error := fun _ _ => None;
  shm_destroy_ok := fun _ => false;
  event_wait := fun _ => true
|}.

Definition segment_created_at (k : string) (t : Q) : SharedMemorySegment := {|
  seg_name := "ane_bridge_" +:+ k +:+ "_0";
  seg_size := 1048576;
  seg_request_id := k;
  created_at := t;
  status := "allocated";
  image_shape := [480; 640; 3];
  dtype := "uint8"
|}.

(** A manager for one segment, holding the segment of request [old] created
    at time [t]. *)
Definition full_manager (t : Q) : ImageSegmentManager := {|
  default_segment_size := 50 * 1024 * 1024;
  max_segments := 1;
  active_segments := {[ "old" := segment_created_at "old" t ]};
  shared_memory_objects :=
    {[ "old" := {| shm_name := "ane_bridge_old_0"; shm_size := 1048576;
                   shm_buf := [] |} ]}
|}.

Lemma allocate_at_capacity_witness :
  (allocate_segment calm_world "new" [480; 640; 3] "uint8"
     {| st := full_manager 900; reads := 0 |}).1
  = Raise (RuntimeError "Maximum shared memory segments exceeded")
  /\ exists m',
       (allocate_segment calm_world "new" [480; 640; 3] "uint8"
          {| st := full_manager 0; reads := 0 |}).2
       = {| st := m'; reads := 3 |}
       /\ active_segments m' !! "old" = None
       /\ is_Some (active_segments m' !! "new").
Proof.
  split.
  - destruct (allocate_at_capacity calm_world "new" [480; 640; 3] "uint8"
                (full_manager 900) 0) as [Hnone _]; [reflexivity|].
    rewrite Hnone; [reflexivity|].
    intros k seg Hk Hst. unfold full_manager in Hk. simpl in Hk.
    apply lookup_singleton_Some in Hk as [_ <-].
    vm_compute in Hst. discriminate Hst.
  - destruct (allocate_at_capacity calm_world "new" [480; 640; 3] "uint8"
                (full_manager 0) 0) as [_ Hsome]; [reflexivity|].
    destruct (Hsome "old" (segment_created_at "old" 0))
      as (m' & Hrun & Hnew & _ & Hold & _);
      [reflexivity|reflexivity|reflexivity|reflexivity|].
    exists m'. rewrite Hrun. split; [reflexivity|].
    split; [by apply Hold|]. rewrite Hnew. by eexists.
Defined.

(** C2 as stated fails: a stale segment whose shared-memory object cannot be
    unlinked stays in place after the sweep, and the allocation still fails
    with the capacity error. *)
Lemma sweep_blocked_counterexample :
  (exists seg, active_segments (full_manager 0) !! "old" = Some seg
               /\ stale (time_at sticky_world 0) seg)
  /\ allocate_segment sticky_world "new" [480; 640; 3] "uint8"
       {| st := full_manager 0; reads := 0 |}
     = (Raise (RuntimeError "Maximum shared memory segments exceeded"),
        {| st := full_manager 0; reads := 1 |}).
Proof.
  split.
  - exists (segment_created_at "old" 0). split; reflexivity.
  - rewrite allocate_segment_run.
    assert (Hsweep : sweep sticky_world (time_at sticky_world 0) (full_manager 0)
                     = full_manager 0).
    { unfold sweep. generalize (expired_requests (time_at sticky_world 0)
                                  (full_manager 0)).
      intros ks. induction ks as [|k ks IH]; [done|]. simpl.
      assert (Hk : dealloc sticky_world (full_manager 0) k = full_manager 0).
      { unfold dealloc, destroyable. simpl.
        destruct (decide (k = "old")) as [->|Hne].
        - by rewrite lookup_singleton_eq.
        - rewrite lookup_singleton_ne by done.
          unfold set_segments, set_objects, full_manager. simpl.
          by rewrite !delete_singleton_ne. }
      by rewrite Hk. }
    rewrite Hsweep. reflexivity.
Qed.

Definition fresh_bridge : SharedMemoryBridge := new_bridge 50 20 10 true.

Definition sample_image : list Byte.byte := [Byte.x78; Byte.x79; Byte.x7a].

(** The two boolean fields of a result. *)
Definition result_flags (r : outcome ProcessingResult) : option (bool * bool) :=
  match r with
  | Return res => Some (ane_used res, cache_hit res)
  | Raise _ => None
  end.

(** The fallback answers when the allocation fails, never after a wait: a
    request is served over shared memory even where nobody else would set
    its event.  The result of the fallback carries the flags of a result
    served over shared memory, and no error. *)
Example fallback_after_refused_allocation :
  let served_by_fallback :=
    (process_image_zero_copy refusing_world sample_image "fast" None None
       (1 # 32) (Some "test_001") {| st := fresh_bridge; reads := 0 |}).1 in
  let served_over_shared_memory :=
    (process_image_zero_copy
       {| time_at := time_at calm_world; uuid4 := uuid4 calm_world;
          shm_create_error := fun _ _ => None;
          shm_destroy_ok := fun _ => true;
          event_wait := fun _ => false |}
       sample_image "fast" None None
       (1 # 32) (Some "test_001") {| st := fresh_bridge; reads := 0 |}).1 in
  served_by_fallback = Return (fallback_result "test_001")
  /\ served_over_shared_memory = Return (fast_path_result "test_001" 4000)
  /\ result_flags served_by_fallback = result_flags served_over_shared_memory.
Proof. vm_compute. repeat split. Qed.



End BridgeSpec.

(** ** JSON encoding and decoding *)

Module JsonSpec.
Import Json.

Lemma append_cons (c : ascii) (s t : string) :
  String c s +:+ t = String c (s +:+ t).
Proof. reflexivity. Qed.

Lemma append_nil_l (s : string) : "" +:+ s = s.
Proof. reflexivity. Qed.

Lemma append_nil_r (s : string) : s +:+ "" = s.
Proof.
  induction s as [|c s IH]; [done|]. by rewrite append_cons, IH.
Qed.

Lemma append_assoc (a b c : string) : (a +:+ b) +:+ c = a +:+ (b +:+ c).
Proof.
  induction a as [|x a IH]; [done|]. by rewrite !append_cons, IH.
Qed.

Lemma length_append (a b : string) :
  String.length (a +:+ b) = (String.length a + String.length b)%nat.
Proof.
  induction a as [|x a IH]; [done|]. rewrite append_cons. simpl. by rewrite IH.
Qed.

(** The head of [s] is no digit. *)
Definition no_digit_head (s : string) : bool :=
  match s with
  | String c _ => match digit_ctor c with Some _ => false | None => true end
  | EmptyString => true
  end.

(** What may follow a printed value: no digit, no fraction, no exponent. *)
Definition tail_ok (s : string) : bool := no_digit_head s && negb (float_tail s).

Lemma read_digits_print (d : Decimal.uint) (rest : string) :
  no_digit_head rest = true ->
  read_digits (NilEmpty.string_of_uint d +:+ rest) = (d, rest).
Proof.
  intros Hrest. induction d as [|d IH|d IH|d IH|d IH|d IH|d IH|d IH|d IH|d IH|d IH];
    simpl; try (change (String ?c ?t +:+ rest) with (String c (t +:+ rest));
                simpl; rewrite IH; reflexivity).
  destruct rest as [|c r]; [done|]. simpl in *.
  by destruct (digit_ctor c).
Qed.

Lemma to_uint_normal (n : N) :
  match N.to_uint n with
  | Decimal.Nil => False
  | Decimal.D0 d => d = Decimal.Nil
  | _ => True
  end.
Proof.
  pose proof (DecimalN.Unsigned.to_of (N.to_uint n)) as Hn.
  rewrite DecimalN.Unsigned.of_to in Hn.
  destruct (N.to_uint n) as [|d|d|d|d|d|d|d|d|d|d] eqn:E; try exact I.
  - by apply (unorm_nonnil Decimal.Nil).
  - unfold Decimal.unorm in Hn.
    destruct (Decimal.nzhead (Decimal.D0 d)) eqn:Hz;
      try (exfalso; rewrite <- Hn in Hz; by apply nzhead_nonzero in Hz).
    by injection Hn as <-.
Qed.

Lemma parse_nat_print (n : N) (rest : string) :
  tail_ok rest = true -> parse_nat (print_nat n +:+ rest) = Some (n, rest).
Proof.
  intros [Hd Hf%negb_true_iff]%andb_true_iff.
  unfold parse_nat, print_nat. rewrite read_digits_print by done.
  pose proof (to_uint_normal n) as Hn.
  pose proof (DecimalN.Unsigned.of_to n) as Hof.
  destruct (N.to_uint n) as [|d|d|d|d|d|d|d|d|d|d]; try done;
    try (rewrite Hf, Hof; reflexivity).
  subst d. by rewrite Hf, Hof.
Qed.

Lemma print_nat_head (n : N) :
  exists c tail, print_nat n = String c tail /\ is_Some (digit_ctor c).
Proof.
  unfold print_nat. pose proof (to_uint_normal n) as Hn.
  destruct (N.to_uint n); [done|..]; simpl; eexists _, _; split;
    try reflexivity; by eexists.
Qed.

Lemma parse_int_print (z : Z) (rest : string) :
  tail_ok rest = true -> parse_int (print_int z +:+ rest) = Some (z, rest).
Proof.
  intros Hrest. unfold print_int. destruct z as [|p|p].
  - change (parse_int (String "0" rest) = Some (0, rest)).
    unfold parse_int. change (String "0" rest) with (print_nat 0 +:+ rest).
    rewrite parse_nat_print by done. reflexivity.
  - destruct (print_nat_head (Z.to_N (Z.pos p))) as (c & tail & Hc & [D HD]).
    pose proof (parse_nat_print (Z.to_N (Z.pos p)) rest Hrest) as Hgo.
    rewrite Hc in *. rewrite append_cons in *. unfold parse_int.
    destruct (Ascii.eqb_spec c "-") as [->|_]; [vm_compute in HD; discriminate|].
    rewrite Hgo. reflexivity.
  - rewrite append_cons. unfold parse_int. simpl.
    by rewrite parse_nat_print.
Qed.

Lemma hex_digit_value (k : N) : (k < 16)%N -> hex_value (hex_digit k) = Some k.
Proof.
  intros H.
  assert (k = 0 \/ k = 1 \/ k = 2 \/ k = 3 \/ k = 4 \/ k = 5 \/ k = 6 \/ k = 7
          \/ k = 8 \/ k = 9 \/ k = 10 \/ k = 11 \/ k = 12 \/ k = 13 \/ k = 14
          \/ k = 15)%N as Hk by lia.
  repeat (destruct Hk as [->|Hk]; [reflexivity|]). by subst.
Qed.

Lemma parse_unicode_escape (h3 h4 : ascii) (r : string) :
  parse_string_body
    (String backslash (String "u" (String "0" (String "0"
       (String h3 (String h4 r))))))
  = match hex_value h3, hex_value h4 with
    | Some c, Some d =>
        let code := (((0 * 16 + 0) * 16 + c) * 16 + d)%N in
        if (code <? 256)%N then
          match parse_string_body r with
          | Some (body, rest) => Some (String (ascii_of_N code) body, rest)
          | None => None
          end
        else None
    | _, _ => None
    end.
Proof. reflexivity. Qed.

(** The two-character escapes and the characters they stand for. *)
Definition short_escapes : list (ascii * ascii) :=
  [(dquote, dquote); (backslash, backslash); ("n", "010"); ("r", "013");
   ("t", "009"); ("b", "008"); ("f", "012")]%char.

Lemma parse_short_escape (e x : ascii) (r : string) :
  (e, x) ∈ short_escapes ->
  parse_string_body (String backslash (String e r))
  = match parse_string_body r with
    | Some (body, rest) => Some (String x body, rest)
    | None => None
    end.
Proof.
  unfold short_escapes. intros Hin.
  repeat (apply elem_of_cons in Hin as [[= -> ->]|Hin]; [reflexivity|]).
  by apply elem_of_nil in Hin.
Qed.

(** Decoding undoes the escape of one character. *)
Lemma escape_char_parse (c : ascii) (tail body rest : string) :
  parse_string_body tail = Some (body, rest) ->
  parse_string_body (escape_char c +:+ tail) = Some (String c body, rest).
Proof.
  intros H. unfold escape_char.
  pose proof (ascii_N_embedding c) as Hc.
  assert (Hshort : forall e x,
            (e, x) ∈ short_escapes -> c = x ->
            parse_string_body (String backslash (String e "") +:+ tail)
            = Some (String c body, rest)).
  { intros e x Hin ->. rewrite !append_cons, append_nil_l.
    rewrite (parse_short_escape e x) by done. by rewrite H. }
  unfold short_escapes in Hshort.
  destruct (Ascii.eqb_spec c dquote) as [->|Hq];
    [apply (Hshort _ dquote); [set_solver|done]|].
  destruct (Ascii.eqb_spec c backslash) as [->|Hb];
    [apply (Hshort _ backslash); [set_solver|done]|].
  destruct (N.eqb_spec (N_of_ascii c) 10) as [E|_];
    [apply (Hshort _ "010"%char); [set_solver|by rewrite <- Hc, E]|].
  destruct (N.eqb_spec (N_of_ascii c) 13) as [E|_];
    [apply (Hshort _ "013"%char); [set_solver|by rewrite <- Hc, E]|].
  destruct (N.eqb_spec (N_of_ascii c) 9) as [E|_];
    [apply (Hshort _ "009"%char); [set_solver|by rewrite <- Hc, E]|].
  destruct (N.eqb_spec (N_of_ascii c) 8) as [E|_];
    [apply (Hshort _ "008"%char); [set_solver|by rewrite <- Hc, E]|].
  destruct (N.eqb_spec (N_of_ascii c) 12) as [E|_];
    [apply (Hshort _ "012"%char); [set_solver|by rewrite <- Hc, E]|].
  pose proof (N_ascii_bounded c) as Hbound.
  destruct ((N_of_ascii c <? 32)%N || (126 <? N_of_ascii c)%N) eqn:Hctl.
  - rewrite !append_cons, append_nil_l, parse_unicode_escape.
    rewrite !hex_digit_value
      by (try apply N.mod_lt; try apply N.Div0.div_lt_upper_bound; lia).
    cbv zeta.
    replace ((((0 * 16 + 0) * 16 + N_of_ascii c `div` 16) * 16
              + N_of_ascii c `mod` 16))%N
      with (N_of_ascii c) by (pose proof (N.div_mod (N_of_ascii c) 16); lia).
    destruct (N.ltb_spec (N_of_ascii c) 256) as [_|]; [|lia].
    by rewrite H, Hc.
  - apply orb_false_iff in Hctl as [Hlo _].
    rewrite append_cons, append_nil_l. simpl.
    destruct (Ascii.eqb_spec c dquote); [done|].
    destruct (Ascii.eqb_spec c backslash); [done|].
    by rewrite Hlo, H.
Qed.

Lemma parse_string_body_escape (s rest : string) :
  parse_string_body (escape s +:+ String dquote rest) = Some (s, rest).
Proof.
  induction s as [|c s IH]; [reflexivity|].
  simpl escape. rewrite append_assoc. by apply escape_char_parse.
Qed.

Lemma parse_quoted (s rest : string) :
  exists tail, quoted s +:+ rest = String dquote tail
               /\ parse_string_body tail = Some (s, rest).
Proof.
  unfold quoted. rewrite append_cons, append_assoc, append_cons, append_nil_l.
  eexists. split; [reflexivity|]. apply parse_string_body_escape.
Qed.

(** *** Values *)

Section JsonInduction.
Variable P : json -> Prop.
Hypothesis Hnull : P JNull.
Hypothesis Hbool : forall b, P (JBool b).
Hypothesis Hint : forall n, P (JInt n).
Hypothesis Hstr : forall s, P (JStr s).
Hypothesis Hlist : forall l, Forall P l -> P (JList l).
Hypothesis Hdict : forall l, Forall (fun kv => P kv.2) l -> P (JDict l).

Fixpoint json_induction (v : json) : P v :=
  match v with
  | JNull => Hnull
  | JBool b => Hbool b
  | JInt n => Hint n
  | JStr s => Hstr s
  | JList l =>
      Hlist l ((fix go (l : list json) : Forall P l :=
                  match l with
                  | [] => @List.Forall_nil _ P
                  | x :: t =>
                      @List.Forall_cons _ P x t (json_induction x) (go t)
                  end) l)
  | JDict l =>
      Hdict l ((fix go (l : list (string * json))
                  : Forall (fun kv => P kv.2) l :=
                  match l with
                  | [] => @List.Forall_nil _ _
                  | x :: t =>
                      @List.Forall_cons _ _ x t (json_induction x.2) (go t)
                  end) l)
  end.

End JsonInduction.

(** A character a printed value may start with: no white space and no
    closing bracket. *)
Definition value_start (c : ascii) : bool :=
  negb (is_ws c) && negb (Ascii.eqb c "]").

Lemma digit_range (c : ascii) :
  is_Some (digit_ctor c) -> (48 <= N_of_ascii c <= 57)%N.
Proof.
  unfold digit_ctor, digit_value. intros [D HD].
  destruct ((48 <=? N_of_ascii c)%N && (N_of_ascii c <=? 57)%N) eqn:E; [|done].
  apply andb_true_iff in E as [?%N.leb_le ?%N.leb_le]. lia.
Qed.

Lemma eqb_by_code (c x : ascii) :
  N_of_ascii c <> N_of_ascii x -> Ascii.eqb c x = false.
Proof. intros Hne. destruct (Ascii.eqb_spec c x); [by subst|done]. Qed.

(** The first character of a printed integer. *)
Lemma print_int_head (z : Z) :
  exists c tail, print_int z = String c tail
                 /\ (N_of_ascii c = 45 \/ 48 <= N_of_ascii c <= 57)%N.
Proof.
  destruct z as [|p|p].
  - exists "0"%char, "". split; [reflexivity|]. right. vm_compute. by split.
  - destruct (print_nat_head (Z.to_N (Z.pos p))) as (c & tail & Hc & HD).
    exists c, tail. split; [exact Hc|]. right. by apply digit_range.
  - eexists _, _. split; [reflexivity|]. by left.
Qed.

Lemma dumps_head (v : json) :
  exists c tail, dumps v = String c tail /\ value_start c = true.
Proof.
  destruct v as [|[]|n|s|l|l]; try (eexists _, _; split; reflexivity).
  destruct (print_int_head n) as (c & tail & Hc & Hr).
  exists c, tail. split; [exact Hc|].
  unfold value_start, is_ws.
  rewrite (eqb_by_code c "]") by (vm_compute (N_of_ascii "]"); lia).
  repeat match goal with
         | |- context [N.eqb ?a ?b] => destruct (N.eqb_spec a b); [lia|]
         end.
  reflexivity.
Qed.

Lemma skip_ws_value_start (c : ascii) (tail : string) :
  value_start c = true ->
  skip_ws (String c tail) = String c tail
  /\ after_char "]" (String c tail) = None.
Proof.
  intros [Hws Hb]%andb_true_iff. apply negb_true_iff in Hws, Hb.
  simpl. by rewrite Hws, Hb.
Qed.

Lemma parse_value_int (fuel : nat) (c : ascii) (tail : string) :
  (N_of_ascii c = 45 \/ 48 <= N_of_ascii c <= 57)%N ->
  parse_value (S fuel) (String c tail)
  = ('(n, rest) ← parse_int (String c tail); Some (JInt n, rest)).
Proof.
  intros Hc. simpl.
  rewrite (eqb_by_code c dquote) by (vm_compute (N_of_ascii dquote); lia).
  rewrite (eqb_by_code c "[") by (vm_compute (N_of_ascii "["); lia).
  rewrite (eqb_by_code c "{") by (vm_compute (N_of_ascii "{"); lia).
  rewrite (eqb_by_code c "n") by (vm_compute (N_of_ascii "n"); lia).
  rewrite (eqb_by_code c "t") by (vm_compute (N_of_ascii "t"); lia).
  rewrite (eqb_by_code c "f") by (vm_compute (N_of_ascii "f"); lia).
  reflexivity.
Qed.

(** Decoding what [dumps] printed gives the value back, whatever follows it,
    as long as the fuel covers the printed text. *)
Definition decodes (v : json) : Prop :=
  forall rest fuel,
    tail_ok rest = true -> (String.length (dumps v) <= fuel)%nat ->
    parse_value fuel (dumps v +:+ rest) = Some (v, rest).

Lemma dumps_nonempty (v : json) : (1 <= String.length (dumps v))%nat.
Proof.
  destruct (dumps_head v) as (c & tail & -> & _). simpl. lia.
Qed.

Lemma join_comma_cons (v : json) (l : list json) :
  join_comma (map dumps (v :: l))
  = match l with
    | [] => dumps v
    | _ => dumps v +:+ ", " +:+ join_comma (map dumps l)
    end.
Proof. by destruct l. Qed.

Lemma parse_elements_eq (fuel : nat) (s : string) :
  parse_elements (S fuel) s
  = ('(v, rest) ← parse_value fuel s;
     match after_char "," (skip_ws rest) with
     | Some r =>
         '(l, rest') ← parse_elements fuel (skip_ws r); Some (v :: l, rest')
     | None => r ← after_char "]" (skip_ws rest); Some ([v], r)
     end).
Proof. reflexivity. Qed.

Lemma skip_ws_keep (c : ascii) (x : string) :
  is_ws c = false -> skip_ws (String c x) = String c x.
Proof. intros H. simpl. by rewrite H. Qed.

Lemma skip_ws_space (x : string) : skip_ws (String " " x) = skip_ws x.
Proof. reflexivity. Qed.

Lemma after_char_hit (c : ascii) (x : string) : after_char c (String c x) = Some x.
Proof. simpl. by rewrite Ascii.eqb_refl. Qed.

Lemma skip_ws_dumps (v : json) (x : string) :
  skip_ws (dumps v +:+ x) = dumps v +:+ x
  /\ after_char "]" (dumps v +:+ x) = None.
Proof.
  destruct (dumps_head v) as (c & tail & -> & Hstart).
  rewrite append_cons. by apply skip_ws_value_start.
Qed.

Lemma skip_ws_join (v : json) (l : list json) (x : string) :
  skip_ws (join_comma (map dumps (v :: l)) +:+ x)
  = join_comma (map dumps (v :: l)) +:+ x
  /\ after_char "]" (join_comma (map dumps (v :: l)) +:+ x) = None.
Proof.
  rewrite join_comma_cons. destruct l; [apply skip_ws_dumps|].
  rewrite append_assoc. apply skip_ws_dumps.
Qed.

Lemma parse_elements_dumps (l : list json) :
  l <> [] -> Forall decodes l ->
  forall rest fuel,
    (String.length (join_comma (map dumps l)) < fuel)%nat ->
    parse_elements fuel (join_comma (map dumps l) +:+ String "]" rest)
    = Some (l, rest).
Proof.
  intros Hne Hall. induction Hall as [|v l Hv Hl IH]; [done|].
  intros rest fuel Hfuel. rewrite join_comma_cons in *.
  destruct fuel as [|fuel]; [lia|].
  rewrite parse_elements_eq.
  destruct l as [|v2 l'].
  - rewrite (Hv (String "]" rest) fuel) by (done || lia).
    reflexivity.
  - specialize (IH ltac:(done)).
    set (J := join_comma (map dumps (v2 :: l'))) in *.
    rewrite !length_append in Hfuel.
    change (String.length ", ") with 2%nat in Hfuel.
    pose proof (dumps_nonempty v) as Hlen.
    rewrite !append_assoc.
    change (", " +:+ ?x) with (String "," (String " " x)).
    rewrite (Hv _ fuel) by (done || lia).
    cbn [mbind option_bind].
    rewrite (skip_ws_keep ",") by done.
    rewrite after_char_hit, skip_ws_space.
    subst J. rewrite (proj1 (skip_ws_join v2 l' _)).
    rewrite IH by lia. reflexivity.
Qed.

(** The text of one dictionary entry. *)
Definition member_text (kv : string * json) : string :=
  quoted kv.1 +:+ ": " +:+ dumps kv.2.

Lemma parse_members_eq (fuel : nat) (s : string) :
  parse_members (S fuel) s
  = (r ← after_char dquote s;
     '(k, rest) ← parse_string_body r;
     r1 ← after_char ":" (skip_ws rest);
     '(v, rest1) ← parse_value fuel (skip_ws r1);
     match after_char "," (skip_ws rest1) with
     | Some r2 =>
         '(l, rest2) ← parse_members fuel (skip_ws r2);
         Some ((k, v) :: l, rest2)
     | None => r2 ← after_char "}" (skip_ws rest1); Some ([(k, v)], r2)
     end).
Proof. reflexivity. Qed.

Lemma join_members_cons (kv : string * json) (l : list (string * json)) :
  join_comma (map member_text (kv :: l))
  = match l with
    | [] => member_text kv
    | _ => member_text kv +:+ ", " +:+ join_comma (map member_text l)
    end.
Proof. by destruct l. Qed.

Lemma join_members_head (kv : string * json) (l : list (string * json))
    (x : string) :
  exists tail,
    join_comma (map member_text (kv :: l)) +:+ x = String dquote tail.
Proof.
  rewrite join_members_cons. unfold member_text, quoted.
  destruct l; rewrite !append_cons; by eexists.
Qed.

Lemma member_text_length (kv : string * json) :
  (String.length (dumps kv.2) + 4 <= String.length (member_text kv))%nat.
Proof.
  unfold member_text, quoted. rewrite append_cons. simpl String.length.
  rewrite !length_append. simpl. lia.
Qed.

Lemma parse_members_dumps (l : list (string * json)) :
  l <> [] -> Forall (fun kv => decodes kv.2) l ->
  forall rest fuel,
    (String.length (join_comma (map member_text l)) < fuel)%nat ->
    parse_members fuel (join_comma (map member_text l) +:+ String "}" rest)
    = Some (l, rest).
Proof.
  intros Hne Hall. induction Hall as [|[k v] l Hv Hl IH]; [done|].
  intros rest fuel Hfuel. rewrite join_members_cons in *.
  destruct fuel as [|fuel]; [lia|].
  rewrite parse_members_eq. simpl in Hv.
  pose proof (member_text_length (k, v)) as Hlen.
  change ((k, v).2) with v in Hlen.
  assert (Hstep : forall Y,
            tail_ok Y = true ->
            exists tail,
              member_text (k, v) +:+ Y = String dquote tail
              /\ parse_string_body tail
                 = Some (k, String ":" (String " " (dumps v +:+ Y)))).
  { intros Y HY. unfold member_text. simpl.
    rewrite !append_assoc. apply parse_quoted. }
  destruct l as [|kv2 l'].
  - destruct (Hstep (String "}" rest)) as (tail & -> & Htail); [done|].
    rewrite after_char_hit. cbn [mbind option_bind]. rewrite Htail.
    cbn [mbind option_bind].
    rewrite (skip_ws_keep ":") by done.
    rewrite after_char_hit. cbn [mbind option_bind].
    rewrite skip_ws_space, (proj1 (skip_ws_dumps v _)).
    rewrite (Hv _ fuel) by (done || lia).
    reflexivity.
  - specialize (IH ltac:(done)).
    set (J := join_comma (map member_text (kv2 :: l'))) in *.
    rewrite !length_append in Hfuel.
    change (String.length ", ") with 2%nat in Hfuel.
    rewrite !append_assoc.
    change (", " +:+ ?x) with (String "," (String " " x)).
    destruct (Hstep (String "," (String " " (J +:+ String "}" rest))))
      as (tail & -> & Htail); [done|].
    rewrite after_char_hit. cbn [mbind option_bind]. rewrite Htail.
    cbn [mbind option_bind].
    rewrite (skip_ws_keep ":") by done.
    rewrite after_char_hit. cbn [mbind option_bind].
    rewrite skip_ws_space, (proj1 (skip_ws_dumps v _)).
    rewrite (Hv _ fuel) by (done || lia).
    cbn [mbind option_bind].
    rewrite (skip_ws_keep ",") by done.
    rewrite after_char_hit, skip_ws_space.
    destruct (join_members_head kv2 l' (String "}" rest)) as [tail' Hhead].
    subst J. rewrite Hhead, (skip_ws_keep dquote) by done. rewrite <- Hhead.
    rewrite IH by lia. reflexivity.
Qed.

Lemma dumps_list (l : list json) :
  dumps (JList l) = String "[" (join_comma (map dumps l) +:+ "]").
Proof. reflexivity. Qed.

Lemma dumps_dict (l : list (string * json)) :
  dumps (JDict l) = String "{" (join_comma (map member_text l) +:+ "}").
Proof. reflexivity. Qed.

(** Every value decodes from its printed text. *)
Theorem parse_value_dumps (v : json) : decodes v.
Proof.
  induction v as [|b|n|s|l IH|l IH] using json_induction;
    intros rest fuel Hrest Hfuel.
  - destruct fuel as [|fuel]; [simpl in Hfuel; lia|]. reflexivity.
  - destruct fuel as [|fuel]; [destruct b; simpl in Hfuel; lia|].
    by destruct b.
  - destruct fuel as [|fuel]; [pose proof (dumps_nonempty (JInt n)); lia|].
    destruct (print_int_head n) as (c & tail & Hc & Hr).
    pose proof (parse_int_print n rest Hrest) as Hp.
    simpl dumps. rewrite Hc in *. rewrite append_cons in *.
    by rewrite parse_value_int, Hp.
  - destruct fuel as [|fuel]; [pose proof (dumps_nonempty (JStr s)); lia|].
    destruct (parse_quoted s rest) as (tail & Hq & Hp).
    simpl dumps. rewrite Hq. simpl. by rewrite Hp.
  - destruct fuel as [|fuel]; [pose proof (dumps_nonempty (JList l)); lia|].
    destruct l as [|v l]; [reflexivity|].
    rewrite dumps_list in *.
    set (J := join_comma (map dumps (v :: l))) in *.
    simpl String.length in Hfuel.
    rewrite length_append in Hfuel. simpl String.length in Hfuel.
    rewrite append_cons, append_assoc. subst J.
    change ("]" +:+ rest) with (String "]" rest).
    change (parse_value (S fuel) (String "[" ?r))
      with (match after_char "]" (skip_ws r) with
            | Some rest => Some (JList [], rest)
            | None => '(l, rest) ← parse_elements fuel (skip_ws r);
                      Some (JList l, rest)
            end).
    destruct (skip_ws_join v l (String "]" rest)) as [-> ->].
    rewrite (parse_elements_dumps (v :: l)) by (done || lia).
    reflexivity.
  - destruct fuel as [|fuel]; [pose proof (dumps_nonempty (JDict l)); lia|].
    destruct l as [|kv l]; [reflexivity|].
    rewrite dumps_dict in *.
    set (J := join_comma (map member_text (kv :: l))) in *.
    simpl String.length in Hfuel.
    rewrite length_append in Hfuel. simpl String.length in Hfuel.
    rewrite append_cons, append_assoc. subst J.
    change ("}" +:+ rest) with (String "}" rest).
    change (parse_value (S fuel) (String "{" ?r))
      with (match after_char "}" (skip_ws r) with
            | Some rest => Some (JDict [], rest)
            | None => '(l, rest) ← parse_members fuel (skip_ws r);
                      Some (JDict l, rest)
            end).
    destruct (join_members_head kv l (String "}" rest)) as [tail Hhead].
    rewrite Hhead, (skip_ws_keep dquote) by done.
    change (after_char "}" (String dquote tail)) with (@None string).
    rewrite <- Hhead.
    rewrite (parse_members_dumps (kv :: l)) by (done || lia).
    reflexivity.
Qed.

(** [json.loads(json.dumps(v)) == v]. *)
Theorem loads_dumps (v : json) : loads (dumps v) = Some v.
Proof.
  unfold loads.
  pose proof (proj1 (skip_ws_dumps v "")) as Hws.
  rewrite append_nil_r in Hws. rewrite Hws.
  pose proof (parse_value_dumps v "" (S (String.length (dumps v)))) as Hp.
  rewrite append_nil_r in Hp. rewrite Hp by (done || lia). reflexivity.
Qed.

End JsonSpec.

(** ** The M4 bridge: what is written is what is read *)

Module M4BridgeSpec.
Import M4Bridge.

(** The digests [hashlib.sha256] gives for [b"abc"], for [b""] and for 200
    times [b"a"] (four blocks). *)
Example hexdigest_abc :
  Sha256.hexdigest [Byte.x61; Byte.x62; Byte.x63]
  = "ba7816bf8f01cfea414140de5dae2223b00361a396177a9cb410ff61f20015ad".
Proof. vm_compute. reflexivity. Qed.

Example hexdigest_empty :
  Sha256.hexdigest []
  = "e3b0c44298fc1c149afbf4c8996fb92427ae41e4649b934ca495991b7852b855".
Proof. vm_compute. reflexivity. Qed.

Example hexdigest_four_blocks :
  Sha256.hexdigest (repeat Byte.x61 200)
  = "c2a908d98f5df987ade41b5fce213067efbcc21ef2240212a41e54b5e7c28ae5".
Proof. vm_compute. reflexivity. Qed.

Lemma Z_of_byte_of_Z (z : Z) : Z_of_byte (byte_of_Z z) = z mod 256.
Proof.
  unfold Z_of_byte, byte_of_Z.
  assert (Hr : 0 <= z mod 256 < 256) by (apply Z.mod_pos_bound; lia).
  destruct (Byte.of_N (Z.to_N (z mod 256))) as [b|] eqn:Hb; simpl.
  - apply Byte.to_of_N in Hb. rewrite Hb. lia.
  - apply Byte.of_N_None_iff in Hb. lia.
Qed.

Lemma pack_le32_length (n : Z) (packed : list Byte.byte) :
  pack_le32 n = Some packed -> length packed = 4%nat.
Proof.
  unfold pack_le32. destruct (_ && _); [|discriminate].
  by intros [= <-].
Qed.

Lemma unpack_pack_le32 (n : Z) (packed : list Byte.byte) :
  pack_le32 n = Some packed -> unpack_le32 packed = Some n.
Proof.
  unfold pack_le32. destruct (_ && _) eqn:Hn; [|discriminate].
  intros [= <-]. apply andb_true_iff in Hn as [Hlo Hhi].
  apply Z.leb_le in Hlo. apply Z.ltb_lt in Hhi.
  unfold unpack_le32. rewrite !Z_of_byte_of_Z. f_equal.
  change (2 ^ 8) with 256. change (2 ^ 16) with (256 * 256).
  change (2 ^ 24) with (256 * 256 * 256).
  change (2 ^ 32) with (256 * 256 * 256 * 256) in Hhi.
  rewrite <- !Z.div_div by lia.
  pose proof (Z.div_mod n 256 ltac:(lia)) as H0.
  pose proof (Z.div_mod (n / 256) 256 ltac:(lia)) as H1.
  pose proof (Z.div_mod (n / 256 / 256) 256 ltac:(lia)) as H2.
  assert (H3 : (n / 256 / 256 / 256) mod 256 = n / 256 / 256 / 256).
  { apply Z.mod_small. split.
    - repeat apply Z.div_pos; lia.
    - repeat (apply Z.div_lt_upper_bound; [lia|]). lia. }
  lia.
Qed.

(** A map read or written up to the end of [pre]. *)
Definition at_end_of (pre : list Byte.byte) (rest : list Byte.byte) (m : mmap) : Prop :=
  mm_buf m = pre ++ rest /\ mm_pos m = length pre.

Lemma mm_seek0_at (m : mmap) : at_end_of [] (mm_buf m) (mm_seek0 m).
Proof. by split. Qed.

Lemma mm_write_at (pre rest data : list Byte.byte) (m m' : mmap) :
  at_end_of pre rest m ->
  mm_write data m = Some m' ->
  at_end_of (pre ++ data) (drop (length data) rest) m'
  /\ (length data <= length rest)%nat.
Proof.
  intros [Hbuf Hpos]. unfold mm_write. rewrite Hbuf, Hpos, length_app.
  destruct (_ || _) eqn:Hfit; [discriminate|]. intros [= <-].
  apply orb_false_iff in Hfit as [_ Hfit]. apply Nat.ltb_ge in Hfit.
  split; [|lia]. split; simpl.
  - rewrite take_app_length, drop_app_add. by rewrite <- app_assoc.
  - by rewrite length_app.
Qed.

Lemma mm_write_fits (pre rest data : list Byte.byte) (m : mmap) :
  at_end_of pre rest m ->
  (length data <= length rest)%nat ->
  is_Some (mm_write data m).
Proof.
  intros [Hbuf Hpos] Hfit. unfold mm_write. rewrite Hbuf, Hpos, length_app.
  destruct (_ || _) eqn:Hno; [|by eexists].
  apply orb_true_iff in Hno as [Hno|Hno]; apply Nat.ltb_lt in Hno; lia.
Qed.

Lemma mm_read_at (pre data rest : list Byte.byte) (m : mmap) :
  at_end_of pre (data ++ rest) m ->
  exists m', mm_read (Z.of_nat (length data)) m = (data, m')
             /\ at_end_of (pre ++ data) rest m'.
Proof.
  intros [Hbuf Hpos]. unfold mm_read. rewrite Hbuf, Hpos.
  destruct (Z.ltb_spec (Z.of_nat (length data)) 0) as [?|_]; [lia|].
  rewrite Nat2Z.id, drop_app_length, take_app_length.
  eexists. split; [reflexivity|]. split; simpl.
  - by rewrite <- app_assoc.
  - by rewrite length_app.
Qed.

(** The bytes of the header [write_image_data] stores. *)
Definition header_json (timestamp : string) (image_data : list Byte.byte)
    (metadata : option Json.json) : list Byte.byte :=
  encode (Json.dumps (header_data timestamp image_data metadata)).

Lemma write_all_stored (hdr image_data : list Byte.byte) (m m3 : mmap) :
  write_all hdr image_data m = (true, m3) ->
  exists packed rest,
    pack_le32 (Z.of_nat (length hdr)) = Some packed
    /\ mm_buf m3 = packed ++ hdr ++ image_data ++ rest
    /\ (length packed + length hdr + length image_data + length rest
        = length (mm_buf m))%nat.
Proof.
  unfold write_all.
  destruct (pack_le32 _) as [packed|] eqn:Hpack; [|discriminate].
  destruct (mm_write packed _) as [m1|] eqn:H1; [|discriminate].
  destruct (mm_write hdr m1) as [m2|] eqn:H2; [|discriminate].
  destruct (mm_write image_data m2) as [m3'|] eqn:H3; [|discriminate].
  intros [= <-].
  destruct (mm_write_at _ _ _ _ _ (mm_seek0_at m) H1) as [A1 L1].
  destruct (mm_write_at _ _ _ _ _ A1 H2) as [A2 L2].
  destruct (mm_write_at _ _ _ _ _ A2 H3) as [[A3 _] L3].
  exists packed, (drop (length image_data)
                    (drop (length hdr) (drop (length packed) (mm_buf m)))).
  split; [done|]. split.
  - rewrite A3. simpl. by rewrite <- !app_assoc.
  - rewrite !length_drop in *. simpl in L1. lia.
Qed.

Lemma write_all_fits (hdr image_data : list Byte.byte) (m : mmap) :
  Z.of_nat (length hdr) < 2 ^ 32 ->
  (4 + length hdr + length image_data <= length (mm_buf m))%nat ->
  exists m3, write_all hdr image_data m = (true, m3).
Proof.
  intros Hsmall Hfit. unfold write_all.
  destruct (pack_le32 _) as [packed|] eqn:Hpack; cycle 1.
  { unfold pack_le32 in Hpack.
    destruct (Z.leb_spec 0 (Z.of_nat (length hdr))); [|lia].
    destruct (Z.ltb_spec (Z.of_nat (length hdr)) (2 ^ 32)); [|lia].
    discriminate. }
  pose proof (pack_le32_length _ _ Hpack) as Hlen.
  destruct (mm_write_fits [] (mm_buf m) packed (mm_seek0 m) (mm_seek0_at m))
    as [m1 H1]; [lia|].
  rewrite H1.
  destruct (mm_write_at _ _ _ _ _ (mm_seek0_at m) H1) as [A1 _].
  destruct (mm_write_fits _ _ hdr m1 A1) as [m2 H2];
    [rewrite length_drop; lia|].
  rewrite H2.
  destruct (mm_write_at _ _ _ _ _ A1 H2) as [A2 _].
  destruct (mm_write_fits _ _ image_data m2 A2) as [m3 H3];
    [rewrite !length_drop; lia|].
  rewrite H3. by exists m3.
Qed.

Lemma decode_encode (text : string) : decode (encode text) = text.
Proof. apply string_of_list_byte_of_string. Qed.

(** Reading a segment that holds a header written for [image_data], followed
    by as many bytes [stored]: they come back when their checksum is the
    header's, and nothing comes back otherwise. *)
Lemma read_stored (segment_name timestamp : string) (b : M4SharedMemoryBridge)
    (segment : SharedMemorySegment) (image_data stored : list Byte.byte)
    (metadata : option Json.json) (packed rest : list Byte.byte) :
  segments b !! segment_name = Some segment ->
  pack_le32 (Z.of_nat (length (header_json timestamp image_data metadata)))
    = Some packed ->
  mm_buf (memory_map segment)
    = packed ++ header_json timestamp image_data metadata ++ stored ++ rest ->
  length stored = length image_data ->
  fst (read_image_data segment_name b)
  = if String.eqb (checksum stored) (checksum image_data)
    then (Some stored, Some (or_empty metadata))
    else (None, None).
Proof.
  intros Hseg Hpack Hbuf Hlen.
  unfold read_image_data. rewrite Hseg.
  pose proof (pack_le32_length _ _ Hpack) as Hfour.
  assert (A0 : at_end_of [] (packed ++ header_json timestamp image_data metadata
                             ++ stored ++ rest) (mm_seek0 (memory_map segment))).
  { split; [exact Hbuf|reflexivity]. }
  destruct (mm_read_at _ _ _ _ A0) as (m1 & R1 & A1).
  rewrite Hfour in R1. change (Z.of_nat 4) with 4 in R1. rewrite R1.
  rewrite (unpack_pack_le32 _ _ Hpack).
  destruct (mm_read_at _ _ _ _ A1) as (m2 & R2 & A2). rewrite R2.
  unfold header_json at 1. rewrite decode_encode, JsonSpec.loads_dumps.
  unfold header_data at 1.
  change (Json.dict_lookup "size" _)
    with (Some (Json.JInt (Z.of_nat (length image_data)))).
  change (Json.dict_lookup "checksum" _)
    with (Some (Json.JStr (checksum image_data))).
  change (Json.dict_lookup "metadata" _) with (Some (or_empty metadata)).
  unfold read_sized. rewrite <- Hlen.
  destruct (mm_read_at _ _ _ _ A2) as (m3 & R3 & _). rewrite R3.
  by destruct (String.eqb _ _).
Qed.

Lemma write_image_data_stored (dirs : gset string) (os_ok : bool)
    (timestamp segment_name : string)
    (image_data : list Byte.byte) (metadata : option Json.json)
    (b b1 : M4SharedMemoryBridge) :
  write_image_data dirs os_ok timestamp segment_name image_data metadata b
    = (true, b1) ->
  exists segment packed rest,
    segments b1 !! segment_name = Some segment
    /\ pack_le32 (Z.of_nat (length (header_json timestamp image_data metadata)))
       = Some packed
    /\ mm_buf (memory_map segment)
       = packed ++ header_json timestamp image_data metadata
         ++ image_data ++ rest.
Proof.
  unfold write_image_data.
  destruct (match segments b !! segment_name with
            | Some _ => Some b
            | None => _
            end) as [b0|]; [|discriminate].
  destruct (segments b0 !! segment_name) as [segment|]; [|discriminate].
  fold (header_json timestamp image_data metadata).
  destruct (write_all _ _ _) as [ok m] eqn:Hw.
  destruct ok; [|discriminate]. intros [= <-].
  destruct (write_all_stored _ _ _ _ Hw) as (packed & rest & Hpack & Hbuf & _).
  eexists _, packed, rest. split; [|split; [exact Hpack|]].
  - simpl. apply lookup_insert_eq.
  - exact Hbuf.
Qed.

(** [write_image_data] returns [True] on a name that has a segment when the
    four bytes of the length, the header and the payload fit into it. *)
Lemma write_image_data_fits (dirs : gset string) (os_ok : bool)
    (timestamp segment_name : string)
    (image_data : list Byte.byte) (metadata : option Json.json)
    (b : M4SharedMemoryBridge) (segment : SharedMemorySegment) :
  segments b !! segment_name = Some segment ->
  (4 + length (header_json timestamp image_data metadata) + length image_data
   <= length (mm_buf (memory_map segment)))%nat ->
  Z.of_nat (length (header_json timestamp image_data metadata)) < 2 ^ 32 ->
  exists b1,
    write_image_data dirs os_ok timestamp segment_name image_data metadata b
    = (true, b1).
Proof.
  intros Hseg Hfit Hsmall. unfold write_image_data. rewrite Hseg, Hseg.
  fold (header_json timestamp image_data metadata).
  destruct (write_all_fits (header_json timestamp image_data metadata) image_data
              (memory_map segment) Hsmall Hfit) as [m3 ->].
  by eexists.
Qed.

(** One byte of a segment's map replaced, as any process mapping the file
    can do. *)
Definition overwrite (segment_name : string) (offset : nat) (value : Byte.byte)
    (b : M4SharedMemoryBridge) : M4SharedMemoryBridge := {|
  segments :=
    alter (fun segment =>
             with_map segment
               {| mm_buf := <[offset := value]> (mm_buf (memory_map segment));
                  mm_pos := mm_pos (memory_map segment) |})
          segment_name (segments b);
  operations := operations b;
  bytes_transferred := bytes_transferred b;
  zero_copy_operations := zero_copy_operations b
|}.

(** The ["checksum"] entry of the header a map holds: the header is the JSON
    text after the first four bytes, which give its length. *)
Definition stored_checksum (m : mmap) : option Json.json :=
  match unpack_le32 (take 4 (mm_buf m)) with
  | Some header_size =>
      match Json.loads (decode (take (Z.to_nat header_size) (drop 4 (mm_buf m)))) with
      | Some (Json.JDict fields) => Json.dict_lookup "checksum" fields
      | _ => None
      end
  | None => None
  end.

(** The [n] bytes a map holds after its header. *)
Definition stored_payload (m : mmap) (n : nat) : list Byte.byte :=
  match unpack_le32 (take 4 (mm_buf m)) with
  | Some header_size => take n (drop (4 + Z.to_nat header_size) (mm_buf m))
  | None => []
  end.

Definition is_hex (c : ascii) : bool :=
  let n := nat_of_ascii c in
  ((48 <=? n) && (n <=? 57) || (97 <=? n) && (n <=? 102))%nat.

(** A text of 16 hexadecimal digits. *)
Definition hex16 (text : string) : bool :=
  (String.length text =? 16)%nat && forallb is_hex (list_ascii_of_string text).

Lemma hex_digit_is_hex (n : N) : is_hex (Json.hex_digit n) = true.
Proof.
  destruct n as [|p]; [done|].
  do 4 (destruct p as [p|p|]; try done).
Qed.

Lemma checksum_hex16 (data : list Byte.byte) : hex16 (checksum data) = true.
Proof.
  unfold checksum, Sha256.hexdigest, Sha256.hex8.
  generalize (Sha256.sha256 data). intros s.
  cbn [String.substring]. unfold hex16.
  cbn [String.length list_ascii_of_string forallb Nat.eqb andb].
  by rewrite !hex_digit_is_hex.
Qed.

Lemma stored_layout (packed hdr rest : list Byte.byte) (m : mmap) :
  pack_le32 (Z.of_nat (length hdr)) = Some packed ->
  mm_buf m = packed ++ hdr ++ rest ->
  unpack_le32 (take 4 (mm_buf m)) = Some (Z.of_nat (length hdr))
  /\ take (length hdr) (drop 4 (mm_buf m)) = hdr
  /\ drop (4 + length hdr) (mm_buf m) = rest.
Proof.
  intros Hpack ->. pose proof (pack_le32_length _ _ Hpack) as Hfour.
  rewrite <- Hfour, take_app_length, drop_app_length, take_app_length.
  split; [by apply unpack_pack_le32|]. split; [done|].
  by rewrite <- drop_drop, drop_app_length, drop_app_length.
Qed.

Lemma overwrite_stored (segment_name : string) (b : M4SharedMemoryBridge)
    (segment : SharedMemorySegment) (pre data rest : list Byte.byte)
    (i : nat) (value : Byte.byte) :
  segments b !! segment_name = Some segment ->
  mm_buf (memory_map segment) = pre ++ data ++ rest ->
  (i < length data)%nat ->
  exists segment',
    segments (overwrite segment_name (length pre + i) value b) !! segment_name
      = Some segment'
    /\ mm_buf (memory_map segment') = pre ++ <[i := value]> data ++ rest.
Proof.
  intros Hseg Hbuf Hi. eexists. split.
  - unfold overwrite. cbn [segments]. rewrite lookup_alter_eq, Hseg. reflexivity.
  - cbn [with_map memory_map mm_buf]. rewrite Hbuf.
    rewrite insert_app_r. by rewrite insert_app_l.
Qed.

(** What [read_image_data] returns after a write that returned [True]: the
    payload and the metadata written.  The segment then holds, after the
    four bytes of the little-endian header length, a JSON header whose
    ["checksum"] is the checksum of the payload, 16 hexadecimal digits, and
    the payload itself.  After a byte of the stored payload is replaced, the
    read returns [(None, None)] unless the changed payload has the checksum
    of the header (the first 64 bits of SHA-256), in which case it returns
    the changed payload. *)
Lemma read_after_write (dirs : gset string) (os_ok : bool)
    (timestamp segment_name : string) (image_data : list Byte.byte)
    (metadata : option Json.json) (b b1 : M4SharedMemoryBridge) :
  write_image_data dirs os_ok timestamp segment_name image_data metadata b
    = (true, b1) ->
  fst (read_image_data segment_name b1)
    = (Some image_data, Some (or_empty metadata))
  /\ (exists segment,
        segments b1 !! segment_name = Some segment
        /\ stored_checksum (memory_map segment)
           = Some (Json.JStr (checksum image_data))
        /\ stored_payload (memory_map segment) (length image_data) = image_data)
  /\ hex16 (checksum image_data) = true
  /\ forall (i : nat) (new : Byte.byte),
       (i < length image_data)%nat ->
       fst (read_image_data segment_name
              (overwrite segment_name
                 (4 + length (header_json timestamp image_data metadata) + i)
                 new b1))
       = if String.eqb (checksum (<[i := new]> image_data)) (checksum image_data)
         then (Some (<[i := new]> image_data), Some (or_empty metadata))
         else (None, None).
Proof.
  intros Hwrite.
  destruct (write_image_data_stored _ _ _ _ _ _ _ _ Hwrite)
    as (segment & packed & rest & Hseg & Hpack & Hbuf).
  pose proof (pack_le32_length _ _ Hpack) as Hfour.
  split; [|split; [|split]].
  - rewrite (read_stored _ _ _ _ _ _ _ _ _ Hseg Hpack Hbuf eq_refl).
    by rewrite String.eqb_refl.
  - exists segment. split; [exact Hseg|].
    destruct (stored_layout _ _ _ _ Hpack Hbuf) as (Hsize & Hhdr & Hrest).
    unfold stored_checksum, stored_payload.
    rewrite Hsize, Nat2Z.id, Hhdr, Hrest. split.
    + unfold header_json. by rewrite decode_encode, JsonSpec.loads_dumps.
    + apply take_app_length.
  - apply checksum_hex16.
  - intros i new Hi.
    rewrite app_assoc in Hbuf.
    destruct (overwrite_stored segment_name b1 segment _ _ _ i new Hseg Hbuf Hi)
      as (segment' & Hseg' & Hbuf').
    rewrite length_app, Hfour in Hseg'.
    rewrite <- app_assoc in Hbuf'.
    by rewrite (read_stored _ _ _ _ _ _ _ _ _ Hseg' Hpack Hbuf')
      by apply length_insert.
Qed.

(** C1 at the input that breaks it.  The constructor makes the directories
    [images], [metadata], [performance] and [cache]; [write_image_data]
    creates the segment of a new name under [image].  On a bridge whose base
    path had no directory [image] before, whatever the payload and whatever
    else the operating system allows:
    - [write_image_data] on a name without a segment returns [False] and
      leaves the bridge as it was, so that [read_image_data] returns
      [(None, None)] and not the payload;
    - the same segment is created when the directory asked for is [images],
      and [write_image_data] then returns [True] and [read_image_data] the
      payload, for a header of at most 1020 bytes. *)
Theorem write_to_new_segment_fails (present : gset string) (os_ok : bool)
    (timestamp segment_name : string) (image_data : list Byte.byte)
    (metadata : option Json.json) (b : M4SharedMemoryBridge) :
  "image" ∉ present ->
  segments b !! segment_name = None ->
  let dirs := _setup_shared_memory_infrastructure present in
  let size := Z.of_nat (length image_data) + 1024 in
  write_image_data dirs os_ok timestamp segment_name image_data metadata b
    = (false, b)
  /\ fst (read_image_data segment_name
            (snd (write_image_data dirs os_ok timestamp segment_name image_data
                    metadata b)))
     = (None, None)
  /\ exists b0,
       create_shared_segment dirs true segment_name size "images" b = Some b0
       /\ ((length (header_json timestamp image_data metadata) <= 1020)%nat ->
           exists b1,
             write_image_data dirs os_ok timestamp segment_name image_data
               metadata b0 = (true, b1)
             /\ fst (read_image_data segment_name b1)
                = (Some image_data, Some (or_empty metadata))).
Proof.
  intros Hdir Hnew dirs size.
  assert (Himage : bool_decide ("image" ∈ dirs) = false).
  { apply bool_decide_eq_false. subst dirs.
    unfold _setup_shared_memory_infrastructure.
    rewrite elem_of_union, elem_of_list_to_set. intros [?|Hin]; [done|].
    unfold subdirs in Hin. rewrite !elem_of_cons, elem_of_nil in Hin.
    by destruct Hin as [?|[?|[?|[?|?]]]]. }
  assert (Himages : bool_decide ("images" ∈ dirs) = true).
  { apply bool_decide_eq_true. subst dirs.
    unfold _setup_shared_memory_infrastructure.
    rewrite elem_of_union, elem_of_list_to_set. right. by left. }
  assert (Hwrite : write_image_data dirs os_ok timestamp segment_name image_data
                     metadata b = (false, b)).
  { unfold write_image_data, create_shared_segment.
    by rewrite Hnew, Himage. }
  split; [exact Hwrite|]. split.
  { rewrite Hwrite. unfold read_image_data. cbn [snd]. by rewrite Hnew. }
  unfold create_shared_segment. rewrite Himages.
  destruct (Z.ltb_spec 0 size) as [_|?]; [|subst size; lia].
  set (segment := {| name := segment_name; seg_size := size;
                     memory_map := {| mm_buf := repeat Byte.x00 (Z.to_nat size);
                                      mm_pos := 0 |};
                     access_count := 0 |}).
  exists (set_segment segment b). split; [reflexivity|]. intros Hhdr.
  destruct (write_image_data_fits dirs os_ok timestamp segment_name image_data
              metadata (set_segment segment b) segment) as [b1 Hb1].
  - cbn [set_segment segments name segment]. apply lookup_insert_eq.
  - cbn [memory_map mm_buf segment]. rewrite repeat_length. subst size. lia.
  - change (2 ^ 32) with 4294967296. lia.
  - exists b1. split; [exact Hb1|].
    by destruct (read_after_write _ _ _ _ _ _ _ _ Hb1) as [-> _].
Qed.

(** A payload of three bytes. *)
Definition sample_payload : list Byte.byte := [Byte.x78; Byte.x79; Byte.x7a].

(** The directories of a bridge made on an empty base path, and of one made
    on a base path that held a directory [image] already. *)
Definition constructed : gset string := _setup_shared_memory_infrastructure ∅.
Definition with_image : gset string :=
  _setup_shared_memory_infrastructure {["image"]}.

Lemma write_to_new_segment_fails_witness :
  write_image_data constructed true "2025-01-01T00:00:00" "test_image"
    sample_payload None new_bridge
  = (false, new_bridge)
  /\ fst (read_image_data "test_image"
            (snd (write_image_data constructed true "2025-01-01T00:00:00"
                    "test_image" sample_payload None new_bridge)))
     = (None, None).
Proof.
  destruct (write_to_new_segment_fails ∅ true "2025-01-01T00:00:00" "test_image"
              sample_payload None new_bridge) as (Hwrite & Hread & _);
    [apply not_elem_of_empty|reflexivity|].
  split; [exact Hwrite|exact Hread].
Defined.

(** On a base path that holds a directory [image] the payload written is
    read back, and a changed byte is detected. *)
Example round_trip_with_image_directory :
  let written :=
    snd (write_image_data with_image true "2025-01-01T00:00:00" "frame"
           sample_payload None new_bridge) in
  fst (read_image_data "frame" written)
    = (Some sample_payload, Some (Json.JDict []))
  /\ fst (read_image_data "frame"
            (overwrite "frame"
               (4 + length (header_json "2025-01-01T00:00:00" sample_payload None)
                + 0)
               Byte.x61 written))
     = (None, None).
Proof. vm_compute. split; reflexivity. Qed.

(** With a header of more than 1020 bytes the write into a new segment
    fails there too, and there is nothing to read. *)
Example oversized_header_write_fails :
  let metadata :=
    Some (Json.JDict [("note", Json.JStr (string_of_list_ascii
                                            (repeat "n"%char 1024)))]) in
  let written :=
    write_image_data with_image true "2025-01-01T00:00:00" "frame"
      sample_payload metadata new_bridge in
  fst written = false
  /\ fst (read_image_data "frame" (snd written)) = (None, None).
Proof. vm_compute. split; reflexivity. Qed.

End M4BridgeSpec.

(** ** Readings, allocation and recommendations of the resource monitor *)

Module UtilizationMonitorSpec.
Import ResourceMonitor UtilizationMonitor.

Lemma calculate_ane_utilization_lookup (cpu : Q) :
  dict_get (_calculate_ane_utilization cpu) "ane_usage" 0 = Qmin 100 (cpu * 2)
  /\ dict_get (_calculate_ane_utilization cpu) "throughput" 0
     = Qmax 0 (100 - Qmin 100 (cpu * 2))
  /\ dict_get (_calculate_ane_utilization cpu) "efficiency_score" 0
     = Qmin 100 (Qmax 0 (100 - Qmin 100 (cpu * 2))
                 / Qmax 1 (Qmin 100 (cpu * 2)) * 10).
Proof. split; [|split]; reflexivity. Qed.

(** X1. The estimates of [_calculate_ane_utilization] for a CPU share that is
    not negative: usage and throughput are percentages that add up to 100,
    and the efficiency score lies between 0 and 100. *)
Theorem ane_utilization_estimates (cpu : Q) :
  (0 <= cpu)%Q ->
  let u := _calculate_ane_utilization cpu in
  (0 <= dict_get u "ane_usage" 0 <= 100
   /\ 0 <= dict_get u "throughput" 0 <= 100
   /\ dict_get u "ane_usage" 0 + dict_get u "throughput" 0 == 100
   /\ 0 <= dict_get u "efficiency_score" 0 <= 100)%Q.
Proof.
  intros Hcpu u. subst u.
  destruct (calculate_ane_utilization_lookup cpu) as (-> & -> & ->).
  set (usage := Qmin 100 (cpu * 2)).
  assert (Hu : (0 <= usage <= 100)%Q).
  { split; [|apply Q.le_min_l].
    apply Q.min_glb; [discriminate|].
    apply Qmult_le_0_compat; [exact Hcpu|discriminate]. }
  assert (Ht : (Qmax 0 (100 - usage) == 100 - usage)%Q).
  { apply Q.max_r. destruct Hu as [_ Hu].
    apply (Qplus_le_r _ _ usage). ring_simplify. exact Hu. }
  assert (Ht0 : (0 <= Qmax 0 (100 - usage))%Q) by apply Q.le_max_l.
  split; [exact Hu|]. split; [|split].
  - split; [exact Ht0|]. rewrite Ht.
    apply (Qplus_le_r _ _ usage). ring_simplify.
    apply (Qplus_le_r _ _ (-100)). ring_simplify. apply Hu.
  - rewrite Ht. ring.
  - split; [|apply Q.le_min_l].
    apply Q.min_glb; [discriminate|].
    apply Qmult_le_0_compat; [|discriminate].
    apply Qle_shift_div_l.
    + apply Qlt_le_trans with 1%Q; [reflexivity|apply Q.le_max_l].
    + ring_simplify. exact Ht0.
Qed.

Lemma ane_utilization_estimates_witness :
  (dict_get (_calculate_ane_utilization 10) "ane_usage" 0
   + dict_get (_calculate_ane_utilization 10) "throughput" 0 == 100)%Q.
Proof.
  apply (ane_utilization_estimates 10). discriminate.
Defined.

(** The CPU share [_calculate_ane_utilization] works from: that of the
    second probe, 0 when it raised. *)
Definition probed_cpu (second : option Probe) : Q :=
  match second with
  | Some p => process_cpu p
  | None => 0%Q
  end.

Lemma current_utilization_lookup (first second : option Probe) (now : Q)
    (n : nat) (history : list ANEUtilization) :
  let u := fst (get_current_utilization first second now n history) in
  dict_get u "ane_usage" 0 = Qmin 100 (probed_cpu second * 2)
  /\ dict_get u "ane_temperature" 0 = 0%Q
  /\ dict_get u "queue_depth" 0 = 0%Q.
Proof.
  destruct first as [p1|], second as [p2|]; repeat split; reflexivity.
Qed.

(** X2. [should_throttle] on the reading [get_current_utilization] produces:
    that reading has no temperature and a queue depth of 0, so the answer is
    true exactly when throttling is adaptive and the usage estimate,
    [min(100, 2 * process_cpu)], exceeds the threshold (or the queue size is
    negative); the first probe, the clock and the history play no part. *)
Theorem should_throttle_on_current_utilization (m : ANEResourceMonitor)
    (first second : option Probe) (now : Q) (n : nat)
    (history : list ANEUtilization) :
  should_throttle m (fst (get_current_utilization first second now n history))
    = true
  <-> adaptive_throttling m = true
      /\ ((throttle_threshold (current_allocation m)
           < Qmin 100 (probed_cpu second * 2))%Q
          \/ priority_queue_size (current_allocation m) < 0).
Proof.
  destruct (current_utilization_lookup first second now n history)
    as (Husage & Htemp & Hdepth).
  unfold should_throttle, throttle_conditions.
  rewrite Husage, Htemp, Hdepth.
  destruct (adaptive_throttling m); cbn [negb]; [|split; [discriminate|]].
  2: { intros [? _]. discriminate. }
  change (Qgtb 0 80) with false. cbn [existsb].
  rewrite orb_false_l, orb_false_r, orb_true_iff, !Qgtb_lt.
  split.
  - intros [H|H]; (split; [reflexivity|]); [left; exact H|right].
    unfold Qlt, Qmult, inject_Z in H. simpl in H. lia.
  - intros [_ [H|H]]; [left; exact H|right].
    unfold Qlt, Qmult, inject_Z. simpl. lia.
Qed.

(** The limits [_calculate_optimal_allocation] works within. *)
Definition within_bounds (a : ResourceAllocation) : Prop :=
  4 <= max_concurrent_requests a <= 15
  /\ 2 <= batch_size_recommendation a <= 15
  /\ (7 # 10 <= throttle_threshold a)%Q.

(** What one allocation keeps of another: the queue size and the memory
    limit, and a threshold that has not grown. *)
Definition tightened (a a' : ResourceAllocation) : Prop :=
  priority_queue_size a' = priority_queue_size a
  /\ memory_limit_mb a' = memory_limit_mb a
  /\ (throttle_threshold a' <= throttle_threshold a)%Q.

Lemma calculate_optimal_allocation_keeps (a : ResourceAllocation)
    (load_analysis : LoadAnalysis) :
  within_bounds a ->
  within_bounds (_calculate_optimal_allocation a load_analysis)
  /\ tightened a (_calculate_optimal_allocation a load_analysis).
Proof.
  intros (Hmc & Hbs & Hthr). unfold _calculate_optimal_allocation.
  destruct (_ && _); [|destruct (_ && _)];
    unfold within_bounds, tightened; cbn;
    repeat split; try lia; try apply Qle_refl; try exact Hthr.
  - apply Q.le_max_l.
  - apply Q.max_lub; [exact Hthr|].
    apply (Qplus_le_r _ _ (5 # 100)). ring_simplify.
    apply (Qplus_le_r _ _ (- throttle_threshold a)). ring_simplify.
    discriminate.
Qed.

(** X3. Every turn of [_resource_optimization_loop], whatever the host reports
    and whatever the history holds, keeps an allocation within its limits
    (4 to 15 concurrent requests, a batch size of 2 to 15, a threshold of at
    least 0.7), never changes the queue size or the memory limit, and never
    raises the throttle threshold. *)
Theorem optimization_keeps_allocation_bounded (history_size : nat)
    (hosts : list (option Probe * option Probe * Q))
    (history : list ANEUtilization) (a : ResourceAllocation) :
  within_bounds a ->
  let a' := snd (foldl (optimization_cycle history_size) (history, a) hosts) in
  within_bounds a' /\ tightened a a'.
Proof.
  intros Ha. cbn zeta. revert history a Ha.
  induction hosts as [|[[first second] now] hosts IH]; intros history a Ha.
  - repeat split; try apply Ha; apply Qle_refl.
  - cbn [foldl].
    set (h1 := snd (get_current_utilization first second now history_size history)).
    change (optimization_cycle history_size (history, a) (first, second, now))
      with (h1, optimize_allocation h1 a).
    destruct (calculate_optimal_allocation_keeps a (_analyze_load_patterns h1) Ha)
      as [Hb (Hq & Hm & Ht)].
    fold (optimize_allocation h1 a) in Hb, Hq, Hm, Ht.
    destruct (IH h1 (optimize_allocation h1 a) Hb) as [Hb' (Hq' & Hm' & Ht')].
    split; [exact Hb'|]. repeat split.
    + by rewrite Hq'.
    + by rewrite Hm'.
    + eapply Qle_trans; eassumption.
Qed.

(** A busy host: the process takes 45% of a CPU, the usage estimate is 90. *)
Definition busy_probe : Probe := {|
  cpu_percent := 60; memory_percent := 50; memory_available := 1073741824;
  process_rss := 104857600; process_cpu := 45; load_average := 2
|}.

Definition busy_hosts : list (option Probe * option Probe * Q) :=
  [(Some busy_probe, Some busy_probe, 1%Q);
   (Some busy_probe, Some busy_probe, 2%Q)].

Lemma optimization_keeps_allocation_bounded_witness :
  tightened default_allocation
    (snd (foldl (optimization_cycle 1000) ([], default_allocation) busy_hosts)).
Proof.
  apply (optimization_keeps_allocation_bounded 1000 busy_hosts [] default_allocation).
  repeat split; (lia || discriminate).
Defined.

(** On the busy host two turns lower the threshold from 0.85 to 0.75. *)
Example busy_hosts_lower_threshold :
  (throttle_threshold
     (snd (foldl (optimization_cycle 1000) ([], default_allocation) busy_hosts))
   == 75 # 100)%Q.
Proof. vm_compute. reflexivity. Qed.

Lemma length_last_n {A} (n : nat) (l : list A) :
  length (last_n n l) = Nat.min n (length l).
Proof. unfold last_n. rewrite length_drop. lia. Qed.

(** The types of the recommendations given. *)
Definition recommended_types (r : Recommendations) : list string :=
  map rec_type (recommendations r).

(** X4. [get_performance_recommendations] for any history and allocation: the
    confidence lies between 0 and 1 and is 1 exactly from 20 readings on;
    there are at most two recommendations, none without history, and never
    both a larger and a smaller batch size; an increase never recommends
    more than 20, a decrease never less than 1, and the concurrency never
    less than 4. *)
Theorem recommendations_are_consistent (history : list ANEUtilization)
    (allocation : ResourceAllocation) :
  let r := get_performance_recommendations history allocation in
  (0 <= confidence r <= 1)%Q
  /\ ((confidence r == 1)%Q <-> (20 <= length history)%nat)
  /\ (length (recommendations r) <= 2)%nat
  /\ (history = [] -> recommendations r = [])
  /\ ~ ("increase_batch_size" ∈ recommended_types r
        /\ "decrease_batch_size" ∈ recommended_types r)
  /\ Forall (fun c =>
       (rec_type c = "increase_batch_size" -> recommended c <= 20)
       /\ (rec_type c = "decrease_batch_size" -> 1 <= recommended c)
       /\ (rec_type c = "optimize_concurrent_requests" -> 4 <= recommended c))
       (recommendations r).
Proof.
  destruct history as [|u history].
  { cbn. split; [split; discriminate|].
    split; [split; [intros H; vm_compute in H; discriminate|lia]|].
    split; [lia|]. split; [reflexivity|].
    split; [|constructor].
    intros [H _]. by apply elem_of_nil in H. }
  cbn zeta. unfold get_performance_recommendations.
  set (recent := last_n 20 (u :: history)).
  assert (Hlen : length recent = Nat.min 20 (length (u :: history)))
    by apply length_last_n.
  set (a := mean (map ane_usage recent)). set (e := mean (map efficiency_score recent)).
  cbn [confidence recommendations]. unfold recommended_types.
  cbn [recommendations].
  assert (Hpos : (1 <= length recent <= 20)%nat) by (cbn [length] in Hlen; lia).
  assert (Hq : (0 <= inject_Z (Z.of_nat (length recent)) / 20 <= 1)%Q).
  { unfold Qle, Qdiv, Qmult, Qinv, inject_Z. simpl. lia. }
  split; [|split; [|split; [|split; [|split]]]].
  - split.
    + apply Q.min_glb; [discriminate|apply Hq].
    + apply Q.le_min_l.
  - rewrite Q.min_r by apply Hq. unfold Qeq, Qdiv, Qmult, Qinv, inject_Z.
    simpl. cbn [length] in *. lia.
  - destruct (Qltb a _); [|destruct (Qgtb a _)]; destruct (Qltb e _);
      cbn; lia.
  - discriminate.
  - destruct (Qltb a _); [|destruct (Qgtb a _)]; destruct (Qltb e _); cbn;
      intros [H1 H2];
      repeat (apply elem_of_cons in H1 as [H1|H1]; [discriminate H1|]);
      repeat (apply elem_of_cons in H2 as [H2|H2]; [discriminate H2|]);
      first [by apply elem_of_nil in H1 | by apply elem_of_nil in H2].
  - destruct (Qltb a _); [|destruct (Qgtb a _)]; destruct (Qltb e _); cbn;
      repeat (apply List.Forall_cons; [cbn; repeat split; intros; (lia || discriminate)|]);
      apply List.Forall_nil.
Qed.

End UtilizationMonitorSpec.

(** ** Batches of the optimizer: what they hold *)

Module BatchPartitionSpec.
Import BatchOptimizer.

(** The slices [l[0:s], l[s:2s], ...] taken by the batching loops. *)
Definition chunks {A} (s count : nat) (l : list A) : list (list A) :=
  map (fun j => take s (drop (j * s) l)) (seq 0 count).

Lemma chunks_from_concat {A} (s : nat) (l : list A) (count start : nat) :
  concat (map (fun j => take s (drop (j * s) l)) (seq start count))
  = take (count * s) (drop (start * s) l).
Proof.
  revert start. induction count as [|count IH]; intros start; [done|].
  cbn [seq map concat]. rewrite IH.
  replace (S start * s)%nat with (start * s + s)%nat by lia.
  rewrite <- drop_drop, take_take_drop. f_equal.
Qed.

Lemma chunks_concat {A} (s count : nat) (l : list A) :
  (length l <= count * s)%nat -> concat (chunks s count l) = l.
Proof.
  intros Hlen. unfold chunks. rewrite chunks_from_concat. cbn [Nat.mul drop].
  by apply take_ge.
Qed.

Lemma chunks_each {A} (s count : nat) (l c : list A) :
  (0 < s)%nat -> ((count - 1) * s < length l)%nat -> c ∈ chunks s count l ->
  c <> [] /\ (length c <= s)%nat /\ forall x, x ∈ c -> x ∈ l.
Proof.
  intros Hs Hcount Hin. unfold chunks in Hin.
  apply list_elem_of_fmap in Hin as (j & -> & Hj).
  apply elem_of_seq in Hj. split; [|split].
  - intros Hnil. apply (f_equal length) in Hnil.
    rewrite length_take, length_drop in Hnil. cbn in Hnil. nia.
  - rewrite length_take. lia.
  - intros x Hx. eapply subseteq_drop, subseteq_take, Hx.
Qed.

(** The number of turns of [range(0, n, s)] for a positive [s]. *)
Definition turns (n s : Z) : nat := Z.to_nat ((n + s - 1) / s).

Lemma chunk_batches_requests (label : string) (rs : list Request) (size : Z)
    (target : Q) :
  0 < size ->
  exists bs, chunk_batches label rs size target = Some bs
    /\ map requests bs
       = chunks (Z.to_nat size) (turns (Z.of_nat (length rs)) size) rs
    /\ Forall (fun b => batch_priority b = label) bs.
Proof.
  intros Hsize. unfold chunk_batches, py_range.
  destruct (Z.eqb_spec size 0) as [?|_]; [lia|].
  destruct (Z.ltb_spec 0 size) as [_|?]; [|lia].
  eexists. split; [reflexivity|]. split.
  - unfold chunks, turns. rewrite !map_map.
    replace (Z.of_nat (length rs) - 0 + size - 1)
      with (Z.of_nat (length rs) + size - 1) by lia.
    apply map_ext. intros j. cbn [requests]. unfold py_slice.
    replace (Z.to_nat (0 + Z.of_nat j * size)) with (j * Z.to_nat size)%nat by lia.
    f_equal. lia.
  - apply List.Forall_forall. intros b Hb.
    apply in_map_iff in Hb as (i & <- & _). reflexivity.
Qed.

Lemma turns_cover (n : nat) (s : Z) :
  0 < s ->
  (n <= turns (Z.of_nat n) s * Z.to_nat s)%nat
  /\ (n <> 0%nat -> ((turns (Z.of_nat n) s - 1) * Z.to_nat s < n)%nat)
  /\ (n = 0%nat -> turns (Z.of_nat n) s = 0%nat).
Proof.
  intros Hs. unfold turns.
  pose proof (Z.div_mod (Z.of_nat n + s - 1) s ltac:(lia)) as Hdm.
  pose proof (Z.mod_pos_bound (Z.of_nat n + s - 1) s Hs) as Hm.
  set (q := (Z.of_nat n + s - 1) / s) in *.
  assert (Hq : 0 <= q) by (apply Z.div_pos; lia).
  split; [|split].
  - nia.
  - intros Hn. nia.
  - intros ->. subst q. rewrite Z.div_small by lia. reflexivity.
Qed.

Lemma level_append_concat (level : string) (r : Request)
    (groups : list (string * list Request)) :
  concat (map snd (level_append level r groups))
  ≡ₚ r :: concat (map snd groups).
Proof.
  induction groups as [|[l members] rest IH]; [done|].
  cbn [level_append]. destruct (String.eqb l level); cbn [map snd concat].
  - rewrite <- app_assoc. cbn [app].
    by rewrite <- Permutation_middle.
  - rewrite IH. by rewrite <- Permutation_middle.
Qed.

Lemma level_groups_concat (rs : list Request)
    (groups : list (string * list Request)) :
  concat (map snd (foldl (fun g r => level_append (get_level r) r g) groups rs))
  ≡ₚ concat (map snd groups) ++ rs.
Proof.
  revert groups. induction rs as [|r rs IH]; intros groups; cbn [foldl].
  - by rewrite app_nil_r.
  - rewrite IH, level_append_concat. by rewrite <- Permutation_middle.
Qed.

(** What the inner loop of [_group_similar_requests] has gathered: the
    groups already closed, then the current one. *)
Definition gathered (st : list (list Request) * list Request * option string)
    : list Request :=
  concat (fst (fst st)) ++ snd (fst st).

Lemma size_step_gathered st (r : Request) :
  gathered (size_step st r) = gathered st ++ [r].
Proof.
  destruct st as [[final current] [cat|]]; unfold gathered, size_step;
    cbn [fst snd].
  - destruct (String.eqb cat _); cbn [fst snd].
    + by rewrite app_assoc.
    + destruct current as [|x current]; cbn [fst snd].
      * by rewrite app_nil_r.
      * by rewrite concat_app; cbn [concat]; rewrite app_nil_r.
  - by rewrite app_assoc.
Qed.

Lemma foldl_size_step_gathered (rs : list Request) st :
  gathered (foldl size_step st rs) = gathered st ++ rs.
Proof.
  revert st. induction rs as [|r rs IH]; intros st; cbn [foldl].
  - by rewrite app_nil_r.
  - rewrite IH, size_step_gathered, <- app_assoc. reflexivity.
Qed.

Lemma group_level_concat (final_groups : list (list Request))
    (level_requests : list Request) :
  concat (group_level final_groups level_requests)
  = concat final_groups ++ sort_by image_len level_requests.
Proof.
  unfold group_level.
  pose proof (foldl_size_step_gathered (sort_by image_len level_requests)
                (final_groups, [], None)) as H.
  destruct (foldl size_step _ _) as [[final current] cat].
  unfold gathered in H. cbn [fst snd] in H. rewrite app_nil_r in H.
  destruct current as [|x current].
  - by rewrite app_nil_r in H.
  - by rewrite concat_app; cbn [concat]; rewrite app_nil_r.
Qed.

Lemma foldl_group_level_concat (level_groups : list (string * list Request))
    (acc : list (list Request)) :
  concat (foldl (fun acc lg => group_level acc (snd lg)) acc level_groups)
  ≡ₚ concat acc ++ concat (map snd level_groups).
Proof.
  revert acc. induction level_groups as [|[l members] rest IH]; intros acc;
    cbn [foldl map concat snd].
  - by rewrite app_nil_r.
  - rewrite IH, group_level_concat, <- app_assoc.
    by rewrite (sort_by_perm image_len members).
Qed.

(** The groups of [_group_similar_requests] hold the requests given, each
    once. *)
Lemma group_similar_requests_concat (rs : list Request) :
  concat (_group_similar_requests rs) ≡ₚ rs.
Proof.
  unfold _group_similar_requests.
  pose proof (foldl_group_level_concat
                (foldl (fun g r => level_append (get_level r) r g) [] rs) [])
    as H.
  rewrite level_groups_concat in H. cbn [map concat app] in H.
  destruct (foldl (fun acc lg => group_level acc lg.2) [] _) as [|g gs].
  - cbn [concat]. by rewrite app_nil_r.
  - exact H.
Qed.

(** No group is empty, the one that stands for an empty input apart. *)
Definition closed_groups_full
    (st : list (list Request) * list Request * option string) : Prop :=
  Forall (fun g => g <> []) (fst (fst st)).

Lemma size_step_full st (r : Request) :
  closed_groups_full st -> closed_groups_full (size_step st r).
Proof.
  destruct st as [[final current] [cat|]]; unfold closed_groups_full, size_step;
    cbn [fst snd]; [|done].
  destruct (String.eqb cat _); cbn [fst snd]; [done|].
  destruct current as [|x current]; [done|].
  intros H. apply Forall_app. split; [exact H|]. by constructor.
Qed.

Lemma foldl_size_step_full (rs : list Request) st :
  closed_groups_full st -> closed_groups_full (foldl size_step st rs).
Proof.
  revert st. induction rs as [|r rs IH]; intros st Hst; cbn [foldl]; [done|].
  by apply IH, size_step_full.
Qed.

Lemma group_level_full (final_groups : list (list Request))
    (level_requests : list Request) :
  Forall (fun g => g <> []) final_groups ->
  Forall (fun g => g <> []) (group_level final_groups level_requests).
Proof.
  intros H. unfold group_level.
  pose proof (foldl_size_step_full (sort_by image_len level_requests)
                (final_groups, [], None) H) as Hfull.
  destruct (foldl size_step _ _) as [[final current] cat].
  unfold closed_groups_full in Hfull. cbn [fst] in Hfull.
  destruct current as [|x current]; [done|].
  apply Forall_app. split; [exact Hfull|]. by constructor.
Qed.

Lemma group_similar_requests_full (rs : list Request) :
  rs <> [] -> Forall (fun g => g <> []) (_group_similar_requests rs).
Proof.
  intros Hrs. unfold _group_similar_requests.
  assert (H : forall (lgs : list (string * list Request)) acc,
            Forall (fun g : list Request => g <> []) acc ->
            Forall (fun g => g <> [])
              (foldl (fun acc lg => group_level acc (snd lg)) acc lgs)).
  { induction lgs as [|lg lgs IH]; intros acc Hacc; cbn [foldl]; [done|].
    by apply IH, group_level_full. }
  specialize (H (foldl (fun g r => level_append (get_level r) r g) [] rs) []
                ltac:(constructor)).
  destruct (foldl (fun acc lg => group_level acc lg.2) [] _) as [|g gs].
  - by constructor.
  - exact H.
Qed.

Lemma concat_map_perm {A B} (f : A -> list B) (l l' : list A) :
  l ≡ₚ l' -> concat (map f l) ≡ₚ concat (map f l').
Proof.
  induction 1 as [|x l l' _ IH|x y l|l l' l'' _ IH1 _ IH2]; cbn [map concat].
  - done.
  - by rewrite IH.
  - rewrite !app_assoc. by rewrite (Permutation_app_comm (f y) (f x)).
  - by rewrite IH1.
Qed.

Lemma map_requests_imap (c : BatchConfig) (b : PrioritizedBatch)
    (groups : list (list Request)) (start : nat) :
  map requests
    (imap (fun i sub_requests =>
       {| requests := sub_requests;
          batch_priority := batch_priority b;
          estimated_processing_time_ms :=
            (inject_Z (Z.of_nat (length sub_requests))
             * performance_target_ms c)%Q;
          batch_id := batch_id b +:+ "_optimized_"
                      +:+ pretty (Z.of_nat (start + i)) |}) groups)
  = groups.
Proof.
  revert start. induction groups as [|g groups IH]; intros start; [done|].
  rewrite imap_cons. cbn [map requests]. f_equal.
  rewrite <- (IH (S start)) at 2. f_equal. apply imap_ext.
  intros i x _. cbn. by replace (start + S i)%nat with (S start + i)%nat by lia.
Qed.

(** The request lists of [_optimize_single_batch]: the batch as it is, or
    its requests grouped. *)
Lemma optimize_single_batch_requests (b64 : string -> option Z)
    (c : BatchConfig) (b : PrioritizedBatch) :
  map requests (_optimize_single_batch b64 c b)
  = if (length (requests b) <=? 2)%nat
       || negb (analysis_succeeds b64 (requests b))
    then [requests b]
    else _group_similar_requests (requests b).
Proof.
  unfold _optimize_single_batch.
  destruct (_ <=? _)%nat; [done|]. cbn [orb].
  destruct (negb _); [done|].
  apply (map_requests_imap c b _ 0).
Qed.

Lemma optimize_single_batch_concat (b64 : string -> option Z)
    (c : BatchConfig) (b : PrioritizedBatch) :
  concat (map requests (_optimize_single_batch b64 c b)) ≡ₚ requests b.
Proof.
  rewrite optimize_single_batch_requests.
  destruct (_ || _).
  - cbn [concat]. by rewrite app_nil_r.
  - apply group_similar_requests_concat.
Qed.

Lemma optimized_batches_concat (b64 : string -> option Z) (c : BatchConfig)
    (bs : list PrioritizedBatch) :
  concat (map requests (concat (map (_optimize_single_batch b64 c) bs)))
  ≡ₚ concat (map requests bs).
Proof.
  induction bs as [|b bs IH]; [done|].
  cbn [map concat]. rewrite map_app, concat_app, IH.
  by rewrite optimize_single_batch_concat.
Qed.

(** The three priority classes hold every request with a known priority
    once. *)
Lemma priority_classes_perm (rs : list Request) :
  Forall (fun r => BatchOptimizerSpec.known_priority (get_priority r)) rs ->
  filter (fun r => get_priority r = "high") rs
  ++ filter (fun r => get_priority r = "normal") rs
  ++ filter (fun r => get_priority r = "low") rs ≡ₚ rs.
Proof.
  induction 1 as [|r rs Hr _ IH]; [done|].
  rewrite !filter_cons.
  destruct Hr as [Hr|[Hr|Hr]]; rewrite Hr;
    repeat case_decide; try discriminate; try congruence; cbn [app].
  - by rewrite IH.
  - rewrite <- Permutation_middle. by rewrite IH.
  - rewrite app_assoc, <- Permutation_middle, <- app_assoc. by rewrite IH.
Qed.

(** With positive batch sizes [_create_prioritized_batches] does not fall
    back: its batches are the chunks of the three classes, sorted. *)
Lemma create_prioritized_batches_chunks (c : BatchConfig) (rs : list Request) :
  0 < high_priority_batch_size c ->
  0 < normal_priority_batch_size c ->
  exists hs ns ls,
    _create_prioritized_batches c rs
    = sort_by (fun b => priority_order (batch_priority b)) (hs ++ ns ++ ls)
    /\ chunk_batches "high" (filter (fun r => get_priority r = "high") rs)
         (high_priority_batch_size c) (performance_target_ms c) = Some hs
    /\ chunk_batches "normal" (filter (fun r => get_priority r = "normal") rs)
         (normal_priority_batch_size c) (performance_target_ms c) = Some ns
    /\ chunk_batches "low" (filter (fun r => get_priority r = "low") rs)
         (Z.max (normal_priority_batch_size c) 10) (performance_target_ms c)
       = Some ls.
Proof.
  intros Hh Hn. unfold _create_prioritized_batches.
  assert (Hl : 0 < Z.max (normal_priority_batch_size c) 10) by lia.
  destruct (chunk_batches_requests "high"
              (filter (fun r => get_priority r = "high") rs)
              (high_priority_batch_size c) (performance_target_ms c) Hh)
    as (hs & Hhs & _).
  destruct (chunk_batches_requests "normal"
              (filter (fun r => get_priority r = "normal") rs)
              (normal_priority_batch_size c) (performance_target_ms c) Hn)
    as (ns & Hns & _).
  destruct (chunk_batches_requests "low"
              (filter (fun r => get_priority r = "low") rs)
              (Z.max (normal_priority_batch_size c) 10)
              (performance_target_ms c) Hl)
    as (ls & Hls & _).
  exists hs, ns, ls. rewrite Hhs, Hns, Hls. cbn. done.
Qed.

Lemma chunk_batches_concat (label : string) (rs : list Request) (size : Z)
    (target : Q) (bs : list PrioritizedBatch) :
  0 < size -> chunk_batches label rs size target = Some bs ->
  concat (map requests bs) = rs.
Proof.
  intros Hsize Hbs.
  destruct (chunk_batches_requests label rs size target Hsize)
    as (bs' & Hbs' & Hreq & _).
  rewrite Hbs in Hbs'. injection Hbs' as <-.
  rewrite Hreq. apply chunks_concat, turns_cover, Hsize.
Qed.

Lemma create_prioritized_batches_concat (c : BatchConfig) (rs : list Request) :
  0 < high_priority_batch_size c ->
  0 < normal_priority_batch_size c ->
  Forall (fun r => BatchOptimizerSpec.known_priority (get_priority r)) rs ->
  concat (map requests (_create_prioritized_batches c rs)) ≡ₚ rs.
Proof.
  intros Hh Hn Hknown.
  assert (Hl : 0 < Z.max (normal_priority_batch_size c) 10) by lia.
  destruct (create_prioritized_batches_chunks c rs Hh Hn)
    as (hs & ns & ls & -> & Hhs & Hns & Hls).
  rewrite (concat_map_perm requests _ _ (sort_by_perm _ _)).
  rewrite !map_app, !concat_app.
  rewrite (chunk_batches_concat _ _ _ _ _ Hh Hhs).
  rewrite (chunk_batches_concat _ _ _ _ _ Hn Hns).
  rewrite (chunk_batches_concat _ _ _ _ _ Hl Hls).
  by apply priority_classes_perm.
Qed.

Lemma adapted_sizes_positive (b64 : string -> option Z)
    (o : DynamicBatchOptimizer) (h : Host) (rs : list Request) :
  1 <= high_priority_batch_size (current_config o) ->
  1 <= normal_priority_batch_size (current_config o) ->
  0 < high_priority_batch_size (current_config (fst (optimize_batch b64 o h rs)))
  /\ 0 < normal_priority_batch_size
           (current_config (fst (optimize_batch b64 o h rs))).
Proof.
  intros Hh Hn. unfold optimize_batch.
  destruct rs as [|r rs]; [cbn; lia|].
  assert (Ho1 : current_config (fst (_analyze_system_state o h)) = current_config o).
  { unfold _analyze_system_state. by destruct (psutil_reading h) as [[??]|]. }
  destruct (_analyze_system_state o h) as [o1 st]. cbn [fst] in *.
  destruct (adaptive_sizing o1); cbn [fst]; [|rewrite Ho1; lia].
  unfold _adapt_batch_sizes, adapt_config. cbn [current_config]. rewrite Ho1.
  destruct (Qltb _ 30); [cbn; lia|]. destruct (Qgtb _ 80); cbn; lia.
Qed.

Lemma optimize_batch_result (b64 : string -> option Z)
    (o : DynamicBatchOptimizer) (h : Host) (r : Request) (rs : list Request) :
  snd (optimize_batch b64 o h (r :: rs))
  = map requests
      (optimized_batches b64
         (current_config (fst (optimize_batch b64 o h (r :: rs)))) (r :: rs)).
Proof.
  unfold optimize_batch. by destruct (_analyze_system_state o h) as [o1 st].
Qed.

(** X5. With batch sizes of at least 1 and priorities among high, normal and
    low (or absent), the batches [optimize_batch] returns hold every request
    of the input exactly once. *)
Theorem optimize_batch_keeps_known_priorities (b64 : string -> option Z)
    (o : DynamicBatchOptimizer) (h : Host) (rs : list Request) :
  1 <= high_priority_batch_size (current_config o) ->
  1 <= normal_priority_batch_size (current_config o) ->
  Forall (fun r => BatchOptimizerSpec.known_priority (get_priority r)) rs ->
  concat (snd (optimize_batch b64 o h rs)) ≡ₚ rs.
Proof.
  intros Hh Hn Hknown.
  destruct (adapted_sizes_positive b64 o h rs Hh Hn) as [Hh' Hn'].
  destruct rs as [|r rs]; [done|].
  rewrite optimize_batch_result. unfold optimized_batches.
  rewrite optimized_batches_concat.
  by apply create_prioritized_batches_concat.
Qed.

Definition mixed_requests : list Request :=
  [BatchOptimizerSpec.scenario_request "low" "bG93";
   BatchOptimizerSpec.scenario_request "high" "aGlnaA==";
   BatchOptimizerSpec.scenario_request "normal" "bm9ybWFs";
   BatchOptimizerSpec.scenario_request "high" "aGlnaDI="].

Lemma optimize_batch_keeps_known_priorities_witness :
  concat (snd (optimize_batch (fun _ => Some 4) (init 5 true)
                 BatchOptimizerSpec.quiet_host mixed_requests))
  ≡ₚ mixed_requests.
Proof.
  apply optimize_batch_keeps_known_priorities.
  - vm_compute. discriminate.
  - vm_compute. discriminate.
  - repeat (apply List.Forall_cons; [vm_compute; auto|]). apply List.Forall_nil.
Defined.

(** The largest batch [_create_prioritized_batches] builds for a priority. *)
Definition batch_limit (c : BatchConfig) (p : string) : Z :=
  if String.eqb p "high" then high_priority_batch_size c
  else if String.eqb p "normal" then normal_priority_batch_size c
  else Z.max (normal_priority_batch_size c) 10.

(** A batch that is not empty, holds requests of one priority only, and no
    more of them than the limit for that priority. *)
Definition well_formed (c : BatchConfig) (batch : list Request) : Prop :=
  batch <> []
  /\ exists p, BatchOptimizerSpec.known_priority p
       /\ Forall (fun r => get_priority r = p) batch
       /\ Z.of_nat (length batch) <= batch_limit c p.

Lemma chunk_batches_well_formed (c : BatchConfig) (label : string)
    (rs : list Request) (size : Z) (bs : list PrioritizedBatch)
    (b : PrioritizedBatch) :
  BatchOptimizerSpec.known_priority label ->
  0 < size -> size = batch_limit c label ->
  chunk_batches label (filter (fun r => get_priority r = label) rs) size
    (performance_target_ms c) = Some bs ->
  b ∈ bs -> well_formed c (requests b).
Proof.
  intros Hlabel Hsize Hlimit Hbs Hb.
  set (class := filter (fun r => get_priority r = label) rs) in *.
  destruct (chunk_batches_requests label class size (performance_target_ms c) Hsize)
    as (bs' & Hbs' & Hreq & _).
  rewrite Hbs in Hbs'. injection Hbs' as <-.
  assert (Hin : requests b ∈ chunks (Z.to_nat size)
                  (turns (Z.of_nat (length class)) size) class).
  { rewrite <- Hreq. apply list_elem_of_fmap. by exists b. }
  destruct (turns_cover (length class) size Hsize) as (_ & Hlast & Hnone).
  destruct (decide (length class = 0%nat)) as [Hz|Hnz].
  { rewrite (Hnone Hz) in Hin. by apply elem_of_nil in Hin. }
  assert (Hpos : (0 < Z.to_nat size)%nat) by lia.
  destruct (chunks_each _ _ _ _ Hpos (Hlast Hnz) Hin) as (Hne & Hlen & Hsub).
  split; [exact Hne|]. exists label. split; [exact Hlabel|]. split.
  - apply Forall_forall. intros r Hr. apply Hsub in Hr.
    by apply list_elem_of_filter in Hr as [Hr _].
  - rewrite <- Hlimit. lia.
Qed.

Lemma create_prioritized_batches_well_formed (c : BatchConfig)
    (rs : list Request) (b : PrioritizedBatch) :
  0 < high_priority_batch_size c ->
  0 < normal_priority_batch_size c ->
  b ∈ _create_prioritized_batches c rs -> well_formed c (requests b).
Proof.
  intros Hh Hn Hb.
  assert (Hl : 0 < Z.max (normal_priority_batch_size c) 10) by lia.
  destruct (create_prioritized_batches_chunks c rs Hh Hn)
    as (hs & ns & ls & Heq & Hhs & Hns & Hls).
  rewrite Heq in Hb. rewrite (sort_by_perm _ _) in Hb.
  unfold BatchOptimizerSpec.known_priority.
  apply elem_of_app in Hb as [Hb|Hb]; [|apply elem_of_app in Hb as [Hb|Hb]].
  - apply (chunk_batches_well_formed c "high" rs (high_priority_batch_size c) hs b);
      [by left|exact Hh|reflexivity|exact Hhs|exact Hb].
  - apply (chunk_batches_well_formed c "normal" rs
             (normal_priority_batch_size c) ns b);
      [by right; left|exact Hn|reflexivity|exact Hns|exact Hb].
  - apply (chunk_batches_well_formed c "low" rs
             (Z.max (normal_priority_batch_size c) 10) ls b);
      [by right; right|exact Hl|reflexivity|exact Hls|exact Hb].
Qed.

Lemma group_within_concat {A} (g : list A) (gs : list (list A)) :
  g ∈ gs ->
  (length g <= length (concat gs))%nat /\ forall x, x ∈ g -> x ∈ concat gs.
Proof.
  induction gs as [|g' gs IH]; [by intros ?%elem_of_nil|].
  intros [->|Hin]%elem_of_cons; cbn [concat]; rewrite length_app.
  - split; [lia|]. intros x Hx. apply elem_of_app. by left.
  - destruct (IH Hin) as [Hlen Hsub]. split; [lia|].
    intros x Hx. apply elem_of_app. right. by apply Hsub.
Qed.

Lemma well_formed_group (c : BatchConfig) (whole g : list Request)
    (gs : list (list Request)) :
  well_formed c whole -> concat gs ≡ₚ whole -> g ∈ gs -> g <> [] ->
  well_formed c g.
Proof.
  intros (_ & p & Hp & Hall & Hlen) Hperm Hg Hne.
  destruct (group_within_concat g gs Hg) as [Hglen Hsub].
  split; [exact Hne|]. exists p. split; [exact Hp|]. split.
  - apply Forall_forall. intros r Hr. apply Hsub in Hr. rewrite Hperm in Hr.
    by eapply Forall_forall in Hall.
  - apply Permutation_length in Hperm. lia.
Qed.

Lemma optimize_single_batch_well_formed (b64 : string -> option Z)
    (c : BatchConfig) (b : PrioritizedBatch) (g : list Request) :
  well_formed c (requests b) ->
  g ∈ map requests (_optimize_single_batch b64 c b) -> well_formed c g.
Proof.
  intros Hb Hg. rewrite optimize_single_batch_requests in Hg.
  destruct (_ || _).
  - by apply list_elem_of_singleton in Hg as ->.
  - eapply well_formed_group; [exact Hb|apply group_similar_requests_concat
                               |exact Hg|].
    pose proof (group_similar_requests_full (requests b) (proj1 Hb)) as Hfull.
    by eapply Forall_forall in Hfull.
Qed.

(** X6. With batch sizes of at least 1, every batch [optimize_batch] returns is
    non-empty, holds requests of a single priority, and has at most as many
    requests as the configuration in force allows for that priority: the
    high size, the normal size, or for low priority the larger of the normal
    size and 10. *)
Theorem optimize_batch_batches_well_formed (b64 : string -> option Z)
    (o : DynamicBatchOptimizer) (h : Host) (rs : list Request) :
  1 <= high_priority_batch_size (current_config o) ->
  1 <= normal_priority_batch_size (current_config o) ->
  Forall (well_formed (current_config (fst (optimize_batch b64 o h rs))))
         (snd (optimize_batch b64 o h rs)).
Proof.
  intros Hh Hn.
  destruct (adapted_sizes_positive b64 o h rs Hh Hn) as [Hh' Hn'].
  destruct rs as [|r rs]; [constructor|].
  rewrite optimize_batch_result.
  set (c := current_config (fst (optimize_batch b64 o h (r :: rs)))) in *.
  apply Forall_forall. intros g Hg. unfold optimized_batches in Hg.
  apply list_elem_of_fmap in Hg as (b' & -> & Hb').
  apply list_elem_of_In, in_concat in Hb' as (bs & Hbs & Hb').
  apply in_map_iff in Hbs as (b & <- & Hb).
  apply (optimize_single_batch_well_formed b64 c b).
  - apply (create_prioritized_batches_well_formed c (r :: rs) b Hh' Hn').
    by apply list_elem_of_In.
  - apply list_elem_of_fmap. exists b'. split; [done|]. by apply list_elem_of_In.
Qed.

Lemma optimize_batch_batches_well_formed_witness :
  Forall (well_formed
            (current_config
               (fst (optimize_batch (fun _ => Some 4) (init 5 true)
                       BatchOptimizerSpec.quiet_host mixed_requests))))
    (snd (optimize_batch (fun _ => Some 4) (init 5 true)
            BatchOptimizerSpec.quiet_host mixed_requests)).
Proof.
  apply optimize_batch_batches_well_formed; vm_compute; discriminate.
Defined.

Lemma chunk_batches_negative (label : string) (rs : list Request) (size : Z)
    (target : Q) :
  size < 0 -> chunk_batches label rs size target = Some [].
Proof.
  intros Hsize. unfold chunk_batches, py_range.
  destruct (Z.eqb_spec size 0) as [?|_]; [lia|].
  destruct (Z.ltb_spec 0 size) as [?|_]; [lia|].
  cbn [mbind option_bind].
  replace (Z.to_nat ((0 - Z.of_nat (length rs) - size - 1) / - size)) with 0%nat;
    [done|].
  destruct (length rs) as [|n].
  - rewrite Z.div_small by lia. reflexivity.
  - assert ((0 - Z.of_nat (S n) - size - 1) / - size <= 0); [|lia].
    apply Z.lt_succ_r, Z.div_lt_upper_bound; lia.
Qed.

Lemma chunk_batches_zero (label : string) (rs : list Request) (target : Q) :
  chunk_batches label rs 0 target = None.
Proof. reflexivity. Qed.

(** X7. A normal batch size that is not positive.  With the size 0 the range of
    the batching loop raises, and [_create_prioritized_batches] answers with
    the one fallback batch: every request, of whatever priority, under the
    priority normal.  With a negative size (and a positive high size) the
    loop over the normal requests does not run: no batch has the priority
    normal and no batch holds a request of that priority. *)
Theorem nonpositive_normal_batch_size (c : BatchConfig) (rs : list Request) :
  (normal_priority_batch_size c = 0 ->
   _create_prioritized_batches c rs = [fallback_batch c rs])
  /\ (normal_priority_batch_size c < 0 -> 0 < high_priority_batch_size c ->
      Forall (fun b => batch_priority b <> "normal"
                       /\ Forall (fun r => get_priority r <> "normal")
                                 (requests b))
             (_create_prioritized_batches c rs)).
Proof.
  split.
  - intros Hzero. unfold _create_prioritized_batches. rewrite Hzero.
    destruct (chunk_batches "high" _ _ _); reflexivity.
  - intros Hneg Hh.
    assert (Hl : 0 < Z.max (normal_priority_batch_size c) 10) by lia.
    unfold _create_prioritized_batches.
    destruct (chunk_batches_requests "high"
                (filter (fun r => get_priority r = "high") rs)
                (high_priority_batch_size c) (performance_target_ms c) Hh)
      as (hs & Hhs & Hhreq & Hhp).
    destruct (chunk_batches_requests "low"
                (filter (fun r => get_priority r = "low") rs)
                (Z.max (normal_priority_batch_size c) 10)
                (performance_target_ms c) Hl)
      as (ls & Hls & Hlreq & Hlp).
    rewrite Hhs, (chunk_batches_negative "normal" _ _ _ Hneg), Hls.
    cbn [mbind option_bind app].
    apply Forall_forall. intros b Hb. rewrite (sort_by_perm _ _) in Hb.
    assert (Hclass : forall label bs,
              label <> "normal" ->
              Forall (fun b => batch_priority b = label) bs ->
              map requests bs
              = chunks (Z.to_nat (batch_limit c label))
                  (turns (Z.of_nat (length (filter (fun r => get_priority r = label) rs)))
                     (batch_limit c label))
                  (filter (fun r => get_priority r = label) rs) ->
              b ∈ bs ->
              batch_priority b <> "normal"
              /\ Forall (fun r => get_priority r <> "normal") (requests b)).
    { intros label bs Hlabel Hprio Hreq Hin. split.
      - eapply Forall_forall in Hprio; [|exact Hin]. by rewrite Hprio.
      - assert (Hchunk : requests b ∈ map requests bs).
        { apply list_elem_of_fmap. by exists b. }
        rewrite Hreq in Hchunk. unfold chunks in Hchunk.
        apply list_elem_of_fmap in Hchunk as (j & -> & _).
        apply Forall_forall. intros r Hr.
        apply subseteq_take, subseteq_drop in Hr.
        apply list_elem_of_filter in Hr as [Hr _]. by rewrite Hr. }
    apply elem_of_app in Hb as [Hb|Hb].
    + by apply (Hclass "high" hs).
    + by apply (Hclass "low" ls).
Qed.

Lemma nonpositive_normal_batch_size_witness :
  _create_prioritized_batches (current_config (init 0 false)) mixed_requests
  = [fallback_batch (current_config (init 0 false)) mixed_requests]
  /\ Forall (fun b => batch_priority b <> "normal"
                      /\ Forall (fun r => get_priority r <> "normal")
                                (requests b))
            (_create_prioritized_batches (current_config (init (-4) false))
               mixed_requests).
Proof.
  split.
  - apply (nonpositive_normal_batch_size (current_config (init 0 false))).
    reflexivity.
  - apply (nonpositive_normal_batch_size (current_config (init (-4) false)));
      reflexivity.
Defined.

(** With [initial_size = -4] the one normal request of the sample is in no
    batch. *)
Example negative_size_drops_normal_requests :
  map (fun b => (batch_priority b, length (requests b)))
      (_create_prioritized_batches (current_config (init (-4) false))
         mixed_requests)
  = [("high", 2%nat); ("low", 1%nat)].
Proof. vm_compute. reflexivity. Qed.

(** Requests of one recognition level and one size category. *)
Definition alike (level cat : string) (g : list Request) : Prop :=
  Forall (fun r => get_level r = level
                   /\ _get_image_size_category (image_len r) = cat) g.

Definition similar (g : list Request) : Prop :=
  exists level cat, alike level cat g.

Lemma level_append_levels (level : string) (r : Request)
    (groups : list (string * list Request)) :
  get_level r = level ->
  Forall (fun lg => Forall (fun r => get_level r = fst lg) (snd lg)) groups ->
  Forall (fun lg => Forall (fun r => get_level r = fst lg) (snd lg))
         (level_append level r groups).
Proof.
  intros Hr. induction 1 as [|[l members] rest Hl Hrest IH]; cbn [level_append].
  - repeat constructor. exact Hr.
  - destruct (String.eqb_spec l level) as [->|_]; constructor.
    + cbn [fst snd] in *. apply Forall_app. split; [exact Hl|]. by constructor.
    + exact Hrest.
    + exact Hl.
    + exact IH.
Qed.

Lemma level_groups_levels (rs : list Request)
    (groups : list (string * list Request)) :
  Forall (fun lg => Forall (fun r => get_level r = fst lg) (snd lg)) groups ->
  Forall (fun lg => Forall (fun r => get_level r = fst lg) (snd lg))
         (foldl (fun g r => level_append (get_level r) r g) groups rs).
Proof.
  revert groups. induction rs as [|r rs IH]; intros groups Hg; cbn [foldl];
    [done|].
  by apply IH, level_append_levels.
Qed.

(** The inner loop on requests of the level [level]: the closed groups are
    similar, and the current group is of the current category. *)
Definition loop_invariant (level : string)
    (st : list (list Request) * list Request * option string) : Prop :=
  Forall similar (fst (fst st))
  /\ match snd st with
     | Some cat => alike level cat (snd (fst st))
     | None => snd (fst st) = []
     end.

Lemma size_step_invariant (level : string) st (r : Request) :
  get_level r = level ->
  loop_invariant level st -> loop_invariant level (size_step st r).
Proof.
  intros Hr. destruct st as [[final current] [cat|]];
    unfold loop_invariant, size_step; cbn [fst snd]; intros [Hfinal Hcur].
  - destruct (String.eqb_spec cat (_get_image_size_category (image_len r)))
      as [Heq|_]; cbn [fst snd].
    + split; [exact Hfinal|]. rewrite <- Heq.
      apply Forall_app. split; [exact Hcur|]. by constructor.
    + split; [|by repeat constructor].
      destruct current as [|x current]; [exact Hfinal|].
      apply Forall_app. split; [exact Hfinal|].
      constructor; [|constructor]. by exists level, cat.
  - split; [exact Hfinal|]. subst current. by repeat constructor.
Qed.

Lemma foldl_size_step_invariant (level : string) (rs : list Request) st :
  Forall (fun r => get_level r = level) rs ->
  loop_invariant level st -> loop_invariant level (foldl size_step st rs).
Proof.
  intros Hrs. revert st. induction Hrs as [|r rs Hr _ IH]; intros st Hst;
    cbn [foldl]; [done|].
  by apply IH, size_step_invariant.
Qed.

Lemma group_level_similar (level : string) (final_groups : list (list Request))
    (level_requests : list Request) :
  Forall (fun r => get_level r = level) level_requests ->
  Forall similar final_groups ->
  Forall similar (group_level final_groups level_requests).
Proof.
  intros Hlevel Hfinal. unfold group_level.
  assert (Hsorted : Forall (fun r => get_level r = level)
                      (sort_by image_len level_requests)).
  { by rewrite (sort_by_perm image_len level_requests). }
  pose proof (foldl_size_step_invariant level _ (final_groups, [], None)
                Hsorted (conj Hfinal eq_refl)) as Hinv.
  destruct (foldl size_step _ _) as [[final current] cat].
  destruct Hinv as [Hf Hcur]. cbn [fst snd] in *.
  destruct current as [|x current]; [exact Hf|].
  apply Forall_app. split; [exact Hf|]. constructor; [|constructor].
  destruct cat as [cat|]; [by exists level, cat|discriminate].
Qed.

(** X8. [_group_similar_requests]: the groups hold the requests given, each
    once; unless there was no request, no group is empty; and the requests
    of a group have the same recognition level and the same size category
    (small, medium, large or xlarge, by the length of the image text). *)
Theorem group_similar_requests_groups (rs : list Request) :
  concat (_group_similar_requests rs) ≡ₚ rs
  /\ (rs = [] \/ Forall (fun g => g <> []) (_group_similar_requests rs))
  /\ Forall similar (_group_similar_requests rs).
Proof.
  split; [apply group_similar_requests_concat|]. split.
  { destruct rs as [|r rs]; [by left|right].
    by apply group_similar_requests_full. }
  unfold _group_similar_requests.
  assert (H : forall (lgs : list (string * list Request)) acc,
            Forall (fun lg => Forall (fun r => get_level r = fst lg) (snd lg)) lgs ->
            Forall similar acc ->
            Forall similar
              (foldl (fun acc lg => group_level acc (snd lg)) acc lgs)).
  { induction lgs as [|[l members] lgs IH]; intros acc Hl Hacc; cbn [foldl];
      [done|].
    apply Forall_cons in Hl as [Hm Hl].
    apply IH; [exact Hl|]. by apply (group_level_similar l). }
  specialize (H (foldl (fun g r => level_append (get_level r) r g) [] rs) []
                (level_groups_levels rs [] ltac:(constructor))
                ltac:(constructor)).
  destruct (foldl (fun acc lg => group_level acc lg.2) [] _) as [|g gs] eqn:E.
  - assert (Hnil : rs = []).
    { pose proof (foldl_group_level_concat
                    (foldl (fun g r => level_append (get_level r) r g) [] rs) [])
        as Hc.
      rewrite level_groups_concat, E in Hc. cbn [map concat app] in Hc.
      by apply Permutation_nil in Hc. }
    subst rs. constructor; [|constructor]. exists "", "". constructor.
  - exact H.
Qed.

(** A call of one of the two public methods that change the optimizer. *)
Inductive Call :=
| OptimizeBatch (h : Host) (rs : list Request)
| AdjustForUtilization (utilization : gmap string Q) (now : Q).

Definition after_call (b64 : string -> option Z) (o : DynamicBatchOptimizer)
    (call : Call) : DynamicBatchOptimizer :=
  match call with
  | OptimizeBatch h rs => fst (optimize_batch b64 o h rs)
  | AdjustForUtilization utilization now =>
      adjust_for_utilization o utilization now
  end.

(** What every optimizer built by the constructor keeps. *)
Definition steady (o : DynamicBatchOptimizer) : Prop :=
  4 <= max_concurrent (current_config o) <= 12
  /\ 1 <= high_priority_batch_size (current_config o)
  /\ (length (adaptation_history o) <= 50)%nat
  /\ (length (performance_history o) <= 100)%nat
  /\ (length (cpu_utilization_history o) <= 20)%nat
  /\ length (memory_utilization_history o) = length (cpu_utilization_history o).

Lemma length_deque_append {A} (maxlen : nat) (x : A) (d : list A) :
  length (deque_append maxlen x d) = Nat.min maxlen (length d + 1).
Proof. unfold deque_append. rewrite length_drop, length_app. cbn. lia. Qed.

Lemma deque_append_bound {A} (maxlen : nat) (x : A) (d : list A) :
  (length (deque_append maxlen x d) <= maxlen)%nat.
Proof. rewrite length_deque_append. lia. Qed.

Lemma deque_append_same_length {A B} (maxlen : nat) (x : A) (y : B)
    (d : list A) (e : list B) :
  length d = length e ->
  length (deque_append maxlen x d) = length (deque_append maxlen y e).
Proof. intros H. by rewrite !length_deque_append, H. Qed.

Ltac steady_fields :=
  cbn [current_config max_concurrent high_priority_batch_size
       normal_priority_batch_size adaptation_history performance_history
       cpu_utilization_history memory_utilization_history set_sizes].

Lemma after_call_steady (b64 : string -> option Z) (o : DynamicBatchOptimizer)
    (call : Call) :
  steady o -> steady (after_call b64 o call).
Proof.
  intros Ho. pose proof Ho as (Hc & Hh & Ha & Hp & Hcpu & Hmem).
  destruct call as [h rs|u now]; cbn [after_call].
  - unfold optimize_batch. destruct rs as [|r rs]; [exact Ho|].
    assert (H1 : steady (fst (_analyze_system_state o h))).
    { unfold _analyze_system_state.
      destruct (psutil_reading h) as [[cpu mem]|]; [|exact Ho].
      unfold steady. cbn [fst]. steady_fields.
      repeat split; try lia; try apply deque_append_bound.
      by apply deque_append_same_length. }
    destruct (_analyze_system_state o h) as [o1 st]. cbn [fst] in *.
    pose proof H1 as (Hc1 & Hh1 & Ha1 & Hp1 & Hcpu1 & Hmem1).
    destruct (adaptive_sizing o1); [|exact H1].
    unfold steady, _adapt_batch_sizes, adapt_config. cbn [fst]. steady_fields.
    destruct (Qltb _ 30); [|destruct (Qgtb _ 80)]; steady_fields;
      repeat split; try lia; apply deque_append_bound.
  - unfold steady, adjust_for_utilization, _increase_batch_sizes,
      _decrease_batch_sizes. steady_fields.
    destruct (Qltb _ _); [|destruct (Qgtb _ _)]; steady_fields;
      repeat split; try lia; apply deque_append_bound.
Qed.

(** X9. Whatever the initial size, and whatever calls of [optimize_batch] and
    [adjust_for_utilization] follow the constructor: the concurrency stays
    between 4 and 12, the high batch size stays at least 1, and the four
    histories stay within their lengths (50 adaptations, 100 performance
    samples, 20 CPU and as many memory readings). *)
Theorem optimizer_state_stays_steady (b64 : string -> option Z)
    (initial_size_ : Z) (adaptive_sizing_ : bool) (calls : list Call) :
  steady (foldl (after_call b64) (init initial_size_ adaptive_sizing_) calls).
Proof.
  assert (H : forall o, steady o -> steady (foldl (after_call b64) o calls)).
  { induction calls as [|call calls IH]; intros o Ho; cbn [foldl]; [done|].
    by apply IH, after_call_steady. }
  apply H. unfold steady, init. cbn. repeat split; lia.
Qed.

End BatchPartitionSpec.

(** ** The bridge between requests, and its metrics report *)

Module BridgeMetricsSpec.
Import Bridge BridgeSpec.

(** One call of [process_image_zero_copy], with what the outside does
    during it. *)
Record RequestCall := {
  call_world : World;
  call_image : list Byte.byte;
  call_level : string;
  call_languages : option (list string);
  call_words : option (list string);
  call_height : Q;
  call_id : option string
}.

Definition after_request (s : Sys SharedMemoryBridge) (c : RequestCall)
    : Sys SharedMemoryBridge :=
  snd (process_image_zero_copy (call_world c) (call_image c) (call_level c)
         (call_languages c) (call_words c) (call_height c) (call_id c) s).

(** The counters agree with each other. *)
Definition consistent (m : BridgeMetrics) : Prop :=
  0 <= successful_requests m
  /\ 0 <= failed_requests m
  /\ 0 <= fallback_http_requests m
  /\ successful_requests m + failed_requests m <= total_requests m
  /\ successful_requests m + fallback_http_requests m <= total_requests m
  /\ zero_copy_transfers m = successful_requests m.

(** No request is registered, and no event or lock is held. *)
Definition idle (b : SharedMemoryBridge) : Prop :=
  active_requests b = ∅
  /\ active_events (sync_manager b) = ∅
  /\ event_locks (sync_manager b) = ∅.

Lemma on_exception_keeps (w : World) (k : string) (start_time : Q) (e : exn)
    (s : Sys SharedMemoryBridge) :
  let s' := snd (on_exception w k start_time e s) in
  active_requests (st s') = active_requests (st s)
  /\ sync_manager (st s') = sync_manager (st s).
Proof.
  destruct s as [b n]. cbn zeta. rewrite on_exception_run.
  by destruct (http_fallback_enabled b).
Qed.

(** What the [try] and [except] blocks leave registered: nothing more than
    the request itself. *)
Lemma attempt_registers (w : World) (k : string) (image_data : list Byte.byte)
    (recognition_level : string) (languages custom_words : option (list string))
    (minimum_text_height start_time : Q) (b0 : SharedMemoryBridge) (n : nat) :
  let b1 := st (snd (attempt w k image_data recognition_level languages
                       custom_words minimum_text_height start_time b0 n)) in
  delete k (active_requests b1) = delete k (active_requests b0)
  /\ delete k (active_events (sync_manager b1))
     = delete k (active_events (sync_manager b0))
  /\ delete k (event_locks (sync_manager b1))
     = delete k (event_locks (sync_manager b0)).
Proof.
  cbn zeta. unfold attempt.
  destruct (allocate_segment w k _ _ _) as [[[nm shm]|e] [m t]]; cbn [st reads].
  - rewrite transfer_run. cbn [http_fallback_enabled set_segment_manager].
    assert (Hreg : forall req,
      let b1 := registered (set_segment_manager m b0) k req shm image_data in
      delete k (active_requests b1) = delete k (active_requests b0)
      /\ delete k (active_events (sync_manager b1))
         = delete k (active_events (sync_manager b0))
      /\ delete k (event_locks (sync_manager b1))
         = delete k (event_locks (sync_manager b0))).
    { intros req. cbn. by rewrite !delete_insert_eq. }
    apply Hreg.
  - match goal with
    | |- context [on_exception w k start_time ?e ?s] =>
        destruct (on_exception_keeps w k start_time e s) as [-> ->]
    end.
    done.
Qed.

Lemma after_request_metrics (s : Sys SharedMemoryBridge) (c : RequestCall) :
  consistent (metrics (st s)) ->
  consistent (metrics (st (after_request s c)))
  /\ total_requests (metrics (st (after_request s c)))
     = total_requests (metrics (st s)) + 1.
Proof.
  destruct s as [b n]. unfold after_request. cbn [st].
  intros (Hs & Hf & Hfb & Hsum & Hsum' & Hz).
  rewrite process_image_zero_copy_run. cbn [snd st cleanup metrics].
  destruct (attempt_outcome (call_world c)
              (effective_id (call_world c) (call_id c))
              (call_image c) (call_level c) (call_languages c) (call_words c)
              (call_height c) (time_at (call_world c) n)
              (set_metrics count_total b) (S n)) as (j & _ & Hm).
  cbv zeta in Hm.
  change (metrics (set_metrics count_total b)) with (count_total (metrics b)) in Hm.
  change (http_fallback_enabled (set_metrics count_total b))
    with (http_fallback_enabled b) in Hm.
  unfold consistent.
  destruct (allocate_segment _ _ _ _ _).1;
    [|destruct (http_fallback_enabled b)];
    destruct Hm as [_ ->]; cbn; lia.
Qed.

Lemma after_request_idle (s : Sys SharedMemoryBridge) (c : RequestCall) :
  idle (st s) -> idle (st (after_request s c)).
Proof.
  destruct s as [b n]. unfold after_request, idle. cbn [st].
  intros (Hr & He & Hl).
  rewrite process_image_zero_copy_run.
  cbn [snd st cleanup active_requests sync_manager active_events event_locks].
  destruct (attempt_registers (call_world c)
              (effective_id (call_world c) (call_id c)) (call_image c)
              (call_level c) (call_languages c) (call_words c) (call_height c)
              (time_at (call_world c) n) (set_metrics count_total b) (S n))
    as (-> & -> & ->).
  cbn [set_metrics active_requests sync_manager active_events event_locks].
  rewrite Hr, He, Hl. by rewrite !delete_empty.
Qed.

(** X10. Whatever requests a new bridge has served, and whatever the outside did
    during each of them (allocation refused, unlink failing, nobody setting
    an event): no request, event or lock is left registered,
    [total_requests] is the number of calls, successes and failures together
    do not exceed it, nor do successes and fallbacks, and
    [zero_copy_transfers] equals [successful_requests]. *)
Theorem bridge_consistent_between_requests
    (segment_size_mb max_segments_ max_concurrent_ : Z)
    (http_fallback_enabled_ : bool) (calls : list RequestCall) :
  let s := foldl after_request
             {| st := new_bridge segment_size_mb max_segments_ max_concurrent_
                        http_fallback_enabled_;
                reads := 0 |} calls in
  idle (st s)
  /\ consistent (metrics (st s))
  /\ total_requests (metrics (st s)) = Z.of_nat (length calls).
Proof.
  cbn zeta.
  assert (H : forall s,
            idle (st s) -> consistent (metrics (st s)) ->
            idle (st (foldl after_request s calls))
            /\ consistent (metrics (st (foldl after_request s calls)))
            /\ total_requests (metrics (st (foldl after_request s calls)))
               = total_requests (metrics (st s)) + Z.of_nat (length calls)).
  { induction calls as [|c calls IH]; intros s Hi Hc; cbn [foldl length].
    - repeat split; try apply Hi; try apply Hc. lia.
    - destruct (after_request_metrics s c Hc) as [Hc' Ht].
      destruct (IH (after_request s c) (after_request_idle s c Hi) Hc')
        as (Hi'' & Hc'' & Ht'').
      repeat split; try apply Hi''; try apply Hc''. lia. }
  destruct (H {| st := new_bridge segment_size_mb max_segments_ max_concurrent_
                         http_fallback_enabled_; reads := 0 |})
    as (Hi & Hc & Ht).
  - by repeat split.
  - unfold consistent. cbn. lia.
  - repeat split; try apply Hi; try apply Hc. rewrite Ht. cbn. lia.
Qed.







End BridgeMetricsSpec.

(** ** Segment sizes and the segment table *)

Module SegmentSpec.
Import Bridge BridgeSpec.

(** The bytes one pixel takes for [calculate_segment_size]: 4 for float32,
    1 for uint8 and for every other type name. *)
Definition bytes_per_pixel (dtype_ : string) : Z :=
  if String.eqb dtype_ "float32" then 4 else 1.

Definition int64 (z : Z) : Prop := - 2 ^ 63 <= z < 2 ^ 63.

Lemma wrap64_mod (z : Z) : wrap64 z mod 2 ^ 64 = z mod 2 ^ 64.
Proof.
  unfold wrap64.
  rewrite <- (Z.add_opp_r _ (2 ^ 63)), <- Zplus_mod_idemp_l, Z.mod_mod by lia.
  rewrite Zplus_mod_idemp_l. f_equal. lia.
Qed.

Lemma wrap64_of_congruent (a b : Z) :
  a mod 2 ^ 64 = b mod 2 ^ 64 -> int64 b -> wrap64 a = b.
Proof.
  intros Hab Hb. unfold wrap64, int64 in *.
  assert (E : (a + 2 ^ 63) mod 2 ^ 64 = (b + 2 ^ 63) mod 2 ^ 64)
    by (rewrite <- Zplus_mod_idemp_l, Hab, Zplus_mod_idemp_l; reflexivity).
  rewrite E, Z.mod_small; lia.
Qed.

Lemma wrap64_int64 (z : Z) : int64 z -> wrap64 z = z.
Proof. by apply wrap64_of_congruent. Qed.

Lemma shape_prod_congruent (image_shape_ : list Z) :
  shape_prod image_shape_ mod 2 ^ 64 = foldr Z.mul 1 image_shape_ mod 2 ^ 64.
Proof.
  unfold shape_prod.
  assert (H : forall acc,
            foldl (fun acc d => wrap64 (acc * d)) acc image_shape_ mod 2 ^ 64
            = (acc * foldr Z.mul 1 image_shape_) mod 2 ^ 64).
  { induction image_shape_ as [|d l IH]; intros acc; cbn [foldl foldr].
    - by rewrite Z.mul_1_r.
    - rewrite IH, <- Zmult_mod_idemp_l, wrap64_mod, Zmult_mod_idemp_l.
      f_equal. lia. }
  rewrite H. f_equal. lia.
Qed.

(** X12. For a shape NumPy multiplies in [int64] (not empty, every entry
    within 64 bits) and an exact need (the product of the entries times the
    bytes per pixel, plus 4096 bytes of metadata and 1024 of padding) that
    leaves 1 MiB of room below [2^63], [calculate_segment_size] is the least
    multiple of 1 MiB that holds the need; overflow inside the product does
    not matter as long as the need itself fits. *)
Theorem calculate_segment_size_rounds_up (image_shape_ : list Z)
    (dtype_ : string) :
  image_shape_ <> [] ->
  Forall int64 image_shape_ ->
  let need := foldr Z.mul 1 image_shape_ * bytes_per_pixel dtype_ + 5120 in
  - 2 ^ 63 <= need < 2 ^ 63 - 1048576 ->
  let size := calculate_segment_size image_shape_ dtype_ in
  size mod 1048576 = 0 /\ need <= size < need + 1048576.
Proof.
  intros _ _ need Hneed. cbn zeta. unfold calculate_segment_size.
  assert (Hbpp : (if String.eqb dtype_ "uint8" then 1
                  else if String.eqb dtype_ "float32" then 4 else 1)
                 = bytes_per_pixel dtype_).
  { unfold bytes_per_pixel.
    destruct (String.eqb_spec dtype_ "uint8") as [->|_]; [reflexivity|].
    by destruct (String.eqb dtype_ "float32"). }
  rewrite Hbpp. set (bpp := bytes_per_pixel dtype_) in *.
  change (1024 * 1024) with 1048576.
  assert (Htotal : wrap64 (wrap64 (wrap64 (shape_prod image_shape_ * bpp) + 4096)
                           + 1024) = need).
  { apply wrap64_of_congruent; [|unfold int64; lia].
    rewrite <- Zplus_mod_idemp_l, wrap64_mod, Zplus_mod_idemp_l.
    rewrite <- Z.add_assoc, <- Zplus_mod_idemp_l, wrap64_mod.
    rewrite <- Zmult_mod_idemp_l, shape_prod_congruent, Zmult_mod_idemp_l.
    rewrite Zplus_mod_idemp_l. f_equal; subst need; lia. }
  rewrite Htotal.
  rewrite (wrap64_int64 (need + 1048576)) by (unfold int64; lia).
  rewrite (wrap64_int64 (need + 1048576 - 1)) by (unfold int64; lia).
  pose proof (Z.div_mod (need + 1048576 - 1) 1048576 ltac:(lia)) as Hdm.
  pose proof (Z.mod_pos_bound (need + 1048576 - 1) 1048576 ltac:(lia)) as Hm.
  rewrite wrap64_int64 by (unfold int64; lia).
  split; [apply Z.mod_mul; lia|lia].
Qed.

Lemma calculate_segment_size_rounds_up_witness :
  calculate_segment_size [1080; 1920; 3] "float32" mod 1048576 = 0
  /\ 24888320 <= calculate_segment_size [1080; 1920; 3] "float32" < 25936896.
Proof.
  apply (calculate_segment_size_rounds_up [1080; 1920; 3] "float32");
    [discriminate|repeat constructor; (discriminate || reflexivity)
    |split; (discriminate || reflexivity)].
Defined.

(** Beyond that range the product wraps around: for a shape of [2^32] by
    [2^32] the size comes out as 1 MiB. *)
Example calculate_segment_size_wraps :
  calculate_segment_size [2 ^ 32; 2 ^ 32] "uint8" = 1048576.
Proof. reflexivity. Qed.

(** X13. The bytes [process_image_zero_copy] copies into the segment it allocated
    for an image: the whole image up to 25,161,728 bytes (24 MiB less the
    4096 bytes kept for metadata), and only that many first bytes of a longer
    one. *)
Theorem payload_kept_up_to_24_mib (w : World) (request_id : string)
    (image_data : list Byte.byte) (t : Q) (s : Sys SharedMemoryBridge) :
  let shm := new_object request_id (_estimate_image_shape image_data) "uint8" t in
  let s' := snd (write_payload request_id shm image_data s) in
  shm_buf <$> (shared_memory_objects (segment_manager (st s')) !! request_id)
  = Some (take (Z.to_nat 25161728) image_data).
Proof.
  cbn zeta. destruct s as [b n].
  unfold write_payload, in_segment_manager, zoom, modify.
  cbn [snd st segment_manager set_segment_manager set_objects
       shared_memory_objects new_object shm_size shm_name].
  rewrite lookup_insert_eq. cbn [fmap option_fmap option_map shm_buf]. f_equal.
  unfold _estimate_image_shape.
  set (len := Z.of_nat (length image_data)).
  assert (Hlen : Z.to_nat len = length image_data) by (subst len; lia).
  destruct (Z.ltb_spec (5 * 1024 * 1024) len) as [H5|H5].
  { change (calculate_segment_size [2160; 3840; 3] "uint8" - 4096) with 25161728.
    destruct (Z.min_spec len 25161728) as [[Hlt ->]|[Hge ->]].
    - rewrite Hlen, !take_ge by lia. reflexivity.
    - reflexivity. }
  destruct (Z.ltb_spec (2 * 1024 * 1024) len) as [H2|H2].
  { change (calculate_segment_size [1080; 1920; 3] "uint8" - 4096) with 6287360.
    rewrite Z.min_l by lia. rewrite Hlen, !take_ge by lia. reflexivity. }
  destruct (Z.ltb_spec (500 * 1024) len) as [H0|H0].
  { change (calculate_segment_size [720; 1280; 3] "uint8" - 4096) with 3141632.
    rewrite Z.min_l by lia. rewrite Hlen, !take_ge by lia. reflexivity. }
  change (calculate_segment_size [480; 640; 3] "uint8" - 4096) with 1044480.
  rewrite Z.min_l by lia. rewrite Hlen, !take_ge by lia. reflexivity.
Qed.

(** A call of one of the two methods that change the segment table, with
    what the outside does during it. *)
Inductive SegmentCall :=
| Allocate (w : World) (request_id : string) (image_shape_ : list Z)
    (dtype_ : string)
| Deallocate (w : World) (request_id : string).

Definition after_segment_call (s : Sys ImageSegmentManager) (c : SegmentCall)
    : Sys ImageSegmentManager :=
  match c with
  | Allocate w request_id image_shape_ dtype_ =>
      snd (allocate_segment w request_id image_shape_ dtype_ s)
  | Deallocate w request_id => snd (deallocate_segment w request_id s)
  end.

(** The table holds no more segments than allowed, and a request has a
    segment exactly when it has a shared-memory object. *)
Definition table_ok (m : ImageSegmentManager) : Prop :=
  Z.of_nat (size (active_segments m)) <= max_segments m
  /\ forall k, is_Some (active_segments m !! k)
               <-> is_Some (shared_memory_objects m !! k).

Lemma dealloc_ok (w : World) (m : ImageSegmentManager) (k : string) :
  table_ok m ->
  table_ok (dealloc w m k) /\ max_segments (dealloc w m k) = max_segments m.
Proof.
  intros [Hsize Hkeys]. unfold dealloc.
  destruct (destroyable w m k); [|by split]. split; [|done]. split.
  - cbn [active_segments set_segments set_objects max_segments].
    rewrite map_size_delete.
    destruct (active_segments m !! k); cbn [id]; lia.
  - intros k'. cbn [active_segments shared_memory_objects set_segments set_objects].
    destruct (decide (k = k')) as [->|Hne].
    + rewrite !lookup_delete_eq. split; intros [? ?]; discriminate.
    + rewrite !lookup_delete_ne by done. apply Hkeys.
Qed.

Lemma foldl_dealloc_ok (w : World) (ks : list string) (m : ImageSegmentManager) :
  table_ok m ->
  table_ok (foldl (dealloc w) m ks)
  /\ max_segments (foldl (dealloc w) m ks) = max_segments m.
Proof.
  revert m. induction ks as [|k ks IH]; intros m Hm; cbn [foldl]; [by split|].
  destruct (dealloc_ok w m k Hm) as [Hok Hmax].
  destruct (IH _ Hok) as [Hok' Hmax']. split; [exact Hok'|congruence].
Qed.

Lemma create_and_record_ok (w : World) (request_id : string)
    (image_shape_ : list Z) (dtype_ : string) (m : ImageSegmentManager)
    (n : nat) :
  table_ok m -> at_capacity m = false ->
  let m' := st (snd (create_and_record w request_id image_shape_ dtype_ m n)) in
  table_ok m' /\ max_segments m' = max_segments m.
Proof.
  intros [Hsize Hkeys] Hcap. cbn zeta. unfold create_and_record.
  destruct (shm_create_error w _ _); cbn [snd st]; [split; [by split|done]|].
  unfold at_capacity in Hcap. apply Z.leb_gt in Hcap.
  split; [|done]. split.
  - cbn [active_segments set_segments set_objects max_segments].
    rewrite map_size_insert.
    destruct (active_segments m !! request_id); cbn [id]; lia.
  - intros k. cbn [active_segments shared_memory_objects set_segments set_objects].
    destruct (decide (request_id = k)) as [->|Hne].
    + rewrite !lookup_insert_eq. split; eauto.
    + rewrite !lookup_insert_ne by done. apply Hkeys.
Qed.

Lemma after_segment_call_ok (s : Sys ImageSegmentManager) (c : SegmentCall) :
  table_ok (st s) ->
  table_ok (st (after_segment_call s c))
  /\ max_segments (st (after_segment_call s c)) = max_segments (st s).
Proof.
  destruct s as [m n]. cbn [st]. intros Hm.
  destruct c as [w k shape dt|w k]; cbn [after_segment_call].
  - rewrite allocate_segment_run.
    destruct (foldl_dealloc_ok w (expired_requests (time_at w n) m) m Hm)
      as [Hsw Hmax]. fold (sweep w (time_at w n) m) in Hsw, Hmax.
    destruct (at_capacity m) eqn:Hcap.
    + destruct (at_capacity (sweep w (time_at w n) m)) eqn:Hcap'.
      * by split.
      * destruct (create_and_record_ok w k shape dt _ (S n) Hsw Hcap').
        split; [done|congruence].
    + by apply create_and_record_ok.
  - rewrite deallocate_segment_run. by apply dealloc_ok.
Qed.

(** X14. From a new segment manager with a limit that is not negative, whatever
    allocations and deallocations follow and whatever the operating system
    does during them: the table never holds more than [max_segments]
    segments, and a request has a segment exactly when it has a
    shared-memory object. *)
Theorem segment_table_within_limit (default_segment_size_mb max_segments_ : Z)
    (calls : list SegmentCall) :
  0 <= max_segments_ ->
  let m := st (foldl after_segment_call
                 {| st := new_segment_manager default_segment_size_mb max_segments_;
                    reads := 0 |} calls) in
  Z.of_nat (size (active_segments m)) <= max_segments_
  /\ forall k, is_Some (active_segments m !! k)
               <-> is_Some (shared_memory_objects m !! k).
Proof.
  intros Hmax. cbn zeta.
  assert (H : forall s, table_ok (st s) ->
            table_ok (st (foldl after_segment_call s calls))
            /\ max_segments (st (foldl after_segment_call s calls))
               = max_segments (st s)).
  { induction calls as [|c calls IH]; intros s Hs; cbn [foldl]; [by split|].
    destruct (after_segment_call_ok s c Hs) as [Hok Hm].
    destruct (IH _ Hok) as [Hok' Hm']. split; [exact Hok'|congruence]. }
  destruct (H {| st := new_segment_manager default_segment_size_mb max_segments_;
                 reads := 0 |}) as [[Hsize Hkeys] Hm].
  - split; [cbn; rewrite map_size_empty; lia|].
    intros k. cbn. rewrite !lookup_empty. split; intros [? ?]; discriminate.
  - rewrite Hm in Hsize. by split.
Qed.

Definition two_allocations : list SegmentCall :=
  [Allocate calm_world "a" [480; 640; 3] "uint8";
   Allocate calm_world "b" [480; 640; 3] "uint8";
   Deallocate sticky_world "a"].

Lemma segment_table_within_limit_witness :
  Z.of_nat (size (active_segments
                    (st (foldl after_segment_call
                           {| st := new_segment_manager 50 1; reads := 0 |}
                           two_allocations)))) <= 1.
Proof.
  apply (segment_table_within_limit 50 1 two_allocations). lia.
Defined.

Lemma create_and_record_found (w : World) (k : string) (image_shape_ : list Z)
    (dtype_ : string) (m : ImageSegmentManager) (n : nat) (name : string)
    (shm : SharedMemory) (s' : Sys ImageSegmentManager) :
  create_and_record w k image_shape_ dtype_ m n = (Return (name, shm), s') ->
  exists segment,
    active_segments (st s') !! k = Some segment
    /\ shared_memory_objects (st s') !! k = Some shm
    /\ seg_name segment = name /\ shm_name shm = name
    /\ seg_size segment = calculate_segment_size image_shape_ dtype_
    /\ shm_size shm = calculate_segment_size image_shape_ dtype_
    /\ seg_request_id segment = k /\ status segment = "allocated".
Proof.
  unfold create_and_record.
  destruct (shm_create_error w _ _); [discriminate|].
  intros [= <- <- <-]. eexists. cbn [st active_segments shared_memory_objects
    set_segments set_objects].
  rewrite !lookup_insert_eq. by repeat split.
Qed.

(** X15. A segment that [allocate_segment] returned is the one [get_segment]
    finds for the request: it carries the name returned, the size
    [calculate_segment_size] gives and the status allocated, together with
    the object returned.  After [deallocate_segment], [get_segment] finds
    nothing if the object could be closed and unlinked, and the same pair if
    it could not. *)
Theorem allocated_segment_is_found (w : World) (request_id : string)
    (image_shape_ : list Z) (dtype_ : string) (s s' : Sys ImageSegmentManager)
    (name : string) (shm : SharedMemory) :
  allocate_segment w request_id image_shape_ dtype_ s
    = (Return (name, shm), s') ->
  exists segment,
    get_segment request_id s' = (Return (Some (segment, shm)), s')
    /\ seg_name segment = name /\ shm_name shm = name
    /\ seg_size segment = calculate_segment_size image_shape_ dtype_
    /\ shm_size shm = calculate_segment_size image_shape_ dtype_
    /\ seg_request_id segment = request_id /\ status segment = "allocated"
    /\ fst (get_segment request_id (snd (deallocate_segment w request_id s')))
       = Return (if shm_destroy_ok w name then None else Some (segment, shm)).
Proof.
  destruct s as [m n]. rewrite allocate_segment_run. intros Hrun.
  assert (Hfound : exists segment,
    active_segments (st s') !! request_id = Some segment
    /\ shared_memory_objects (st s') !! request_id = Some shm
    /\ seg_name segment = name /\ shm_name shm = name
    /\ seg_size segment = calculate_segment_size image_shape_ dtype_
    /\ shm_size shm = calculate_segment_size image_shape_ dtype_
    /\ seg_request_id segment = request_id /\ status segment = "allocated").
  { destruct (at_capacity m); [destruct (at_capacity _); [discriminate|]|];
      by eapply create_and_record_found. }
  destruct Hfound as (segment & Hseg & Hobj & Hn & Hn' & Hsz & Hsz' & Hid & Hst).
  exists segment.
  assert (Hget : get_segment request_id s' = (Return (Some (segment, shm)), s')).
  { destruct s' as [m' n']. cbn [st] in Hseg, Hobj.
    unfold get_segment, mbind, M_bind, get. cbn [st]. by rewrite Hseg, Hobj. }
  split; [exact Hget|]. repeat split; try done.
  rewrite deallocate_segment_run. cbn [snd].
  unfold get_segment, mbind, M_bind, get. cbn [st fst].
  destruct (dealloc_lookup w (st s') request_id request_id) as [-> ->].
  rewrite !decide_True by done.
  unfold destroyable. rewrite Hobj, Hn'.
  destruct (shm_destroy_ok w name); [done|]. by rewrite Hseg.
Qed.

Lemma allocated_segment_is_found_witness :
  exists segment shm s',
    get_segment "a" s' = (Return (Some (segment, shm)), s')
    /\ status segment = "allocated".
Proof.
  destruct (allocate_segment calm_world "a" [480; 640; 3] "uint8"
              {| st := new_segment_manager 50 20; reads := 0 |})
    as [[[name shm]|e] s'] eqn:Hrun; [|vm_compute in Hrun; discriminate].
  destruct (allocated_segment_is_found calm_world "a" [480; 640; 3] "uint8"
              _ s' name shm Hrun) as (segment & Hget & _ & _ & _ & _ & _ & Hst & _).
  by exists segment, shm, s'.
Defined.

End SegmentSpec.

(** ** The M4 bridge: when a write goes through, fresh segments, counters *)

Module M4BridgeUseSpec.
Import M4Bridge M4BridgeSpec.



(** X17. A segment just created holds zeros only, and [read_image_data] finds
    no payload in it: it returns [(None, None)], also when the name had a
    segment with a payload before, which the creation replaced. *)
Theorem created_segment_reads_nothing (dirs : gset string) (os_ok : bool)
    (segment_name : string) (size : Z) (data_type : string)
    (b b1 : M4SharedMemoryBridge) :
  create_shared_segment dirs os_ok segment_name size data_type b = Some b1 ->
  fst (read_image_data segment_name b1) = (None, None).
Proof.
  unfold create_shared_segment.
  destruct (_ && (0 <? size)); [|discriminate]. intros [= <-].
  unfold read_image_data. cbn [set_segment segments name].
  rewrite lookup_insert_eq. cbn [memory_map].
  unfold mm_seek0, mm_read at 1. cbn [mm_buf mm_pos drop Z.ltb Z.compare].
  change (Z.to_nat 4) with 4%nat.
  destruct (Z.to_nat size) as [|[|[|[|n]]]]; try reflexivity.
Qed.

(** A payload written on a base path that held a directory [image]. *)
Definition written_once : M4SharedMemoryBridge :=
  snd (write_image_data with_image true "2025-01-01T00:00:00" "frame"
         sample_payload None new_bridge).

Lemma created_segment_reads_nothing_witness :
  fst (read_image_data "frame" written_once) = (Some sample_payload, Some (Json.JDict []))
  /\ exists b1,
       create_shared_segment with_image true "frame" 4096 "images" written_once
       = Some b1
       /\ fst (read_image_data "frame" b1) = (None, None).
Proof.
  split; [vm_compute; reflexivity|].
  eexists. split; [reflexivity|].
  apply (created_segment_reads_nothing with_image true "frame" 4096 "images"
           written_once).
  reflexivity.
Defined.

(** What a read that returns data does to the bridge: one operation more,
    the bytes read added, and the segment kept with its size. *)
Lemma read_image_data_data (segment_name : string) (b : M4SharedMemoryBridge)
    (data : list Byte.byte) :
  fst (fst (read_image_data segment_name b)) = Some data ->
  let b' := snd (read_image_data segment_name b) in
  operations b' = operations b + 1
  /\ bytes_transferred b' = bytes_transferred b + Z.of_nat (length data)
  /\ zero_copy_operations b' = zero_copy_operations b
  /\ exists segment segment',
       segments b !! segment_name = Some segment
       /\ segments b' = <[segment_name := segment']> (segments b)
       /\ seg_size segment' = seg_size segment.
Proof.
  unfold read_image_data.
  destruct (segments b !! segment_name) as [segment|]; [|discriminate].
  destruct (mm_read 4 _) as [header_size_data m1].
  destruct (unpack_le32 _) as [header_size|]; [|discriminate].
  destruct (mm_read header_size m1) as [hdr m2].
  destruct (Json.loads _) as [[| | | | |fields]|]; try discriminate.
  destruct (read_sized _ m2) as [[image_data m3]|]; [|discriminate].
  destruct (Json.dict_lookup "checksum" fields) as [[| | |stored| |]|];
    try discriminate.
  destruct (String.eqb _ stored); [|discriminate].
  destruct (Json.dict_lookup "metadata" fields); [|discriminate].
  cbn. intros [= ->]. repeat split. eexists _, _. by repeat split.
Qed.

(** What a write that returns [True] does to the counters. *)
Lemma write_image_data_counters (dirs : gset string) (os_ok : bool)
    (timestamp segment_name : string)
    (image_data : list Byte.byte) (metadata : option Json.json)
    (b b1 : M4SharedMemoryBridge) :
  write_image_data dirs os_ok timestamp segment_name image_data metadata b
    = (true, b1) ->
  operations b1 = operations b + 1
  /\ bytes_transferred b1 = bytes_transferred b + Z.of_nat (length image_data)
  /\ zero_copy_operations b1 = zero_copy_operations b + 1
  /\ is_Some (segments b1 !! segment_name).
Proof.
  unfold write_image_data.
  destruct (segments b !! segment_name) as [segment|] eqn:Hseg.
  - rewrite Hseg. destruct (write_all _ _ _) as [[|] m3]; [|discriminate].
    intros [= <-]. cbn. rewrite lookup_insert_eq. by repeat split.
  - unfold create_shared_segment.
    destruct (_ && (0 <? _)); [|discriminate].
    cbn [set_segment segments name]. rewrite lookup_insert_eq.
    destruct (write_all _ _ _) as [[|] m3]; [|discriminate].
    intros [= <-]. cbn. rewrite lookup_insert_eq. by repeat split.
Qed.

Lemma write_new_bridge_state (dirs : gset string) (os_ok : bool)
    (timestamp segment_name : string)
    (image_data : list Byte.byte) (metadata : option Json.json)
    (b1 : M4SharedMemoryBridge) :
  write_image_data dirs os_ok timestamp segment_name image_data metadata
    new_bridge = (true, b1) ->
  exists segment,
    segments b1 = {[segment_name := segment]}
    /\ seg_size segment = Z.of_nat (length image_data) + 1024.
Proof.
  unfold write_image_data, create_shared_segment.
  cbn [new_bridge segments]. rewrite lookup_empty.
  destruct (_ && (0 <? _)); [|discriminate].
  cbn [set_segment segments name]. rewrite lookup_insert_eq.
  destruct (write_all _ _ _) as [[|] m3]; [|discriminate].
  intros [= <-]. eexists. cbn [segments]. split.
  - rewrite insert_insert_eq. reflexivity.
  - reflexivity.
Qed.

Lemma efficiency_single (b : M4SharedMemoryBridge) (segment_name : string)
    (segment : SharedMemorySegment) :
  segments b = {[segment_name := segment]} -> 0 < seg_size segment ->
  _calculate_memory_efficiency b
  = (inject_Z (bytes_transferred b) / inject_Z (seg_size segment) * 100)%Q.
Proof.
  intros Hseg Hpos. unfold _calculate_memory_efficiency, total_allocated.
  rewrite Hseg, map_size_singleton, map_fold_singleton. cbn [Nat.eqb].
  rewrite Z.add_0_r. by destruct (Z.ltb_spec 0 (seg_size segment)); [|lia].
Qed.

(** X18. [_calculate_memory_efficiency] sets the bytes written and read against
    the bytes allocated.  In a new bridge, after a payload of [n] bytes is
    written the efficiency is [n / (n + 1024) * 100]; after it is read back
    once it is [2n / (n + 1024) * 100], which is more than 100 for a payload
    of more than 1024 bytes. *)
Theorem memory_efficiency_counts_reads (dirs : gset string)
    (timestamp segment_name : string)
    (image_data : list Byte.byte) (metadata : option Json.json)
    (b1 : M4SharedMemoryBridge) :
  write_image_data dirs true timestamp segment_name image_data metadata
    new_bridge = (true, b1) ->
  let n := Z.of_nat (length image_data) in
  let b2 := snd (read_image_data segment_name b1) in
  _calculate_memory_efficiency b1
    = (inject_Z n / inject_Z (n + 1024) * 100)%Q
  /\ _calculate_memory_efficiency b2
     = (inject_Z (n + n) / inject_Z (n + 1024) * 100)%Q
  /\ (1024 < n -> (100 < _calculate_memory_efficiency b2)%Q).
Proof.
  intros Hwrite n b2.
  destruct (write_new_bridge_state _ _ _ _ _ _ _ Hwrite)
    as (segment & Hseg & Hsize).
  destruct (write_image_data_counters _ _ _ _ _ _ _ _ Hwrite)
    as (_ & Hbytes & _ & _).
  cbn [new_bridge bytes_transferred] in Hbytes.
  destruct (write_image_data_stored _ _ _ _ _ _ _ _ Hwrite)
    as (seg & packed & rest & Hlook & Hpack & Hbuf).
  pose proof (read_stored _ _ _ _ _ _ metadata _ _ Hlook Hpack Hbuf eq_refl) as Hread.
  rewrite String.eqb_refl in Hread.
  destruct (read_image_data_data segment_name b1 image_data)
    as (_ & Hbytes2 & _ & sg & sg' & Hsg & Hsegs2 & Hsz2);
    [by rewrite Hread|].
  fold b2 in Hbytes2, Hsegs2.
  rewrite Hseg in Hsg. rewrite lookup_singleton_eq in Hsg. injection Hsg as <-.
  rewrite Hseg, insert_singleton_eq in Hsegs2.
  assert (E1 : _calculate_memory_efficiency b1
               = (inject_Z n / inject_Z (n + 1024) * 100)%Q).
  { rewrite (efficiency_single b1 segment_name segment Hseg) by lia.
    rewrite Hbytes, Hsize. reflexivity. }
  assert (E2 : _calculate_memory_efficiency b2
               = (inject_Z (n + n) / inject_Z (n + 1024) * 100)%Q).
  { rewrite (efficiency_single b2 segment_name sg' Hsegs2) by lia.
    rewrite Hbytes2, Hbytes, Hsz2, Hsize. reflexivity. }
  split; [exact E1|]. split; [exact E2|].
  intros Hbig. rewrite E2.
  destruct (n + 1024) as [|p|p] eqn:Hp; try lia.
  unfold Qlt, Qdiv, Qmult, Qinv, inject_Z. cbn. lia.
Qed.

Lemma memory_efficiency_counts_reads_witness :
  _calculate_memory_efficiency written_once = (inject_Z 3 / inject_Z 1027 * 100)%Q.
Proof.
  apply (memory_efficiency_counts_reads with_image "2025-01-01T00:00:00" "frame"
           sample_payload None written_once).
  vm_compute. reflexivity.
Defined.












End M4BridgeUseSpec.

(** ** Cache metrics, learning, tuning and eviction *)

Module CacheLearningSpec.
Import CacheLearning.

(** The smoothing factor of [_update_rate_metric]. *)
Definition alpha (total_requests_ : Z) : Q :=
  Qmin (1 # 10) (10 / inject_Z (Z.max total_requests_ 10)).





(** One call of [update_metrics]: the operation and the two readings of the
    clock. *)
Definition observe (m : CachePredictionModel) (x : CacheOperation * Q * Q)
    : CachePredictionModel :=
  update_metrics (fst (fst x)) (snd (fst x)) (snd x) m.




(** Two hits and a miss push the hit rate and the miss rate to 0.19 and
    0.1: the two do not describe shares of one total. *)
Example rates_after_two_hits_and_a_miss :
  let hit := {| op_type := Some "hit"; access_time_ms := None;
                op_cache_key := Some "k" |} in
  let miss := {| op_type := Some "miss"; access_time_ms := None;
                 op_cache_key := Some "k" |} in
  let c := cache_metrics
             (foldl observe (init (8 # 10))
                [(hit, 0, 0); (hit, 1, 1); (miss, 2, 2)]%Q) in
  (hit_rate c == 19 # 100 /\ miss_rate c == 1 # 10)%Q.
Proof. vm_compute. split; reflexivity. Qed.

Lemma observe_learning (m : CachePredictionModel) (x : CacheOperation * Q * Q) :
  learning_enabled m = true ->
  (forall key, 0 <= frequency (frequency_data m) key) ->
  learning_enabled (observe m x) = true
  /\ prediction_threshold (observe m x) = prediction_threshold m
  /\ length (prediction_history (observe m x))
     = Nat.min 1000 (length (prediction_history m) + 1)
  /\ forall key, 0 <= frequency (frequency_data (observe m x)) key.
Proof.
  destruct x as [[op now] ctx]. intros Hl Hf.
  unfold observe, update_metrics. cbn [fst snd]. rewrite Hl.
  unfold _learn_from_operation.
  cbn [learning_enabled prediction_threshold prediction_history frequency_data].
  rewrite BatchPartitionSpec.length_deque_append.
  repeat split; try done.
  intros key.
  destruct (truthy_key op) as [k|]; [|apply Hf].
  destruct (op_is op "hit"); [|destruct (op_is op "miss"); [|apply Hf]];
    unfold reinforce, adjust, frequency;
    (destruct (decide (k = key)) as [->|Hne];
     [rewrite lookup_insert_eq; cbn; specialize (Hf key); unfold frequency in Hf; lia
     |rewrite lookup_insert_ne by done; apply Hf]).
Qed.

(** X21. Learning from the operations counted since the model was built: the
    history holds the last 1000 of them at most, no frequency count is
    negative, and neither the learning flag nor the prediction threshold is
    touched. *)
Theorem learning_keeps_history_and_counts (prediction_threshold_ : Q)
    (ops : list (CacheOperation * Q * Q)) :
  let m := foldl observe (init prediction_threshold_) ops in
  length (prediction_history m) = Nat.min 1000 (length ops)
  /\ (forall key, 0 <= frequency (frequency_data m) key)
  /\ learning_enabled m = true
  /\ prediction_threshold m = prediction_threshold_.
Proof.
  cbn zeta.
  assert (H : forall m,
            learning_enabled m = true ->
            (forall key, 0 <= frequency (frequency_data m) key) ->
            (length (prediction_history m) <= 1000)%nat ->
            let m' := foldl observe m ops in
            length (prediction_history m')
            = Nat.min 1000 (length (prediction_history m) + length ops)
            /\ (forall key, 0 <= frequency (frequency_data m') key)
            /\ learning_enabled m' = true
            /\ prediction_threshold m' = prediction_threshold m).
  { induction ops as [|x ops IH]; intros m Hl Hf Hlen; cbn [foldl length].
    - repeat split; try done. lia.
    - destruct (observe_learning m x Hl Hf) as (Hl1 & Ht1 & Hh1 & Hf1).
      destruct (IH (observe m x) Hl1 Hf1) as (Hh2 & Hf2 & Hl2 & Ht2); [lia|].
      cbn zeta in *. repeat split; try done; [lia|congruence]. }
  destruct (H (init prediction_threshold_)) as (Hh & Hf & Hl & Ht).
  - reflexivity.
  - intros key. unfold frequency. cbn. by rewrite lookup_empty.
  - cbn. lia.
  - cbn zeta in *. split; [|by repeat split].
    rewrite Hh. cbn [init prediction_history length]. lia.
Qed.

Lemma accuracy_depends_on_side (t t' : Q) (history : list HistoryEntry) :
  Qle_bool t (8 # 10) = Qle_bool t' (8 # 10) ->
  _calculate_accuracy_at_threshold t history
  = _calculate_accuracy_at_threshold t' history.
Proof.
  intros Hside. unfold _calculate_accuracy_at_threshold, Qgtb.
  by rewrite Hside.
Qed.

Lemma Qltb_irrefl (x : Q) : Qltb x x = false.
Proof.
  unfold Qltb. apply negb_false_iff, Qle_bool_iff, Qle_refl.
Qed.

(** X22. [tune_prediction_threshold] sets the threshold to 0.5 or to 0.9 or
    leaves it alone, whatever the history and the target: the simulated
    accuracy is the same for the test thresholds up to 0.8 and the same for
    the two above, and [min] keeps the first of equal candidates.  With
    fewer than 50 entries in the history nothing changes; in every case the
    metrics, the history and the frequency counts stay as they are. *)
Theorem tuned_threshold_is_one_of_two (target_accuracy : Q)
    (m : CachePredictionModel) :
  let m' := tune_prediction_threshold target_accuracy m in
  (prediction_threshold m' = prediction_threshold m
   \/ prediction_threshold m' = (5 # 10)%Q
   \/ prediction_threshold m' = (9 # 10)%Q)
  /\ ((50 <= length (prediction_history m))%nat \/ m' = m)
  /\ cache_metrics m' = cache_metrics m
  /\ prediction_history m' = prediction_history m
  /\ frequency_data m' = frequency_data m
  /\ learning_enabled m' = learning_enabled m.
Proof.
  cbn zeta. unfold tune_prediction_threshold.
  destruct (Nat.ltb_spec (length (prediction_history m)) 50) as [Hshort|Hlong].
  { split; [by left|]. split; [by right|]. by repeat split. }
  set (performance := fun t =>
         _calculate_accuracy_at_threshold t (prediction_history m)).
  set (distance := fun t => Qabs (performance t - target_accuracy)).
  assert (Hlow : forall t, Qle_bool t (8 # 10) = true ->
                 distance t = distance (5 # 10)%Q).
  { intros t Ht. unfold distance, performance.
    by rewrite (accuracy_depends_on_side t (5 # 10) _ Ht). }
  assert (Hhigh : distance (95 # 100)%Q = distance (9 # 10)%Q).
  { unfold distance, performance.
    by rewrite (accuracy_depends_on_side (95 # 100) (9 # 10) _ eq_refl). }
  assert (Hbest : min_by distance (5 # 10)%Q (tail test_thresholds) = (5 # 10)%Q
                  \/ min_by distance (5 # 10)%Q (tail test_thresholds)
                     = (9 # 10)%Q).
  { cbn [test_thresholds tail min_by].
    rewrite (Hlow (6 # 10)%Q eq_refl), Qltb_irrefl.
    rewrite (Hlow (7 # 10)%Q eq_refl), Qltb_irrefl.
    rewrite (Hlow (8 # 10)%Q eq_refl), Qltb_irrefl.
    destruct (Qltb (distance (9 # 10)%Q) (distance (5 # 10)%Q)) eqn:Hd.
    - right. by rewrite Hhigh, Qltb_irrefl.
    - left. by rewrite Hhigh, Hd. }
  destruct (Qltb _ (1 # 10)); cbn [prediction_threshold cache_metrics
    prediction_history frequency_data learning_enabled].
  - split; [right; exact Hbest|]. split; [by left|]. by repeat split.
  - split; [by left|]. split; [by left|]. by repeat split.
Qed.

Section Eviction.
Variable current_time : Q.

(** An entry may stand before another in the eviction order. *)
Definition evicted_before (a b : string * CacheEntry) : Prop :=
  (eviction_score current_time (snd a) <= eviction_score current_time (snd b))%Q.

(** X23. [optimize_eviction] recommends every key of the cache, each once, in
    ascending order of the eviction score; it leaves no entry out, however
    often the entry was used. *)
Theorem eviction_recommends_every_key
    (cache_contents : list (string * CacheEntry)) :
  exists ordered,
    optimize_eviction current_time cache_contents = map fst ordered
    /\ ordered ≡ₚ cache_contents
    /\ StronglySorted evicted_before ordered
    /\ optimize_eviction current_time cache_contents ≡ₚ map fst cache_contents
    /\ length (optimize_eviction current_time cache_contents)
       = length cache_contents.
Proof.
  set (before := fun a b : string * CacheEntry =>
         Qle_bool (eviction_score current_time (snd a))
                  (eviction_score current_time (snd b))).
  exists (stable_sort before cache_contents).
  assert (Hperm : stable_sort before cache_contents ≡ₚ cache_contents)
    by apply stable_sort_perm.
  split; [reflexivity|]. split; [exact Hperm|]. split; [|split].
  - eapply StronglySorted_weaken; [|apply (stable_sort_sorted before)].
    + intros a b Hab. apply Is_true_true in Hab. by apply Qle_bool_iff.
    + intros a b Hab. subst before. cbn in *. apply Qle_bool_iff.
      apply Qlt_le_weak, Qnot_le_lt. intros Hle.
      apply Qle_bool_iff in Hle. congruence.
    + intros a b c Hab Hbc. subst before. cbn in *.
      apply Qle_bool_iff. apply Qle_bool_iff in Hab, Hbc.
      eapply Qle_trans; eassumption.
  - unfold optimize_eviction. fold before.
    change (map fst (stable_sort before cache_contents))
      with (fst <$> stable_sort before cache_contents).
    change (map fst cache_contents) with (fst <$> cache_contents).
    by rewrite Hperm.
  - unfold optimize_eviction. fold before.
    rewrite length_map. by apply Permutation_length.
Qed.

End Eviction.

End CacheLearningSpec.

(** ** The resource monitor loop of the vision processor *)

Module VisionProcessorSpec.
Import VisionProcessor.

Lemma usage_below_half (cpu : Q) :
  Qltb (Qmin 100 (cpu * 2)) (5 # 10) = Qltb cpu (1 # 4).
Proof.
  apply eq_true_iff_eq. rewrite !Qltb_lt, Q.min_lt_iff.
  split.
  - intros [H|H]; [discriminate H|].
    unfold Qlt, Qmult in *. cbn in *. lia.
  - intros H. right. unfold Qlt, Qmult in *. cbn in *. lia.
Qed.

Lemma usage_above_four_fifths (cpu : Q) :
  Qgtb (Qmin 100 (cpu * 2)) (8 # 10) = Qgtb cpu (2 # 5).
Proof.
  apply eq_true_iff_eq. rewrite !Qgtb_lt, Q.min_glb_lt_iff.
  split.
  - intros [_ H]. unfold Qlt, Qmult in *. cbn in *. lia.
  - intros H. split; [reflexivity|]. unfold Qlt, Qmult in *. cbn in *. lia.
Qed.

(** X24. A turn of [_resource_monitor_loop] with adaptive sizing on hands the
    monitor's reading to [adjust_for_utilization].  The usage in that
    reading is [min(100, 2 * process_cpu)], a percentage, and the optimizer
    compares it with 0.5 and 0.8: the batch sizes are increased when the
    process takes less than 0.25% of a CPU, decreased when it takes more
    than 0.4%, and kept in between. *)
Theorem monitor_turn_adjusts_by_cpu_share (history_size : nat)
    (first second : option UtilizationMonitor.Probe) (now adjust_now : Q)
    (v : Monitoring) (o : BatchOptimizer.DynamicBatchOptimizer) :
  batch_optimizer v = Some o ->
  adaptive_sizing_enabled v = true ->
  let cpu := UtilizationMonitorSpec.probed_cpu second in
  let v' := resource_monitor_turn history_size first second now adjust_now v in
  ane_utilization_percent v' = Qmin 100 (cpu * 2)
  /\ BatchOptimizer.current_config <$> batch_optimizer v'
     = Some (if Qltb cpu (1 # 4)
             then BatchOptimizer._increase_batch_sizes
                    (BatchOptimizer.current_config o)
             else if Qgtb cpu (2 # 5)
             then BatchOptimizer._decrease_batch_sizes
                    (BatchOptimizer.current_config o)
             else BatchOptimizer.current_config o).
Proof.
  intros Ho Hon cpu v'. subst v'. unfold resource_monitor_turn.
  destruct (UtilizationMonitorSpec.current_utilization_lookup first second now
              history_size (utilization_history v)) as (Husage & _ & _).
  cbn zeta in Husage. fold cpu in Husage.
  destruct (UtilizationMonitor.get_current_utilization _ _ _ _ _)
    as [utilization monitor_history].
  cbn [fst] in Husage.
  cbn [ane_utilization_percent batch_optimizer]. rewrite Ho, Hon.
  split; [exact Husage|].
  cbn [fmap option_fmap option_map].
  unfold BatchOptimizer.adjust_for_utilization.
  cbn [BatchOptimizer.current_config].
  by rewrite Husage, usage_below_half, usage_above_four_fifths.
Qed.

Definition watching (o : BatchOptimizer.DynamicBatchOptimizer) : Monitoring := {|
  utilization_history := [];
  resource_utilization_history := [];
  ane_utilization_percent := 0;
  resource_efficiency := 0;
  adaptive_sizing_enabled := true;
  batch_optimizer := Some o
|}.

(** A process at 1% of a CPU: [initial_size = 5] gives sizes 2 and 5, which
    the turn lowers to 1 and 4. *)
Definition light_probe : UtilizationMonitor.Probe := {|
  UtilizationMonitor.cpu_percent := 3;
  UtilizationMonitor.memory_percent := 40;
  UtilizationMonitor.memory_available := 1073741824;
  UtilizationMonitor.process_rss := 104857600;
  UtilizationMonitor.process_cpu := 1;
  UtilizationMonitor.load_average := 0
|}.

Lemma monitor_turn_adjusts_by_cpu_share_witness :
  (fun c => (BatchOptimizer.high_priority_batch_size c,
             BatchOptimizer.normal_priority_batch_size c))
  <$> (BatchOptimizer.current_config
       <$> batch_optimizer
             (resource_monitor_turn 1000 (Some light_probe) (Some light_probe)
                10 11 (watching (BatchOptimizer.init 5 true))))
  = Some (1, 4).
Proof.
  rewrite (proj2 (monitor_turn_adjusts_by_cpu_share 1000 (Some light_probe)
                    (Some light_probe) 10 11
                    (watching (BatchOptimizer.init 5 true))
                    (BatchOptimizer.init 5 true) eq_refl eq_refl)).
  reflexivity.
Defined.

(** *** The efficiency metric *)

Record Turn := {
  first : option UtilizationMonitor.Probe;
  second : option UtilizationMonitor.Probe;
  now : Q;
  adjust_now : Q
}.

(** The loop run on a sequence of probes and clock readings. *)
Definition monitor_turns (history_size : nat) (ts : list Turn) (v : Monitoring)
    : Monitoring :=
  foldl (fun v t =>
           resource_monitor_turn history_size (first t) (second t) (now t)
             (adjust_now t) v) v ts.

Definition throughputs_ok (v : Monitoring) : Prop :=
  Forall (fun u => (0 <= dict_get u "throughput" 0)%Q)
    (resource_utilization_history v).

Definition is_percentage (q : Q) : Prop := (0 <= q)%Q /\ (q <= 100)%Q.

Lemma reading_throughput (first second : option UtilizationMonitor.Probe)
    (now : Q) (n : nat) (history : list UtilizationMonitor.ANEUtilization) :
  (0 <= dict_get (fst (UtilizationMonitor.get_current_utilization first second
                         now n history)) "throughput" 0)%Q.
Proof.
  assert (E : dict_get (fst (UtilizationMonitor.get_current_utilization first
                               second now n history)) "throughput" 0
              = Qmax 0 (100 - Qmin 100
                                (UtilizationMonitorSpec.probed_cpu second * 2)))
    by (destruct first, second; reflexivity).
  rewrite E. apply Q.le_max_l.
Qed.

Lemma Qsum_nonneg (xs : list Q) :
  Forall (fun x => (0 <= x)%Q) xs -> (0 <= Qsum xs)%Q.
Proof.
  induction 1 as [|x xs Hx _ IH]; cbn; [discriminate|].
  apply (Qle_trans _ (0 + 0)); [discriminate|by apply Qplus_le_compat].
Qed.

Lemma mean_nonneg (xs : list Q) :
  Forall (fun x => (0 <= x)%Q) xs -> (0 <= UtilizationMonitor.mean xs)%Q.
Proof.
  intros H. unfold UtilizationMonitor.mean, Qdiv.
  apply Qmult_le_0_compat; [by apply Qsum_nonneg|].
  apply Qinv_le_0_compat. unfold Qle, inject_Z. cbn. lia.
Qed.

Lemma resource_efficiency_range (history : list (gmap string Q)) :
  Forall (fun u => (0 <= dict_get u "throughput" 0)%Q) history ->
  is_percentage (_calculate_resource_efficiency history).
Proof.
  intros H. unfold _calculate_resource_efficiency, is_percentage.
  destruct history as [|u history]; [split; discriminate|].
  set (recent := UtilizationMonitor.last_n 10 (u :: history)).
  assert (Hrecent : Forall (fun u => (0 <= dict_get u "throughput" 0)%Q) recent)
    by (by apply Forall_drop).
  cbn zeta. destruct (Qgtb _ 0) eqn:Hpos; [|split; discriminate].
  apply Qgtb_lt in Hpos. split; [|apply Q.le_min_r].
  apply Q.min_glb; [|discriminate].
  apply Qmult_le_0_compat; [|discriminate].
  unfold Qdiv. apply Qmult_le_0_compat.
  - apply mean_nonneg, Forall_map. exact Hrecent.
  - apply Qinv_le_0_compat. by apply Qlt_le_weak.
Qed.

Lemma turn_keeps_throughputs (history_size : nat) (t : Turn) (v : Monitoring) :
  throughputs_ok v ->
  throughputs_ok (resource_monitor_turn history_size (first t) (second t)
                    (now t) (adjust_now t) v)
  /\ is_percentage (resource_efficiency
                   (resource_monitor_turn history_size (first t) (second t)
                      (now t) (adjust_now t) v)).
Proof.
  intros H. unfold resource_monitor_turn, throughputs_ok.
  pose proof (reading_throughput (first t) (second t) (now t) history_size
                (utilization_history v)) as Hu.
  destruct (UtilizationMonitor.get_current_utilization _ _ _ _ _)
    as [utilization monitor_history].
  cbn [fst] in Hu. cbn [resource_utilization_history resource_efficiency].
  assert (Hall : Forall (fun u => (0 <= dict_get u "throughput" 0)%Q)
                   (deque_append 100 utilization
                      (resource_utilization_history v))).
  { unfold deque_append. apply Forall_drop, Forall_app. split; [exact H|].
    by constructor. }
  split; [exact Hall|]. by apply resource_efficiency_range.
Qed.

(** X25. The efficiency the loop publishes is a percentage: when no reading kept
    by the processor has a negative throughput (none has when the loop
    starts, the deque being empty), the metric lies between 0 and 100 after
    every turn, whatever the probes return, and the readings the loop adds
    keep their throughput non-negative. *)
Theorem resource_efficiency_is_a_percentage (history_size : nat)
    (ts : list Turn) (v : Monitoring) :
  throughputs_ok v ->
  is_percentage (resource_efficiency v) ->
  throughputs_ok (monitor_turns history_size ts v)
  /\ is_percentage (resource_efficiency (monitor_turns history_size ts v)).
Proof.
  revert v. induction ts as [|t ts IH]; intros v Hok Hp; [done|].
  cbn [monitor_turns foldl]. fold (monitor_turns history_size ts).
  destruct (turn_keeps_throughputs history_size t v Hok) as [Hok' Hp'].
  by apply IH.
Qed.

(** A busy turn after a light one: usages 2 and 90 average to 46, the
    throughputs 98 and 10 to 54, and the ratio is capped at 100. *)
Definition loaded_probe : UtilizationMonitor.Probe := {|
  UtilizationMonitor.cpu_percent := 80;
  UtilizationMonitor.memory_percent := 60;
  UtilizationMonitor.memory_available := 1073741824;
  UtilizationMonitor.process_rss := 104857600;
  UtilizationMonitor.process_cpu := 45;
  UtilizationMonitor.load_average := 2
|}.

Definition two_turns : list Turn :=
  [ {| first := Some light_probe; second := Some light_probe;
       now := 10; adjust_now := 11 |};
    {| first := Some loaded_probe; second := Some loaded_probe;
       now := 20; adjust_now := 21 |} ].

Lemma resource_efficiency_is_a_percentage_witness :
  throughputs_ok (watching (BatchOptimizer.init 5 true))
  /\ is_percentage (resource_efficiency
                   (monitor_turns 1000 two_turns (watching (BatchOptimizer.init 5 true)))).
Proof.
  assert (Hok : throughputs_ok (watching (BatchOptimizer.init 5 true)))
    by constructor.
  split; [exact Hok|].
  apply (resource_efficiency_is_a_percentage 1000 two_turns
           (watching (BatchOptimizer.init 5 true)) Hok).
  split; discriminate.
Defined.

Example efficiency_after_two_turns :
  (resource_efficiency
     (monitor_turns 1000 two_turns (watching (BatchOptimizer.init 5 true))) == 100)%Q.
Proof. vm_compute. reflexivity. Qed.

End VisionProcessorSpec.
